(** * IBC balance tracker: a shallow embedding of [src/index.ts]

    The development follows the source file top to bottom: the chain and
    channel registries, the [hash] helper, [convertAddressPrefix],
    [getDenom] and the depth-first traversal inside [trackBalances]; then
    [capitalize] and the entry point [main] with the report that it
    writes.  What the source imports is embedded as well: SHA-256, the
    checksummed address codec, and [parseFloat].

    Conventions.
    - A JavaScript string is a Rocq [string]; the bytes of the [string] are
      the UTF-8 encoding of the text, so [toUtf8] is the list of its bytes.
    - [undefined] is [None]; a property read on an object literal is
      [obj_get] on the association list of its own properties, in source
      order (so [Object.keys] is [map fst]).
    - a [Uint8Array] is a [list byte].
    - a thrown exception is the [Throw] branch of [result]. *)

From Stdlib Require Import ZArith List String Ascii Bool Lia.
From Stdlib Require Import Init.Byte NArith SpecFloat.
From stdpp Require Import gmap strings list.

Local Open Scope string_scope.
Local Open Scope list_scope.

(** ** JavaScript values used by the source *)

(** The two classes of exception that the source and the two packages it
    calls can raise: [TypeError] (a property read on [undefined], a length
    limit in the address encoder) and the plain [Error] of the address
    decoder and of the balance source. *)
Inductive exn : Type :=
  | TypeError
  | Error.

Inductive result (A : Type) : Type :=
  | Ok (a : A)
  | Throw (e : exn).
Arguments Ok {A} a.
Arguments Throw {A} e.

Definition bind {A B} (r : result A) (k : A -> result B) : result B :=
  match r with
  | Ok a => k a
  | Throw e => Throw e
  end.

Notation "'try!' x := r 'in' k" := (bind r (fun x => k))
  (at level 10, x pattern, r at level 100, k at level 200).

(** [ToString] of a value that is a string or [undefined]; the same
    conversion makes a property key out of it. *)
Definition js_to_string (v : option string) : string :=
  match v with
  | Some s => s
  | None => "undefined"
  end.

(** [o[k]] for an object literal [o] and a string key [k]: the own
    properties only.  The keys that the source looks up in its tables are
    chain names, chain ids and the text "undefined"; what a key inherited
    from [Object.prototype] would give is never a key of these tables, so
    the results below are the same with or without the prototype. *)
Fixpoint obj_get {A} (o : list (string * A)) (k : string) : option A :=
  match o with
  | [] => None
  | (k', v) :: o' => if String.eqb k' k then Some v else obj_get o' k
  end.

(** [Object.keys(o)]. *)
Definition obj_keys {A} (o : list (string * A)) : list string := map fst o.

(** ** SHA-256 (FIPS 180-4), the [sha256] of [@cosmjs/crypto] *)

Module Sha256.
Local Open Scope Z_scope.

(** Words are 32 bits wide: [wrap] keeps the low 32 bits. *)
Definition mask : Z := 4294967295.
Definition wrap (x : Z) : Z := Z.land x mask.
Definition plus (x y : Z) : Z := wrap (x + y).
Definition rotr (n x : Z) : Z :=
  Z.lor (Z.shiftr x n) (wrap (Z.shiftl x (32 - n))).
Definition inv (x : Z) : Z := Z.lxor x mask.

Definition Ch (x y z : Z) : Z := Z.lxor (Z.land x y) (Z.land (inv x) z).
Definition Maj (x y z : Z) : Z :=
  Z.lxor (Z.lxor (Z.land x y) (Z.land x z)) (Z.land y z).
Definition Sigma0 (x : Z) : Z :=
  Z.lxor (Z.lxor (rotr 2 x) (rotr 13 x)) (rotr 22 x).
Definition Sigma1 (x : Z) : Z :=
  Z.lxor (Z.lxor (rotr 6 x) (rotr 11 x)) (rotr 25 x).
Definition sigma0 (x : Z) : Z :=
  Z.lxor (Z.lxor (rotr 7 x) (rotr 18 x)) (Z.shiftr x 3).
Definition sigma1 (x : Z) : Z :=
  Z.lxor (Z.lxor (rotr 17 x) (rotr 19 x)) (Z.shiftr x 10).

(** Round constants, in decimal: the first 32 bits of the fractional parts
    of the cube roots of the first 64 primes (checked by [K_cube_roots]). *)
Definition K : list Z :=
  [ 1116352408; 1899447441; 3049323471; 3921009573; 961987163; 1508970993;
    2453635748; 2870763221; 3624381080; 310598401; 607225278; 1426881987;
    1925078388; 2162078206; 2614888103; 3248222580; 3835390401; 4022224774;
    264347078; 604807628; 770255983; 1249150122; 1555081692; 1996064986;
    2554220882; 2821834349; 2952996808; 3210313671; 3336571891; 3584528711;
    113926993; 338241895; 666307205; 773529912; 1294757372; 1396182291;
    1695183700; 1986661051; 2177026350; 2456956037; 2730485921; 2820302411;
    3259730800; 3345764771; 3516065817; 3600352804; 4094571909; 275423344;
    430227734; 506948616; 659060556; 883997877; 958139571; 1322822218;
    1537002063; 1747873779; 1955562222; 2024104815; 2227730452; 2361852424;
    2428436474; 2756734187; 3204031479; 3329325298 ].

(** Initial hash value: the first 32 bits of the fractional parts of the
    square roots of the first 8 primes (checked by [H0_square_roots]). *)
Definition H0 : list Z :=
  [ 1779033703; 3144134277; 1013904242; 2773480762;
    1359893119; 2600822924; 528734635; 1541459225 ].

(** Big-endian packing of bytes into one number and back. *)
Definition be_pack (bs : list Z) : Z :=
  fold_left (fun acc b => acc * 256 + b) bs 0.

Fixpoint be_unpack (n : nat) (x : Z) : list Z :=
  match n with
  | O => []
  | S n' => be_unpack n' (x / 256) ++ [x mod 256]
  end.

(** Padding: a [1] bit, zeros up to 56 modulo 64 bytes, then the length of
    the message in bits on 8 bytes. *)
Definition pad (msg : list Z) : list Z :=
  let len := Z.of_nat (length msg) in
  let zeros := Z.to_nat ((55 - len) mod 64) in
  msg ++ [128] ++ repeat 0 zeros ++ be_unpack 8 (8 * len).

Fixpoint chunks {A} (fuel size : nat) (l : list A) : list (list A) :=
  match fuel with
  | O => []
  | S fuel' =>
      match l with
      | [] => []
      | _ => firstn size l :: chunks fuel' size (skipn size l)
      end
  end.

(** The message schedule, most recent word first. *)
Fixpoint extend (n : nat) (w : list Z) : list Z :=
  match n with
  | O => w
  | S n' =>
      let next :=
        plus (plus (sigma1 (nth 1 w 0)) (nth 6 w 0))
             (plus (sigma0 (nth 14 w 0)) (nth 15 w 0)) in
      extend n' (next :: w)
  end.

Definition schedule (block : list Z) : list Z :=
  rev (extend 48 (rev (map be_pack (chunks 16 4 block)))).

Record regs : Type := Regs { ra : Z; rb : Z; rc : Z; rd : Z;
                              re : Z; rf : Z; rg : Z; rh : Z }.

Definition round (s : regs) (kw : Z * Z) : regs :=
  let '(k, w) := kw in
  let t1 := plus (plus (plus (rh s) (Sigma1 (re s))) (Ch (re s) (rf s) (rg s)))
                 (plus k w) in
  let t2 := plus (Sigma0 (ra s)) (Maj (ra s) (rb s) (rc s)) in
  Regs (plus t1 t2) (ra s) (rb s) (rc s) (plus (rd s) t1) (re s) (rf s) (rg s).

Definition regs_of (h : list Z) : regs :=
  Regs (nth 0 h 0) (nth 1 h 0) (nth 2 h 0) (nth 3 h 0)
       (nth 4 h 0) (nth 5 h 0) (nth 6 h 0) (nth 7 h 0).

Definition list_of (s : regs) : list Z :=
  [ra s; rb s; rc s; rd s; re s; rf s; rg s; rh s].

Definition compress (h : list Z) (block : list Z) : list Z :=
  let s := fold_left round (combine K (schedule block)) (regs_of h) in
  map (fun p => plus (fst p) (snd p)) (combine h (list_of s)).

Definition digest (msg : list Z) : list Z :=
  let padded := pad msg in
  let blocks := chunks (length padded) 64 padded in
  concat (map (be_unpack 4) (fold_left compress blocks H0)).

(** The derivation of the constants: the first [n] primes, and the first
    32 bits of the fractional part of a square or cube root. *)
Definition is_prime (n : Z) : bool :=
  forallb (fun d => negb (n mod d =? 0))
    (map Z.of_nat (seq 2 (Z.to_nat n - 2))).

Definition primes (n : nat) : list Z :=
  firstn n (filter is_prime (map Z.of_nat (seq 2 310))).

Fixpoint cube_root (bits : nat) (x acc : Z) : Z :=
  match bits with
  | O => acc
  | S bits' =>
      let candidate := acc + 2 ^ Z.of_nat bits' in
      if candidate ^ 3 <=? x
      then cube_root bits' x candidate
      else cube_root bits' x acc
  end.

Definition sqrt_fraction (p : Z) : Z := wrap (Z.sqrt (p * 2 ^ 64)).
Definition cbrt_fraction (p : Z) : Z := wrap (cube_root 48 (p * 2 ^ 96) 0).

Definition byte_to_Z (b : byte) : Z := Z.of_N (Byte.to_N b).
Definition byte_of_Z (z : Z) : byte :=
  match Byte.of_N (Z.to_N z) with
  | Some b => b
  | None => x00
  end.

End Sha256.

(** [sha256(data)]: the 32 bytes of the digest. *)
Definition sha256 (data : list byte) : list byte :=
  map Sha256.byte_of_Z (Sha256.digest (map Sha256.byte_to_Z data)).

(** [toUtf8(s)]. *)
Definition toUtf8 (s : string) : list byte := list_byte_of_string s.

(** ** Hexadecimal text *)

Definition hex_digit (alphabet : string) (n : N) : string :=
  match String.get (N.to_nat n) alphabet with
  | Some c => String c EmptyString
  | None => EmptyString
  end.

Definition hex_byte (alphabet : string) (b : byte) : string :=
  let n := Byte.to_N b in
  hex_digit alphabet (N.div n 16) +:+ hex_digit alphabet (N.modulo n 16).

(** [toHex(data)] of [@cosmjs/encoding]: two lowercase digits per byte. *)
Fixpoint toHex (data : list byte) : string :=
  match data with
  | [] => EmptyString
  | b :: data' => hex_byte "0123456789abcdef" b +:+ toHex data'
  end.

(** [s.toUpperCase()] on the letters a-z.  The source applies it to the
    output of [toHex], which has no other letter, and the address decoder
    to its input, which it rejects unless it is plain ASCII. *)
Definition upper_ascii (c : ascii) : ascii :=
  let n := nat_of_ascii c in
  if (97 <=? n)%nat && (n <=? 122)%nat then ascii_of_nat (n - 32) else c.

Fixpoint toUpperCase (s : string) : string :=
  match s with
  | EmptyString => EmptyString
  | String c s' => String (upper_ascii c) (toUpperCase s')
  end.

(** The spec's [uppercaseHex]: two uppercase digits per byte. *)
Fixpoint uppercaseHex (data : list byte) : string :=
  match data with
  | [] => EmptyString
  | b :: data' => hex_byte "0123456789ABCDEF" b +:+ uppercaseHex data'
  end.

(** [hash(s)], source lines 108-110. *)
Definition hash (s : string) : string := toHex (sha256 (toUtf8 s)).

(** ** The chain and channel registries, source lines 6-80 *)

Definition chainNameToIdMap : list (string * string) :=
  [ ("neutron", "neutron-1");
    ("osmosis", "osmosis-1");
    ("terra", "phoenix-1");
    ("stargaze", "stargaze-1");
    ("cosmoshub", "cosmoshub-4");
    ("stride", "stride-1") ].

Definition chainNames : list string := obj_keys chainNameToIdMap.

Definition chainPrefix : list (string * string) :=
  [ ("neutron", "neutron");
    ("osmosis", "osmo");
    ("terra", "terra");
    ("stargaze", "stars");
    ("cosmoshub", "cosmos");
    ("stride", "stride") ].

Definition IBCMap : list (string * list (string * string)) :=
  [ ("neutron-1",
      [ ("osmosis-1", "channel-10");
        ("phoenix-1", "channel-25");
        ("stargaze-1", "channel-18");
        ("cosmoshub-4", "channel-1");
        ("stride-1", "channel-8") ]);
    ("osmosis-1",
      [ ("neutron-1", "channel-874");
        ("phoenix-1", "channel-251");
        ("stargaze-1", "channel-75");
        ("cosmoshub-4", "channel-0");
        ("stride-1", "channel-326") ]);
    ("phoenix-1",
      [ ("neutron-1", "channel-229");
        ("osmosis-1", "channel-1");
        ("stargaze-1", "channel-324");
        ("cosmoshub-4", "channel-0");
        ("stride-1", "channel-46") ]);
    ("stargaze-1",
      [ ("neutron-1", "channel-191");
        ("osmosis-1", "channel-0");
        ("phoenix-1", "channel-266");
        ("cosmoshub-4", "channel-239");
        ("stride-1", "channel-106") ]);
    ("cosmoshub-4",
      [ ("neutron-1", "channel-569");
        ("osmosis-1", "channel-141");
        ("phoenix-1", "channel-339");
        ("stargaze-1", "channel-730");
        ("stride-1", "channel-391") ]);
    ("stride-1",
      [ ("neutron-1", "channel-123");
        ("osmosis-1", "channel-5");
        ("phoenix-1", "channel-52");
        ("stargaze-1", "channel-19");
        ("cosmoshub-4", "channel-0") ]) ].

(** The chain ids of the registry: the values of [chainNameToIdMap]. *)
Definition chainIds : list string := map snd chainNameToIdMap.

(** ** Records of the source, lines 82-92 *)

Record DenomTrace : Type := mkDenomTrace {
  dt_denom : string;
  dt_trace : string
}.

(** ** [getDenom], source lines 133-146

    [chainNameToIdMap[srcChain]] and [chainNameToIdMap[destChain]] may be
    [undefined]; used as a key, [undefined] is the text "undefined".
    [IBCMap[destChainId]] may be [undefined], and reading a property of
    [undefined] throws a [TypeError]; a missing [channelId] is interpolated
    into the template as the text "undefined". *)
Definition getDenom (srcChain destChain : string) (baseDenomTrace : DenomTrace)
  : result DenomTrace :=
  let srcChainId := obj_get chainNameToIdMap srcChain in
  let destChainId := obj_get chainNameToIdMap destChain in
  match obj_get IBCMap (js_to_string destChainId) with
  | None => Throw TypeError
  | Some row =>
      let channelId := obj_get row (js_to_string srcChainId) in
      let trace :=
        "transfer/" +:+ js_to_string channelId +:+ "/" +:+
        dt_trace baseDenomTrace in
      Ok {| dt_denom := "ibc/" +:+ toUpperCase (hash trace);
            dt_trace := trace |}
  end.

(** [channelTable[destChainId][srcChainId]] as one lookup on chain ids. *)
Definition channelTable (destChainId srcChainId : string) : option string :=
  match obj_get IBCMap destChainId with
  | None => None
  | Some row => obj_get row srcChainId
  end.

(** ** Numbers: IEEE 754 binary64, and [parseFloat] *)

Definition number : Type := spec_float.

Module Number.
Local Open Scope Z_scope.

Definition prec : Z := 53.
Definition emax : Z := 1024.

Definition zero : number := S754_zero false.
Definition infinity : number := S754_infinity false.

(** [x > y]. *)
Definition gt (x y : number) : bool := SFltb y x.

(** [ToBoolean(x)]: false on [+0], [-0] and [NaN]. *)
Definition toBoolean (x : number) : bool :=
  match x with
  | S754_zero _ | S754_nan => false
  | _ => true
  end.

(** [Number.isFinite(x)]. *)
Definition isFinite (x : number) : bool :=
  match x with
  | S754_zero _ | S754_finite _ _ _ => true
  | _ => false
  end.

(** The number nearest to [m * 10 ^ scale] (ties to even), signed by [neg]. *)
Definition of_decimal (neg : bool) (m : Z) (scale : Z) : number :=
  match m with
  | Z0 => S754_zero neg
  | Zpos p =>
      if 0 <=? scale
      then binary_normalize prec emax
             (if neg then - (m * 10 ^ scale) else m * 10 ^ scale) 0 neg
      else SFdiv prec emax (S754_finite neg p 0)
             (S754_finite false (Z.to_pos (10 ^ (- scale))) 0)
  | Zneg _ => S754_nan
  end.

Definition is_digit (c : ascii) : bool :=
  let n := nat_of_ascii c in ((48 <=? n) && (n <=? 57))%nat.

Fixpoint span_digits (s : list ascii) : list ascii * list ascii :=
  match s with
  | c :: s' =>
      if is_digit c
      then let (ds, rest) := span_digits s' in (c :: ds, rest)
      else ([], s)
  | [] => ([], [])
  end.

Definition digits_value (ds : list ascii) : Z :=
  fold_left (fun acc c => acc * 10 + (Z.of_nat (nat_of_ascii c) - 48)) ds 0.

Definition is_nil {A} (l : list A) : bool :=
  match l with [] => true | _ => false end.

Fixpoint starts_with (p s : list ascii) : bool :=
  match p, s with
  | [], _ => true
  | a :: p', b :: s' => Ascii.eqb a b && starts_with p' s'
  | _ :: _, [] => false
  end.

(** The bytes of one [StrWhiteSpaceChar] at the head of [s], if any: the
    white space and line terminators of ECMAScript, in UTF-8. *)
Definition white_space_width (s : list ascii) : nat :=
  match map nat_of_ascii (firstn 3 s) with
  | (9 | 10 | 11 | 12 | 13 | 32)%nat :: _ => 1
  | 194%nat :: 160%nat :: _ => 2
  | 225%nat :: 154%nat :: 128%nat :: _ => 3
  | 226%nat :: 128%nat :: b :: _ =>
      if ((128 <=? b) && (b <=? 138) || (b =? 168) || (b =? 169)
          || (b =? 175))%nat
      then 3 else 0
  | 226%nat :: 129%nat :: 159%nat :: _ => 3
  | 227%nat :: 128%nat :: 128%nat :: _ => 3
  | 239%nat :: 187%nat :: 191%nat :: _ => 3
  | _ => 0
  end%nat.

Fixpoint trim_start (fuel : nat) (s : list ascii) : list ascii :=
  match fuel with
  | O => s
  | S fuel' =>
      match white_space_width s with
      | O => s
      | w => trim_start fuel' (skipn w s)
      end
  end.

(** The value of an optional [ExponentPart] at the head of [s]; an
    exponent indicator that no digit follows is not part of the literal. *)
Definition exponent (s : list ascii) : Z :=
  match s with
  | c :: s1 =>
      if Ascii.eqb c "e" || Ascii.eqb c "E" then
        match s1 with
        | "+"%char :: s2 => digits_value (fst (span_digits s2))
        | "-"%char :: s2 => - digits_value (fst (span_digits s2))
        | _ => digits_value (fst (span_digits s1))
        end
      else 0
  | [] => 0
  end.

(** The longest prefix of [s] that is a [StrUnsignedDecimalLiteral]. *)
Definition unsigned_literal (neg : bool) (s : list ascii) : number :=
  if starts_with (list_ascii_of_string "Infinity") s then S754_infinity neg
  else
    let (int_part, r1) := span_digits s in
    match r1 with
    | "."%char :: r2 =>
        let (frac_part, r3) := span_digits r2 in
        if is_nil int_part && is_nil frac_part then S754_nan
        else of_decimal neg (digits_value (int_part ++ frac_part))
               (exponent r3 - Z.of_nat (length frac_part))
    | _ =>
        if is_nil int_part then S754_nan
        else of_decimal neg (digits_value int_part) (exponent r1)
    end.

End Number.

(** [parseFloat(s)]: leading white space is skipped, the longest prefix
    that is a decimal literal is read, and what follows it is ignored;
    [NaN] when there is no such prefix.  The value is rounded to the
    nearest binary64 number, as V8 does for any number of digits. *)
Definition parseFloat (s : string) : number :=
  let t := list_ascii_of_string s in
  match Number.trim_start (length t) t with
  | "+"%char :: r => Number.unsigned_literal false r
  | "-"%char :: r => Number.unsigned_literal true r
  | r => Number.unsigned_literal false r
  end.

(** ** Checksummed addresses: [fromBech32] and [toBech32]

    [@cosmjs/encoding] wraps the [bech32] package: [fromBech32(address)] is
    [bech32.decode(address, Infinity)] followed by [bech32.fromWords], and
    [toBech32(prefix, data)] is [bech32.encode(prefix, bech32.toWords(data))]
    with the encoder's default limit of 90 characters.  The package works
    on 32-bit integers; every intermediate value of the checksum is below
    [2 ^ 30] (see [polymodStep_range]), so it is computed on [Z] as
    written, and the accumulator of the bit regrouping is kept on its low
    32 bits.  Character codes, lengths and case mapping are those of
    ASCII text: the decoder rejects a character outside the range 33-126
    in the prefix and outside its alphabet after the separator. *)

Module Bech32.
Local Open Scope Z_scope.

Definition ALPHABET : string := "qpzry9x8gf2tvdw0s3jn54khce6mua7l".

Fixpoint index_of (c : ascii) (s : string) (i : Z) : option Z :=
  match s with
  | EmptyString => None
  | String c' s' => if Ascii.eqb c' c then Some i else index_of c s' (i + 1)
  end.

(** [ALPHABET_MAP[c]]. *)
Definition ALPHABET_MAP (c : ascii) : option Z := index_of c ALPHABET 0.

(** [ALPHABET.charAt(x)]: the empty string out of range. *)
Definition charAt (x : Z) : string :=
  if x <? 0 then EmptyString
  else match String.get (Z.to_nat x) ALPHABET with
       | Some c => String c EmptyString
       | None => EmptyString
       end.

Definition polymodStep (pre : Z) : Z :=
  let b := Z.shiftr pre 25 in
  Z.lxor (Z.lxor (Z.lxor (Z.lxor (Z.lxor
    (Z.shiftl (Z.land pre 33554431) 5)
    (Z.land (- Z.land (Z.shiftr b 0) 1) 996825010))
    (Z.land (- Z.land (Z.shiftr b 1) 1) 642813549))
    (Z.land (- Z.land (Z.shiftr b 2) 1) 513874426))
    (Z.land (- Z.land (Z.shiftr b 3) 1) 1027748829))
    (Z.land (- Z.land (Z.shiftr b 4) 1) 705979059).

Definition charCode (c : ascii) : Z := Z.of_nat (nat_of_ascii c).

(** The first loop of [prefixChk]: the high bits of every character. *)
Fixpoint prefix_high (cs : list ascii) (chk : Z) : result Z :=
  match cs with
  | [] => Ok chk
  | c :: cs' =>
      let n := charCode c in
      if (n <? 33) || (126 <? n) then Throw Error
      else prefix_high cs' (Z.lxor (polymodStep chk) (Z.shiftr n 5))
  end.

(** The second loop of [prefixChk]: the low bits of every character. *)
Fixpoint prefix_low (cs : list ascii) (chk : Z) : Z :=
  match cs with
  | [] => chk
  | c :: cs' =>
      prefix_low cs' (Z.lxor (polymodStep chk) (Z.land (charCode c) 31))
  end.

Definition prefixChk (prefix : string) : result Z :=
  let cs := list_ascii_of_string prefix in
  try! chk := prefix_high cs 1 in
  Ok (prefix_low cs (polymodStep chk)).

Definition lower_ascii (c : ascii) : ascii :=
  let n := nat_of_ascii c in
  if ((65 <=? n) && (n <=? 90))%nat then ascii_of_nat (n + 32) else c.

(** [s.toLowerCase()], on the letters A-Z. *)
Fixpoint toLowerCase (s : string) : string :=
  match s with
  | EmptyString => EmptyString
  | String c s' => String (lower_ascii c) (toLowerCase s')
  end.

(** [str.lastIndexOf('1')], [None] for -1. *)
Fixpoint lastIndexOf1 (s : string) (i : nat) : option nat :=
  match s with
  | EmptyString => None
  | String c s' =>
      match lastIndexOf1 s' (S i) with
      | Some j => Some j
      | None => if Ascii.eqb c "1" then Some i else None
      end
  end.

(** The loop of [decode] over the characters after the separator; with
    [cs] the characters from index [i] on, [i + 6 >= wordChars.length]
    reads [length cs <= 6]. *)
Fixpoint decode_words (cs : list ascii) (chk : Z) (words : list Z)
  : result (Z * list Z)%type :=
  match cs with
  | [] => Ok (chk, words)
  | c :: cs' =>
      match ALPHABET_MAP c with
      | None => Throw Error
      | Some v =>
          let chk' := Z.lxor (polymodStep chk) v in
          if (6 <=? length cs)%nat && negb (6 =? length cs)%nat
          then decode_words cs' chk' (words ++ [v])
          else decode_words cs' chk' words
      end
  end.

(** [bech32.decode(str, limit)]; [limit = None] stands for [Infinity]. *)
Definition decode (str : string) (limit : option nat)
  : result (string * list Z)%type :=
  if (String.length str <? 8)%nat then Throw Error
  else if match limit with
          | Some l => (l <? String.length str)%nat
          | None => false
          end then Throw Error
  else
    let lowered := toLowerCase str in
    let uppered := toUpperCase str in
    if negb (String.eqb str lowered) && negb (String.eqb str uppered)
    then Throw Error
    else
      let str := lowered in
      match lastIndexOf1 str 0 with
      | None => Throw Error
      | Some O => Throw Error
      | Some split =>
          let prefix := String.substring 0 split str in
          let wordChars :=
            String.substring (S split) (String.length str - S split) str in
          if (String.length wordChars <? 6)%nat then Throw Error
          else
            try! chk := prefixChk prefix in
            try! r := decode_words (list_ascii_of_string wordChars) chk [] in
            if negb (fst r =? 1) then Throw Error
            else Ok (prefix, snd r)
      end.

(** The checksum characters appended by [encode]. *)
Definition checksum_chars (chk : Z) : string :=
  fold_left
    (fun res i => res +:+ charAt (Z.land (Z.shiftr chk ((5 - i) * 5)) 31))
    [0; 1; 2; 3; 4; 5] EmptyString.

Fixpoint encode_words (words : list Z) (chk : Z) (res : string)
  : result (Z * string)%type :=
  match words with
  | [] => Ok (chk, res)
  | x :: words' =>
      if negb (Z.shiftr x 5 =? 0) then Throw Error
      else encode_words words' (Z.lxor (polymodStep chk) x) (res +:+ charAt x)
  end.

(** [bech32.encode(prefix, words)] with the default limit. *)
Definition encode (prefix : string) (words : list Z) : result string :=
  if (90 <? String.length prefix + 7 + length words)%nat
  then Throw TypeError
  else
    let prefix := toLowerCase prefix in
    try! chk := prefixChk prefix in
    try! r := encode_words words chk (prefix +:+ "1") in
    let chk := Nat.iter 6 polymodStep (fst r) in
    let chk := Z.lxor chk 1 in
    Ok (snd r +:+ checksum_chars chk).

Definition wrap32 (x : Z) : Z := x mod 2 ^ 32.

(** The inner [while (bits >= outBits)] loop of [convert]; it runs at most
    [bits] times. *)
Fixpoint drain (fuel : nat) (outBits value bits : Z) (res : list Z)
  : (Z * list Z)%type :=
  match fuel with
  | O => (bits, res)
  | S fuel' =>
      if outBits <=? bits then
        let bits := bits - outBits in
        drain fuel' outBits value bits
          (res ++ [Z.land (Z.shiftr value bits) (Z.shiftl 1 outBits - 1)])
      else (bits, res)
  end.

Fixpoint convert_loop (data : list Z) (inBits outBits value bits : Z)
  (res : list Z) : (Z * Z * list Z)%type :=
  match data with
  | [] => (value, bits, res)
  | d :: data' =>
      let value := Z.lor (wrap32 (Z.shiftl value inBits)) d in
      let bits := bits + inBits in
      let (bits, res) := drain (Z.to_nat bits) outBits value bits res in
      convert_loop data' inBits outBits value bits res
  end.

(** [convert(data, inBits, outBits, pad)]. *)
Definition convert (data : list Z) (inBits outBits : Z) (pad : bool)
  : result (list Z) :=
  let maxV := Z.shiftl 1 outBits - 1 in
  let '(value, bits, res) := convert_loop data inBits outBits 0 0 [] in
  if pad then
    if 0 <? bits
    then Ok (res ++ [Z.land (wrap32 (Z.shiftl value (outBits - bits))) maxV])
    else Ok res
  else
    if inBits <=? bits then Throw Error
    else if negb (Z.land (wrap32 (Z.shiftl value (outBits - bits))) maxV =? 0)
    then Throw Error
    else Ok res.

Definition toWords (bytes : list byte) : list Z :=
  match convert (map Sha256.byte_to_Z bytes) 8 5 true with
  | Ok words => words
  | Throw _ => []
  end.

Definition fromWords (words : list Z) : result (list byte) :=
  try! bytes := convert words 5 8 false in
  Ok (map Sha256.byte_of_Z bytes).

(** One step of the checksum on a value, as in the loops of [decode] and
    [encode]. *)
Definition step (chk v : Z) : Z := Z.lxor (polymodStep chk) v.

(** Values packed five bits each, the first one highest. *)
Definition pack (acc : Z) (vs : list Z) : Z :=
  fold_left (fun a v => Z.lxor (Z.shiftl a 5) v) vs acc.

(** The characters of a list of values. *)
Fixpoint chars (vs : list Z) : string :=
  match vs with
  | [] => EmptyString
  | v :: vs' => charAt v +:+ chars vs'
  end.

(** The number that a list of [w]-bit digits writes, most significant
    digit first. *)
Definition num (w : Z) (l : list Z) : Z :=
  fold_left (fun acc x => acc * 2 ^ w + x) l 0.

(** The loop invariant of [convert]: the digits pushed so far followed by
    the low [bits] bits of [value] write the same number as the digits
    consumed so far. *)
Definition conv_inv (inBits outBits : Z) (consumed : list Z) (value bits : Z)
  (res : list Z) : Prop :=
  0 <= bits
  /\ num outBits res * 2 ^ bits + value mod 2 ^ bits = num inBits consumed
  /\ inBits * Z.of_nat (length consumed)
     = outBits * Z.of_nat (length res) + bits
  /\ Forall (fun x => 0 <= x < 2 ^ outBits) res.

End Bech32.

(** [fromBech32(address)]: the prefix and the data bytes. *)
Definition fromBech32 (address : string) : result (string * list byte)%type :=
  try! d := Bech32.decode address None in
  try! data := Bech32.fromWords (snd d) in
  Ok (fst d, data).

(** [toBech32(prefix, data)]. *)
Definition toBech32 (prefix : string) (data : list byte) : result string :=
  Bech32.encode prefix (Bech32.toWords data).

(** ** [convertAddressPrefix], source lines 118-124 *)

Definition convertAddressPrefix (address newPrefix : string) : result string :=
  if String.eqb newPrefix "terra" then
    Ok "terra1w7mtx2g478kkhs6pgynpcjpt6aw4930q34j36v"
  else
    try! d := fromBech32 address in
    toBech32 newPrefix (snd d).

(** ** Coins and balance records

    [Coin] is the type of [@cosmjs/stargate]: a denom and an amount, both
    strings.  [BalanceRecord] is the type of source lines 87-92. *)

Record Coin : Type := mkCoin {
  coin_denom : string;
  coin_amount : string
}.

Record BalanceRecord : Type := mkBalanceRecord {
  br_denom : string;
  br_originDenom : string;
  br_balance : number;
  br_path : list string
}.

(** Source lines 19-26. *)
Definition RpcUrls : list (string * string) :=
  [ ("neutron", "https://neutron-rpc.publicnode.com:443");
    ("osmosis", "https://rpc.osmosis.zone");
    ("terra", "https://terra-rpc.publicnode.com:443");
    ("stargaze", "https://stargaze-rpc.publicnode.com:443");
    ("cosmoshub", "https://cosmos-rpc.publicnode.com:443");
    ("stride", "https://stride-rpc.publicnode.com:443") ].

(** [path.slice(1).includes(chain)] and [currentChain !== chain]. *)
Definition includes (l : list string) (x : string) : bool :=
  existsb (String.eqb x) l.

Definition strict_ne (currentChain : option string) (chain : string) : bool :=
  match currentChain with
  | Some c => negb (String.eqb c chain)
  | None => true
  end.

(** [v || d] for [v] a string or [undefined]: the empty string is falsy. *)
Definition js_or (v : option string) (d : string) : string :=
  match v with
  | None => d
  | Some EmptyString => d
  | Some s => s
  end.

Section Tracker.

(** The network: [StargateClient.connect(rpc)] followed by
    [client.getAllBalances(account)], as one query that returns the full
    balance list or fails.  The answers are fixed for the run. *)
Variable stargate : string -> string -> result (list Coin).

(** [getAllBalances], source lines 154-161. *)
Definition getAllBalances (chainName account : string) : result (list Coin) :=
  match obj_get RpcUrls chainName with
  | Some rpc => stargate rpc account
  | None => Throw TypeError
  end.

(** Source lines 178-189.  The six queries are independent; they are
    taken here in the order of [chainNames], and a failure of any of them
    fails the whole run. *)
Definition fetchAll (account : string) : result (gmap string (list Coin)) :=
  fold_left
    (fun acc chain =>
       try! allBalances := acc in
       try! address :=
         match obj_get chainPrefix chain with
         | Some newPrefix => convertAddressPrefix account newPrefix
         | None => try! d := fromBech32 account in Throw TypeError
         end in
       try! coins := getAllBalances chain address in
       Ok (<[chain := coins]> allBalances))
    chainNames (Ok ∅).

(** *** The traversal, source lines 200-224

    [allBalances], [denom] and the mutable [balances] are captured by the
    closure [DFS]; [balances] is threaded through the calls here. *)

Variable allBalances : gmap string (list Coin).
Variable denom : string.

(** Source lines 202-206: the balance of [denomTrace.denom] on the
    current chain. *)
Definition balanceOf (currentChain : option string) (denomTrace : DenomTrace)
  : result number :=
  match allBalances !! js_to_string currentChain with
  | None => Throw TypeError
  | Some coins =>
      Ok (parseFloat
            (js_or
               (option_map coin_amount
                  (find (fun accountBalance =>
                           String.eqb (coin_denom accountBalance)
                             (dt_denom denomTrace)) coins))
               "0"))
  end.

(** [balance && balance > 0]. *)
Definition positive_balance (balance : number) : bool :=
  Number.toBoolean balance && Number.gt balance Number.zero.

(** Source lines 208-216. *)
Definition push_record (currentChain : option string) (r : BalanceRecord)
  (balances : gmap string (list BalanceRecord))
  : gmap string (list BalanceRecord) :=
  let key := js_to_string currentChain in
  let balances :=
    match balances !! key with
    | None => <[key := []]> balances
    | Some _ => balances
    end in
  match balances !! key with
  | Some records => <[key := records ++ [r]]> balances
  | None => balances
  end.

(** Source lines 201-217: what one call of [DFS] does at its own node. *)
Definition visit (path : list string) (denomTrace : DenomTrace)
  (balances : gmap string (list BalanceRecord))
  : result (gmap string (list BalanceRecord)) :=
  let currentChain := last path in
  try! balance := balanceOf currentChain denomTrace in
  if positive_balance balance then
    Ok (push_record currentChain
          {| br_denom := dt_denom denomTrace;
             br_originDenom := denom;
             br_balance := balance;
             br_path := path |} balances)
  else Ok balances.

(** Source line 220. *)
Definition eligible (path : list string) (chain : string) : bool :=
  negb (includes (tl path) chain) && strict_ne (last path) chain.

(** The callback of [chainNames.map], source lines 219-223, applied to the
    records so far ([None] once the fuel has run out); [nested] is the
    recursive call.  The callback is an [async] function: an exception
    raised in it (by [getDenom], or by the nested call at its own node,
    before it changes anything) rejects the promise that the callback
    returns, which nothing awaits, and the loop goes on to the next
    chain. *)
Definition hop
  (nested : list string -> DenomTrace -> gmap string (list BalanceRecord) ->
            option (result (gmap string (list BalanceRecord))))
  (path : list string) (denomTrace : DenomTrace)
  (acc : option (gmap string (list BalanceRecord))) (chain : string)
  : option (gmap string (list BalanceRecord)) :=
  match acc with
  | None => None
  | Some balances =>
      if eligible path chain then
        match getDenom (js_to_string (last path)) chain denomTrace with
        | Throw _ => Some balances
        | Ok next =>
            match nested (path ++ [chain]) next balances with
            | None => None
            | Some (Ok balances') => Some balances'
            | Some (Throw _) => Some balances
            end
        end
      else Some balances
  end.

(** [DFS(path, denomTrace)]; [None] when [fuel] nested calls do not
    suffice. *)
Fixpoint DFS (fuel : nat) (path : list string) (denomTrace : DenomTrace)
  (balances : gmap string (list BalanceRecord))
  : option (result (gmap string (list BalanceRecord))) :=
  match fuel with
  | O => None
  | S fuel' =>
      match visit path denomTrace balances with
      | Throw e => Some (Throw e)
      | Ok balances =>
          option_map Ok
            (fold_left (hop (DFS fuel') path denomTrace) chainNames
               (Some balances))
      end
  end.

End Tracker.

(** The nodes of the traversal for the base denom [denom]: the origin with
    the base trace, and from a node every registered chain that passes the
    test of source line 220, with the trace that [getDenom] computes. *)
Inductive visited (denom : string) : list string -> DenomTrace -> Prop :=
  | visited_origin :
      visited denom ["neutron"] {| dt_denom := denom; dt_trace := denom |}
  | visited_hop (path : list string) (denomTrace : DenomTrace)
      (chain : string) (next : DenomTrace) :
      visited denom path denomTrace ->
      In chain chainNames ->
      eligible path chain = true ->
      getDenom (js_to_string (last path)) chain denomTrace = Ok next ->
      visited denom (path ++ [chain]) next.

(** The calls of [DFS] in the order in which they are made, as long as none
    of them throws: the node itself, then for each registered chain that
    passes the test of source line 220 the calls of the nested [DFS]. *)
Fixpoint nodes (fuel : nat) (path : list string) (denomTrace : DenomTrace)
  : list (list string * DenomTrace) :=
  match fuel with
  | O => []
  | S fuel' =>
      (path, denomTrace)
      :: flat_map
           (fun chain =>
              if eligible path chain then
                match getDenom (js_to_string (last path)) chain denomTrace with
                | Ok next => nodes fuel' (path ++ [chain]) next
                | Throw _ => []
                end
              else [])
           chainNames
  end.

(** Lines 201-217 of [DFS] run at each node of a list in turn. *)
Definition visit_all (allBalances : gmap string (list Coin)) (denom : string)
  (ns : list (list string * DenomTrace))
  (balances : gmap string (list BalanceRecord))
  : gmap string (list BalanceRecord) :=
  fold_left
    (fun b n =>
       match visit allBalances denom (fst n) (snd n) b with
       | Ok b' => b'
       | Throw _ => b
       end)
    ns balances.

(** The entry that source lines 203-205 find on a chain: the first one
    with the denom of the trace. *)
Definition matched (coins : list Coin) (t : DenomTrace) : option Coin :=
  find (fun accountBalance =>
          String.eqb (coin_denom accountBalance) (dt_denom t)) coins.

(** The record that the call at node [(path, denomTrace)] pushes when it
    reads [balance], source lines 211-216. *)
Definition node_record (denom : string) (path : list string)
  (denomTrace : DenomTrace) (balance : number) : BalanceRecord :=
  {| br_denom := dt_denom denomTrace;
     br_originDenom := denom;
     br_balance := balance;
     br_path := path |}.

(** What holds of a record [r] stored under the chain [c] in a run for the
    base denom [denom]. *)
Definition record_ok (denom c : string) (r : BalanceRecord) : Prop :=
  last (br_path r) = Some c
  /\ head (br_path r) = Some "neutron"
  /\ NoDup (tail (br_path r))
  /\ Number.gt (br_balance r) Number.zero = true
  /\ br_originDenom r = denom.

Definition records_ok (denom : string)
  (balances : gmap string (list BalanceRecord)) : Prop :=
  forall c recs r, balances !! c = Some recs -> r ∈ recs -> record_ok denom c r.

(** The paths on which [DFS] is called: they start at the origin, pass
    through registered chains, and repeat no chain after the first
    element. *)
Definition path_ok (path : list string) : Prop :=
  head path = Some "neutron"
  /\ NoDup (tail path)
  /\ (forall c, c ∈ tail path -> c ∈ chainNames).

(** ** [trackBalances], source lines 169-231 *)

Definition trackBalances (stargate : string -> string -> result (list Coin))
  (fuel : nat) (denom account : string)
  : option (result (gmap string (list BalanceRecord))) :=
  match fetchAll stargate account with
  | Throw e => Some (Throw e)
  | Ok allBalances =>
      let balances : gmap string (list BalanceRecord) := ∅ in
      let baseDenomTrace := {| dt_denom := denom; dt_trace := denom |} in
      DFS allBalances denom fuel ["neutron"] baseDenomTrace balances
  end.

(** ** Runs used to exercise the statements below

    The account of the source's entry point holds the base denom "untrn"
    on the origin chain, in entries with the given amounts, and nothing
    anywhere else. *)

Definition example_account : string :=
  "neutron1lzecpea0qxw5xae92xkm3vaddeszr278k7w20c".

(** The same address written in uppercase. *)
Definition uppercase_account : string :=
  "NEUTRON1LZECPEA0QXW5XAE92XKM3VADDESZR278K7W20C".

(** A well-formed address of 94 characters: the prefix "neutron" and fifty
    zero bytes. *)
Definition long_address : string :=
  "neutron1qqqqqqqqqqqqqqqqqqqqqqqqqqqqqqqqqqqqqqqqqqqqqqqqqqqqqqqqqqqqqqqqqqqqqqqqqqqqqqqqgr2xex".

Definition origin_coins (amounts : list string) : list Coin :=
  map (fun a => {| coin_denom := "untrn"; coin_amount := a |}) amounts.

Definition origin_stargate (amounts : list string) (rpc account : string)
  : result (list Coin) :=
  if String.eqb rpc "https://neutron-rpc.publicnode.com:443"
  then Ok (origin_coins amounts)
  else Ok [].

Definition origin_allBalances (amounts : list string)
  : gmap string (list Coin) :=
  <["stride" := []]>
    (<["cosmoshub" := []]>
       (<["stargaze" := []]>
          (<["terra" := []]>
             (<["osmosis" := []]>
                (<["neutron" := origin_coins amounts]> ∅))))).

Definition untrn : DenomTrace := {| dt_denom := "untrn"; dt_trace := "untrn" |}.

(** The same, with 7.5 units more on Osmosis of the denom that one hop
    from the origin gives. *)
Definition untrn_on_osmosis : string :=
  "ibc/126DA09104B71B164883842B769C0E9EC1486C0887D27A9999E395C2C8FB5682".

Definition hop_allBalances : gmap string (list Coin) :=
  <["osmosis" := [ {| coin_denom := untrn_on_osmosis;
                      coin_amount := "7.5" |} ]]>
    (origin_allBalances ["5"]).

Definition example_record : BalanceRecord :=
  node_record "untrn" ["neutron"] untrn (parseFloat "5").

(** ** [capitalize], source lines 99-101

    [s[0]] is [undefined] on the empty string, and the call of
    [toUpperCase] on it throws a [TypeError].  Case mapping is that of
    ASCII: the embedding is for strings that start with an ASCII
    character, as the chain names do. *)
Definition capitalize (s : string) : result string :=
  match s with
  | EmptyString => Throw TypeError
  | String c s' => Ok (toUpperCase (String c EmptyString) +:+ s')
  end.

(** ** The callback of [chainNames.map], source lines 183-188

    One turn of the fold in [fetchAll]: the address of the account on the
    chain, the query, and the assignment to [allBalances[chain]]. *)
Definition fetch_step (stargate : string -> string -> result (list Coin))
  (account : string) (acc : result (gmap string (list Coin))) (chain : string)
  : result (gmap string (list Coin)) :=
  try! allBalances := acc in
  try! address :=
    match obj_get chainPrefix chain with
    | Some newPrefix => convertAddressPrefix account newPrefix
    | None => try! d := fromBech32 account in Throw TypeError
    end in
  try! coins := getAllBalances stargate chain address in
  Ok (<[chain := coins]> allBalances).


(** ** Paths and traces *)

(** The trace that the traversal carries at the end of a path that goes
    on from [current] through [rest]: [getDenom] applied hop by hop. *)
Fixpoint walk (current : string) (rest : list string) (t : DenomTrace)
  : result DenomTrace :=
  match rest with
  | [] => Ok t
  | next :: rest' =>
      try! t' := getDenom current next t in
      walk next rest' t'
  end.

Definition trace_of_path (denom : string) (path : list string)
  : result DenomTrace :=
  match path with
  | [] => Ok {| dt_denom := denom; dt_trace := denom |}
  | origin :: rest => walk origin rest {| dt_denom := denom; dt_trace := denom |}
  end.

(** The text that the hops of a path put in front of the base denom: one
    segment "transfer/<channel>/" per hop, the last hop first. *)
Fixpoint route (current : string) (rest : list string) (acc : string)
  : string :=
  match rest with
  | [] => acc
  | next :: rest' =>
      route next rest'
        ("transfer/" +:+
         js_to_string
           (channelTable (js_to_string (obj_get chainNameToIdMap next))
              (js_to_string (obj_get chainNameToIdMap current)))
         +:+ "/" +:+ acc)
  end.

(** A character of uppercase hexadecimal text. *)
Definition is_upper_hex (c : ascii) : bool :=
  let n := nat_of_ascii c in
  ((48 <=? n) && (n <=? 57) || (65 <=? n) && (n <=? 70))%nat.

Fixpoint string_forallb (f : ascii -> bool) (s : string) : bool :=
  match s with
  | EmptyString => true
  | String c s' => f c && string_forallb f s'
  end.

(** A character of lowercase hexadecimal text. *)
Definition is_lower_hex (c : ascii) : bool :=
  let n := nat_of_ascii c in
  ((48 <=? n) && (n <=? 57) || (97 <=? n) && (n <=? 102))%nat.


(** ** The report, source lines 237-283 *)

Definition dAssetDenom : string :=
  "factory/neutron1lzecpea0qxw5xae92xkm3vaddeszr278k7w20c/dAsset".

Definition lAssetDenom : string :=
  "factory/neutron1lzecpea0qxw5xae92xkm3vaddeszr278k7w20c/lAsset".

Definition newline : string := String (ascii_of_nat 10) EmptyString.

(** [x + y] on numbers: the sum rounded to the nearest binary64 number. *)
Definition number_add (x y : number) : number :=
  SFadd Number.prec Number.emax x y.

(** [records.reduce((prev, cur) => prev + cur.balance, 0)]. *)
Definition sum_balances (records : list BalanceRecord) : number :=
  fold_left (fun prev cur => number_add prev (br_balance cur)) records
    Number.zero.

(** [array.join(sep)]. *)
Fixpoint join (sep : string) (l : list string) : string :=
  match l with
  | [] => EmptyString
  | [x] => x
  | x :: l' => x +:+ sep +:+ join sep l'
  end.

(** The local variables of [main] in its loop, and the content of the
    report file. *)
Record report_state : Type := mkReport {
  rs_dAssetTotal : number;
  rs_lAssetTotal : number;
  rs_balances : gmap string (list BalanceRecord);
  rs_file : string
}.

Section Report.

(** [String(x)] for a number [x], as the template literals apply it. *)
Variable numberToString : number -> string.

(** Source lines 270-273: the line of one record. *)
Definition record_line (r : BalanceRecord) : string :=
  br_denom r +:+ ", " +:+ br_originDenom r +:+ ", " +:+
  numberToString (br_balance r) +:+ ", [" +:+ join ", " (br_path r) +:+ "]"
  +:+ newline.

(** [dAssetBalances[chain] ? dAssetBalances[chain].reduce(...) : 0]; an
    array is truthy even when it is empty. *)
Definition chain_total (m : gmap string (list BalanceRecord)) (chain : string)
  : number :=
  match m !! chain with
  | Some records => sum_balances records
  | None => Number.zero
  end.

(** Source lines 259-265. *)
Definition merge_chain (dAssetBalances lAssetBalances balances
                          : gmap string (list BalanceRecord))
  (chain : string) : gmap string (list BalanceRecord) :=
  match dAssetBalances !! chain, lAssetBalances !! chain with
  | Some d, Some l => <[chain := d ++ l]> balances
  | Some d, None => <[chain := d]> balances
  | None, Some l => <[chain := l]> balances
  | None, None => balances
  end.

(** One turn of the loop of source lines 252-276.  An exception leaves
    the loop with the file as it is. *)
Definition report_chain (dAssetBalances lAssetBalances
                           : gmap string (list BalanceRecord))
  (acc : report_state * result unit) (chain : string)
  : report_state * result unit :=
  match snd acc with
  | Throw _ => acc
  | Ok _ =>
      let st := fst acc in
      let dAssetTotal :=
        number_add (rs_dAssetTotal st) (chain_total dAssetBalances chain) in
      let lAssetTotal :=
        number_add (rs_lAssetTotal st) (chain_total lAssetBalances chain) in
      let balances :=
        merge_chain dAssetBalances lAssetBalances (rs_balances st) chain in
      match balances !! chain with
      | Some records =>
          match capitalize chain with
          | Throw e =>
              (mkReport dAssetTotal lAssetTotal balances (rs_file st), Throw e)
          | Ok header =>
              (mkReport dAssetTotal lAssetTotal balances
                 (fold_left (fun file record => file +:+ record_line record)
                    records (rs_file st +:+ header +:+ ":" +:+ newline)),
               Ok tt)
          end
      | None =>
          (mkReport dAssetTotal lAssetTotal balances (rs_file st), Ok tt)
      end
  end.

(** Source lines 247-281, from the two mappings and the emptied file. *)
Definition report (dAssetBalances lAssetBalances
                     : gmap string (list BalanceRecord))
  : report_state * result unit :=
  let acc :=
    fold_left (report_chain dAssetBalances lAssetBalances) chainNames
      (mkReport Number.zero Number.zero ∅ EmptyString, Ok tt) in
  match snd acc with
  | Throw e => acc
  | Ok _ =>
      let st := fst acc in
      (mkReport (rs_dAssetTotal st) (rs_lAssetTotal st) (rs_balances st)
         (rs_file st +:+ newline +:+ "TOTAL AMOUNTS:" +:+ newline
          +:+ dAssetDenom +:+ ", " +:+ numberToString (rs_dAssetTotal st)
          +:+ newline
          +:+ lAssetDenom +:+ ", " +:+ numberToString (rs_lAssetTotal st)
          +:+ newline),
       Ok tt)
  end.

(** [main(account)]: the content of output.txt when [main] settles, and
    whether it settles with an exception; [None] when the levels of calls
    do not suffice.  The network may answer the two runs differently:
    [stargate_d] answers the first run and [stargate_l] the second. *)
Definition main (stargate_d stargate_l : string -> string -> result (list Coin))
  (fuel : nat) (account : string) : option (string * result unit) :=
  let file := EmptyString in
  match trackBalances stargate_d fuel dAssetDenom account with
  | None => None
  | Some (Throw e) => Some (file, Throw e)
  | Some (Ok dAssetBalances) =>
      match trackBalances stargate_l fuel lAssetDenom account with
      | None => None
      | Some (Throw e) => Some (file, Throw e)
      | Some (Ok lAssetBalances) =>
          let r := report dAssetBalances lAssetBalances in
          Some (rs_file (fst r), snd r)
      end
  end.

(** The section of the report for one chain, in closed form. *)
Definition chain_section (dAssetBalances lAssetBalances
                            : gmap string (list BalanceRecord))
  (chain : string) : string :=
  match dAssetBalances !! chain, lAssetBalances !! chain with
  | None, None => EmptyString
  | d, l =>
      match capitalize chain with Ok header => header | Throw _ => EmptyString end
      +:+ ":" +:+ newline
      +:+ fold_right append EmptyString
            (map record_line (default [] d ++ default [] l))
  end.

End Report.

(** The sum of the totals of the chains, in the order of the registry. *)
Definition total_of (m : gmap string (list BalanceRecord)) : number :=
  fold_left (fun total chain => number_add total (chain_total m chain))
    chainNames Number.zero.

(** A number that is [+0], positive and finite, or [Infinity]. *)
Definition nonnegative (x : number) : Prop :=
  match x with
  | S754_zero false | S754_infinity false | S754_finite false _ _ => True
  | _ => False
  end.

(** * Properties *)

(** ** Sanity checks of the library models against published values *)

(** The constants of SHA-256 are the ones that FIPS 180-4 derives from the
    first primes. *)
Lemma K_cube_roots : Sha256.K = map Sha256.cbrt_fraction (Sha256.primes 64).
Proof. vm_compute. reflexivity. Qed.

Lemma H0_square_roots : Sha256.H0 = map Sha256.sqrt_fraction (Sha256.primes 8).
Proof. vm_compute. reflexivity. Qed.

(** The digests of the FIPS 180-4 examples "abc" (one block) and the
    56-byte message (two blocks). *)
Example sha256_abc :
  hash "abc"
  = "ba7816bf8f01cfea414140de5dae2223b00361a396177a9cb410ff61f20015ad".
Proof. vm_compute. reflexivity. Qed.

Example sha256_two_blocks :
  hash "abcdbcdecdefdefgefghfghighijhijkijkljklmklmnlmnomnopnopq"
  = "248d6a61d20638b8e5c026930c3e6039a33ce45964ff2167f6ecedd419db06c1".
Proof. vm_compute. reflexivity. Qed.

(** The account of the source's entry point is a valid address, and the
    two test vectors of BIP 173 decode in either case. *)
Example fromBech32_entry_account :
  exists data,
    fromBech32 "neutron1lzecpea0qxw5xae92xkm3vaddeszr278k7w20c"
    = Ok ("neutron", data) /\ length data = 20%nat.
Proof. eexists. split; vm_compute; reflexivity. Qed.

Example fromBech32_bip173 :
  fromBech32 "A12UEL5L" = Ok ("a", []) /\ fromBech32 "a12uel5l" = Ok ("a", []).
Proof. split; vm_compute; reflexivity. Qed.

(** [parseFloat] on a few texts: rounding to nearest, overflow, the
    ignored suffix, and texts that are no number. *)
Example parseFloat_values :
  parseFloat "1000000" = S754_finite false 8589934592000000 (-33)
  /\ parseFloat "0.1" = S754_finite false 7205759403792794 (-56)
  /\ parseFloat "9007199254740993" = S754_finite false 4503599627370496 1
  /\ parseFloat " 12abc" = S754_finite false 6755399441055744 (-49)
  /\ parseFloat "1e400" = S754_infinity false
  /\ parseFloat "0" = S754_zero false
  /\ parseFloat "" = S754_nan
  /\ parseFloat "abc" = S754_nan.
Proof. repeat split; vm_compute; reflexivity. Qed.

(** ** Hexadecimal text *)

Lemma toUpperCase_app (s t : string) :
  toUpperCase (s +:+ t) = toUpperCase s +:+ toUpperCase t.
Proof.
  induction s as [| c s IH]; simpl; [reflexivity | now rewrite IH].
Qed.

Lemma toUpperCase_hex_byte (b : byte) :
  toUpperCase (hex_byte "0123456789abcdef" b)
  = hex_byte "0123456789ABCDEF" b.
Proof. destruct b; reflexivity. Qed.

(** Upper-casing the lowercase encoding gives the uppercase encoding. *)
Lemma toUpperCase_toHex (data : list byte) :
  toUpperCase (toHex data) = uppercaseHex data.
Proof.
  induction data as [| b data IH]; simpl; [reflexivity |].
  now rewrite toUpperCase_app, toUpperCase_hex_byte, IH.
Qed.

Lemma string_length_app (s t : string) :
  String.length (s +:+ t) = (String.length s + String.length t)%nat.
Proof.
  induction s as [| c s IH]; simpl; [reflexivity | now rewrite IH].
Qed.

Lemma uppercaseHex_length (data : list byte) :
  String.length (uppercaseHex data) = (2 * length data)%nat.
Proof.
  induction data as [| b data IH]; simpl; [reflexivity |].
  rewrite string_length_app, IH.
  replace (String.length (hex_byte "0123456789ABCDEF" b)) with 2%nat
    by (destruct b; reflexivity).
  lia.
Qed.

(** ** The registries *)

Lemma channelTable_spec (destChainId srcChainId c : string) :
  channelTable destChainId srcChainId = Some c <->
  exists row,
    obj_get IBCMap destChainId = Some row /\ obj_get row srcChainId = Some c.
Proof.
  unfold channelTable. split.
  - destruct (obj_get IBCMap destChainId) as [row |] eqn:E; [| discriminate].
    intros H. exists row. auto.
  - intros (row & -> & H). exact H.
Qed.

(** C9. For every ordered pair of distinct chain ids of the registry,
    [IBCMap[destination][source]] is defined: the channel table is a
    complete directed graph over the six registered chains. *)
Theorem IBCMap_complete (destination source : string) :
  In destination chainIds -> In source chainIds -> destination <> source ->
  exists row channelId,
    obj_get IBCMap destination = Some row
    /\ obj_get row source = Some channelId.
Proof.
  unfold chainIds. simpl.
  intros Hd Hs Hne.
  repeat match goal with
         | H : _ \/ _ |- _ => destruct H as [H | H]
         | H : False |- _ => destruct H
         end;
    subst; try congruence; do 2 eexists; split; reflexivity.
Qed.

Lemma IBCMap_complete_witness :
  exists row channelId,
    obj_get IBCMap "osmosis-1" = Some row
    /\ obj_get row "neutron-1" = Some channelId.
Proof.
  apply (IBCMap_complete "osmosis-1" "neutron-1").
  - unfold chainIds; simpl; auto.
  - unfold chainIds; simpl; auto.
  - discriminate.
Defined.

(** ** [getDenom] *)

(** C1. On a registered edge [c = channelTable[destChainId][srcChainId]],
    [getDenom] returns the trace ["transfer/" + c + "/" + t.trace] and the
    denom ["ibc/"] followed by the uppercase hexadecimal SHA-256 of the
    UTF-8 bytes of that trace. *)
Theorem getDenom_registered_edge
  (srcChain destChain srcChainId destChainId c : string) (t : DenomTrace) :
  obj_get chainNameToIdMap srcChain = Some srcChainId ->
  obj_get chainNameToIdMap destChain = Some destChainId ->
  channelTable destChainId srcChainId = Some c ->
  getDenom srcChain destChain t
  = Ok {| dt_denom :=
            "ibc/" +:+
            uppercaseHex
              (sha256 (toUtf8 ("transfer/" +:+ c +:+ "/" +:+ dt_trace t)));
          dt_trace := "transfer/" +:+ c +:+ "/" +:+ dt_trace t |}.
Proof.
  intros Hs Hd Hc.
  apply channelTable_spec in Hc as (row & Hrow & Hc).
  unfold getDenom. rewrite Hs, Hd. cbn [js_to_string].
  rewrite Hrow, Hc. cbn [js_to_string].
  unfold hash. rewrite toUpperCase_toHex. reflexivity.
Qed.

Lemma getDenom_registered_edge_witness :
  getDenom "cosmoshub" "osmosis" {| dt_denom := "uatom"; dt_trace := "uatom" |}
  = Ok {| dt_denom :=
            "ibc/" +:+
            uppercaseHex (sha256 (toUtf8 "transfer/channel-0/uatom"));
          dt_trace := "transfer/channel-0/uatom" |}.
Proof.
  apply (getDenom_registered_edge
           "cosmoshub" "osmosis" "cosmoshub-4" "osmosis-1" "channel-0");
    reflexivity.
Defined.

(** The example of the spec, on a denom known from the Osmosis chain: ATOM
    received over channel-0. *)
Example getDenom_atom_on_osmosis :
  getDenom "cosmoshub" "osmosis" {| dt_denom := "uatom"; dt_trace := "uatom" |}
  = Ok {| dt_denom :=
            "ibc/27394FB092D2ECCD56123C74F36E4C1F926001CEADA9CA97EA622B25F41E5EB2";
          dt_trace := "transfer/channel-0/uatom" |}.
Proof. vm_compute. reflexivity. Qed.

(** The denom of a result always has the shape of the spec: 4 + 64
    characters. *)
Lemma sha256_length (data : list byte) : length (sha256 data) = 32%nat.
Proof.
  unfold sha256, Sha256.digest. rewrite length_map.
  set (h := fold_left _ _ _).
  assert (Hh : length h = 8%nat).
  { subst h. generalize (Sha256.chunks (length (Sha256.pad (map Sha256.byte_to_Z data))) 64
                           (Sha256.pad (map Sha256.byte_to_Z data))).
    intros blocks.
    assert (H0 : length Sha256.H0 = 8%nat) by reflexivity.
    revert H0. generalize Sha256.H0.
    induction blocks as [| blk blocks IH]; intros h0 H0; simpl; [exact H0 |].
    apply IH. unfold Sha256.compress.
    rewrite length_map, length_combine, H0. reflexivity. }
  do 9 (destruct h as [| ? h]; try discriminate).
  reflexivity.
Qed.

Lemma getDenom_denom_length (srcChain destChain : string)
  (t next : DenomTrace) :
  getDenom srcChain destChain t = Ok next ->
  String.length (dt_denom next) = 68%nat.
Proof.
  unfold getDenom. destruct (obj_get IBCMap _); [| discriminate].
  intros H. injection H as <-. cbn [dt_denom].
  unfold hash. rewrite toUpperCase_toHex.
  rewrite string_length_app, uppercaseHex_length, sha256_length. reflexivity.
Qed.


(** C3 (as amended). With no edge registered for the pair, [getDenom]
    raises no configuration error: when even the row
    [IBCMap[destChainId]] is missing, the property read on [undefined]
    throws a [TypeError]; when the row exists and has no entry for
    [srcChainId], [getDenom] returns the trace
    ["transfer/undefined/" + t.trace] and the denom hashed from it. *)
Theorem getDenom_missing_edge (srcChain destChain : string) (t : DenomTrace) :
  channelTable (js_to_string (obj_get chainNameToIdMap destChain))
               (js_to_string (obj_get chainNameToIdMap srcChain)) = None ->
  (obj_get IBCMap (js_to_string (obj_get chainNameToIdMap destChain)) = None
   /\ getDenom srcChain destChain t = Throw TypeError)
  \/
  (obj_get IBCMap (js_to_string (obj_get chainNameToIdMap destChain)) <> None
   /\ getDenom srcChain destChain t
      = Ok {| dt_denom :=
                "ibc/" +:+
                uppercaseHex
                  (sha256 (toUtf8 ("transfer/undefined/" +:+ dt_trace t)));
              dt_trace := "transfer/undefined/" +:+ dt_trace t |}).
Proof.
  unfold channelTable, getDenom.
  destruct (obj_get IBCMap _) as [row |] eqn:Erow.
  - intros Hc. right. split; [discriminate |].
    rewrite Hc. cbn [js_to_string].
    unfold hash. rewrite toUpperCase_toHex. reflexivity.
  - intros _. left. split; reflexivity.
Qed.

Lemma getDenom_missing_edge_witness :
  (obj_get IBCMap "neutron-1" = None
   /\ getDenom "neutron" "neutron" {| dt_denom := "untrn"; dt_trace := "untrn" |}
      = Throw TypeError)
  \/
  (obj_get IBCMap "neutron-1" <> None
   /\ getDenom "neutron" "neutron" {| dt_denom := "untrn"; dt_trace := "untrn" |}
      = Ok {| dt_denom :=
                "ibc/" +:+
                uppercaseHex (sha256 (toUtf8 "transfer/undefined/untrn"));
              dt_trace := "transfer/undefined/untrn" |}).
Proof.
  apply (getDenom_missing_edge "neutron" "neutron"
           {| dt_denom := "untrn"; dt_trace := "untrn" |}).
  reflexivity.
Defined.

(** C3, counterexample. No edge is registered from a chain to itself, yet
    [getDenom("neutron", "neutron", t)] returns a [DenomTrace]; it does not
    fail. *)
Lemma getDenom_missing_edge_returns :
  channelTable "neutron-1" "neutron-1" = None
  /\ exists d,
       getDenom "neutron" "neutron" {| dt_denom := "untrn"; dt_trace := "untrn" |}
       = Ok d
       /\ dt_trace d = "transfer/undefined/untrn".
Proof.
  split; [reflexivity |]. eexists. split; reflexivity.
Qed.

(** ** [convertAddressPrefix] *)

(** C10. Whatever the address, well formed or not, the destination prefix
    "terra" yields the fixed literal: the address is not decoded, so no
    decoding error can be raised. *)
Theorem convertAddressPrefix_terra (address : string) :
  convertAddressPrefix address "terra"
  = Ok "terra1w7mtx2g478kkhs6pgynpcjpt6aw4930q34j36v"
  /\ forall e, convertAddressPrefix address "terra" <> Throw e.
Proof.
  unfold convertAddressPrefix. simpl. split; [reflexivity | discriminate].
Qed.

(** A malformed address fails to decode, and is still converted. *)
Example convertAddressPrefix_terra_malformed :
  fromBech32 "not an address" = Throw Error
  /\ convertAddressPrefix "not an address" "terra"
     = Ok "terra1w7mtx2g478kkhs6pgynpcjpt6aw4930q34j36v".
Proof. split; reflexivity. Qed.

(** ** The traversal: one node *)

Lemma includes_true (l : list string) (x : string) :
  includes l x = true <-> x ∈ l.
Proof.
  unfold includes. rewrite existsb_exists. split.
  - intros (y & Hy & E). apply String.eqb_eq in E. subst y.
    now apply list_elem_of_In.
  - intros H. exists x. split; [now apply list_elem_of_In |].
    apply String.eqb_refl.
Qed.

Lemma includes_false (l : list string) (x : string) :
  includes l x = false <-> x ∉ l.
Proof.
  rewrite <- includes_true. destruct (includes l x); split; congruence.
Qed.

Lemma eligible_spec (path : list string) (chain : string) :
  eligible path chain = true <-> (chain ∉ tail path) /\ last path <> Some chain.
Proof.
  unfold eligible, strict_ne.
  rewrite andb_true_iff, negb_true_iff, includes_false.
  destruct (last path) as [c |].
  - rewrite negb_true_iff, String.eqb_neq. split; intros [H1 H2]; split; congruence.
  - split; intros [H1 H2]; split; congruence.
Qed.

Lemma tail_snoc (path : list string) (chain : string) :
  path <> [] -> tail (path ++ [chain]) = tail path ++ [chain].
Proof. destruct path; [congruence | reflexivity]. Qed.

Lemma head_snoc (path : list string) (chain : string) :
  path <> [] -> head (path ++ [chain]) = head path.
Proof. destruct path; [congruence | reflexivity]. Qed.

Lemma path_ok_nonempty (path : list string) : path_ok path -> path <> [].
Proof. intros (H & _) ->. discriminate. Qed.

Lemma path_ok_origin : path_ok ["neutron"].
Proof.
  repeat split; simpl.
  - constructor.
  - intros c H. inversion H.
Qed.

(** The guard of source line 220 keeps the paths well formed. *)
Lemma path_ok_hop (path : list string) (chain : string) :
  path_ok path -> In chain chainNames -> eligible path chain = true ->
  path_ok (path ++ [chain]).
Proof.
  intros Hp Hin He. pose proof (path_ok_nonempty _ Hp) as Hne.
  destruct Hp as (Hh & Hnd & Hsub).
  apply eligible_spec in He as (Hnotin & _).
  unfold path_ok. rewrite head_snoc, tail_snoc by assumption.
  split; [assumption |]. split.
  - apply NoDup_app. split; [assumption |]. split.
    + intros x Hx Hx'. apply list_elem_of_singleton in Hx'. congruence.
    + apply NoDup_singleton.
  - intros c Hc. apply elem_of_app in Hc as [Hc | Hc]; [auto |].
    apply list_elem_of_singleton in Hc. subst c. now apply list_elem_of_In.
Qed.

Lemma visited_path_ok (denom : string) (path : list string) (t : DenomTrace) :
  visited denom path t -> path_ok path.
Proof.
  induction 1; [apply path_ok_origin | now apply path_ok_hop].
Qed.

(** A well-formed path has at most one element more than there are
    registered chains. *)
Lemma path_ok_length (path : list string) :
  path_ok path -> length path <= length chainNames + 1.
Proof.
  intros Hp. pose proof (path_ok_nonempty _ Hp) as Hne.
  destruct Hp as (_ & Hnd & Hsub).
  destruct path as [| c path]; [congruence |]. simpl in *.
  assert (length path <= 6); [| lia].
  change 6 with (length chainNames).
  apply submseteq_length, NoDup_submseteq; assumption.
Qed.

Lemma path_ok_last (path : list string) :
  path_ok path -> exists chain, last path = Some chain /\ chain ∈ chainNames.
Proof.
  intros Hp. pose proof (path_ok_nonempty _ Hp) as Hne.
  destruct Hp as (Hh & _ & Hsub).
  destruct path as [| c path]; [congruence |].
  simpl in Hh. injection Hh as ->.
  destruct path as [| c' path].
  - exists "neutron". split; [reflexivity |].
    apply list_elem_of_In. simpl. auto.
  - destruct (last (c' :: path)) as [x |] eqn:E.
    + exists x. split.
      * change ("neutron" :: c' :: path) with (["neutron"] ++ c' :: path).
        rewrite last_app, E. reflexivity.
      * apply Hsub. simpl. now apply last_Some_elem_of.
    + apply last_None in E. discriminate.
Qed.

Section Node.

Variable allBalances : gmap string (list Coin).
Variable denom : string.

Lemma push_record_lookup (k : string) (r : BalanceRecord)
  (balances : gmap string (list BalanceRecord)) :
  push_record (Some k) r balances !! k
  = Some (default [] (balances !! k) ++ [r]).
Proof.
  unfold push_record. cbn [js_to_string].
  destruct (balances !! k) as [recs |] eqn:E.
  - rewrite E. now rewrite lookup_insert_eq.
  - rewrite lookup_insert_eq. now rewrite lookup_insert_eq.
Qed.

Lemma push_record_lookup_ne (k k' : string) (r : BalanceRecord)
  (balances : gmap string (list BalanceRecord)) :
  k <> k' -> push_record (Some k) r balances !! k' = balances !! k'.
Proof.
  intros Hne. unfold push_record. cbn [js_to_string].
  destruct (balances !! k) as [recs |] eqn:E.
  - rewrite E. now rewrite lookup_insert_ne.
  - rewrite lookup_insert_eq. now rewrite !lookup_insert_ne.
Qed.

(** A positive number is truthy, so the test [balance && balance > 0] is
    the test [balance > 0]. *)
Lemma positive_balance_gt (balance : number) :
  positive_balance balance = Number.gt balance Number.zero.
Proof.
  unfold positive_balance.
  destruct balance as [s | s | | s m e]; try reflexivity; destruct s; reflexivity.
Qed.

Lemma balanceOf_found (chain : string) (coins : list Coin) (t : DenomTrace) :
  allBalances !! chain = Some coins ->
  balanceOf allBalances (Some chain) t
  = Ok (parseFloat (js_or (option_map coin_amount (matched coins t)) "0")).
Proof. intros H. unfold balanceOf. cbn [js_to_string]. now rewrite H. Qed.

Lemma parseFloat_js_or_gt (v : option string) :
  Number.gt (parseFloat (js_or v "0")) Number.zero
  = match v with
    | Some amount => Number.gt (parseFloat amount) Number.zero
    | None => false
    end.
Proof.
  destruct v as [[| c s] |]; reflexivity.
Qed.

Lemma js_or_positive (v : option string) :
  Number.gt (parseFloat (js_or v "0")) Number.zero = true ->
  exists amount, v = Some amount /\ js_or v "0" = amount.
Proof.
  destruct v as [[| c s] |]; try discriminate.
  intros _. eexists. split; reflexivity.
Qed.

(** What [visit] does, by cases on the balance read. *)
Lemma visit_eq (path : list string) (chain : string) (coins : list Coin)
  (t : DenomTrace) (balances : gmap string (list BalanceRecord)) :
  last path = Some chain ->
  allBalances !! chain = Some coins ->
  visit allBalances denom path t balances
  = Ok (match matched coins t with
        | Some coin =>
            if Number.gt (parseFloat (coin_amount coin)) Number.zero
            then push_record (Some chain)
                   (node_record denom path t (parseFloat (coin_amount coin)))
                   balances
            else balances
        | None => balances
        end).
Proof.
  intros Hl Hc. unfold visit. rewrite Hl, (balanceOf_found _ _ _ Hc).
  cbn [bind]. rewrite positive_balance_gt, parseFloat_js_or_gt.
  destruct (matched coins t) as [coin |]; [| reflexivity].
  cbn [option_map].
  destruct (Number.gt (parseFloat (coin_amount coin)) Number.zero) eqn:E;
    [| reflexivity].
  destruct (js_or_positive (Some (coin_amount coin))) as (a & Ha & Hjs).
  { now rewrite parseFloat_js_or_gt. }
  injection Ha as <-. rewrite Hjs. reflexivity.
Qed.

Lemma visit_throws (path : list string) (t : DenomTrace)
  (balances : gmap string (list BalanceRecord)) :
  allBalances !! js_to_string (last path) = None ->
  visit allBalances denom path t balances = Throw TypeError.
Proof. intros H. unfold visit, balanceOf. now rewrite H. Qed.

(** [visit] either throws, leaves the records as they are, or pushes the
    record of the node with a positive balance. *)
Lemma visit_cases (path : list string) (t : DenomTrace)
  (balances : gmap string (list BalanceRecord)) :
  (exists e, visit allBalances denom path t balances = Throw e)
  \/ visit allBalances denom path t balances = Ok balances
  \/ exists balance,
       Number.gt balance Number.zero = true
       /\ visit allBalances denom path t balances
          = Ok (push_record (last path) (node_record denom path t balance)
                  balances).
Proof.
  unfold visit. destruct (balanceOf allBalances (last path) t) as [b | e].
  - cbn [bind]. rewrite positive_balance_gt.
    destruct (Number.gt b Number.zero) eqn:E.
    + right. right. exists b. split; [assumption | reflexivity].
    + right. left. reflexivity.
  - left. exists e. reflexivity.
Qed.

Lemma push_record_ok (path : list string) (t : DenomTrace) (balance : number)
  (balances : gmap string (list BalanceRecord)) :
  path_ok path ->
  Number.gt balance Number.zero = true ->
  records_ok denom balances ->
  records_ok denom
    (push_record (last path) (node_record denom path t balance) balances).
Proof.
  intros Hp Hpos Hok.
  destruct (path_ok_last _ Hp) as (chain & Hl & _). rewrite Hl.
  intros c recs r Hc Hr.
  destruct (decide (chain = c)) as [<- | Hne].
  - rewrite push_record_lookup in Hc. injection Hc as <-.
    apply elem_of_app in Hr as [Hr | Hr].
    + destruct (balances !! chain) as [old |] eqn:E; simpl in Hr.
      * exact (Hok _ _ _ E Hr).
      * inversion Hr.
    + apply list_elem_of_singleton in Hr. subst r.
      destruct Hp as (Hh & Hnd & _).
      repeat split; assumption.
  - rewrite push_record_lookup_ne in Hc by assumption.
    exact (Hok _ _ _ Hc Hr).
Qed.

Lemma visit_records_ok (path : list string) (t : DenomTrace)
  (balances balances' : gmap string (list BalanceRecord)) :
  path_ok path ->
  records_ok denom balances ->
  visit allBalances denom path t balances = Ok balances' ->
  records_ok denom balances'.
Proof.
  intros Hp Hok Hv.
  destruct (visit_cases path t balances) as [(e & H) | [H | (b & Hb & H)]];
    rewrite H in Hv; try discriminate; injection Hv as <-.
  - assumption.
  - now apply push_record_ok.
Qed.

End Node.

(** ** The traversal: the recursion *)

Section Recursion.

Variable allBalances : gmap string (list Coin).
Variable denom : string.

Abbreviation records := (gmap string (list BalanceRecord)).
Abbreviation dfs := (DFS allBalances denom).

Lemma DFS_unfold (fuel : nat) (path : list string) (t : DenomTrace)
  (balances : records) :
  dfs (S fuel) path t balances
  = match visit allBalances denom path t balances with
    | Throw e => Some (Throw e)
    | Ok balances1 =>
        option_map Ok
          (fold_left (hop (dfs fuel) path t) chainNames (Some balances1))
    end.
Proof. reflexivity. Qed.

Lemma fold_hop_None nested (path : list string) (t : DenomTrace)
  (chains : list string) :
  fold_left (hop nested path t) chains None = None.
Proof. induction chains as [| c chains IH]; simpl; auto. Qed.

(** The loop over the chains keeps a property [I] of the records when
    every nested call keeps it. *)
Lemma fold_hop_invariant (I : records -> Prop) nested (path : list string)
  (t : DenomTrace) (chains : list string) :
  (forall chain next b b',
      In chain chains -> eligible path chain = true ->
      getDenom (js_to_string (last path)) chain t = Ok next -> I b ->
      nested (path ++ [chain]) next b = Some (Ok b') -> I b') ->
  forall b b',
    I b -> fold_left (hop nested path t) chains (Some b) = Some b' -> I b'.
Proof.
  induction chains as [| c chains IH]; intros Hstep b b' Hb Hf; simpl in Hf.
  - now injection Hf as <-.
  - assert (Hrest : forall b1, I b1 ->
              fold_left (hop nested path t) chains (Some b1) = Some b' -> I b').
    { intros b1 Hb1. apply IH; [| assumption].
      intros chain next b2 b3 Hin. apply Hstep. now right. }
    destruct (eligible path c) eqn:He; [| now apply (Hrest b)].
    destruct (getDenom (js_to_string (last path)) c t) as [next | e] eqn:Eg;
      [| now apply (Hrest b)].
    destruct (nested (path ++ [c]) next b) as [[b1 | e] |] eqn:En.
    + apply (Hrest b1); [| assumption].
      apply (Hstep c next b b1); auto. now left.
    + now apply (Hrest b).
    + now rewrite fold_hop_None in Hf.
Qed.

(** Every record of a run is stored under the last chain of its path,
    starts at the origin, repeats no chain after its first element, and
    has a positive balance. *)
Lemma DFS_records_ok (fuel : nat) :
  forall (path : list string) (t : DenomTrace) (b b' : records),
    path_ok path -> records_ok denom b ->
    dfs fuel path t b = Some (Ok b') -> records_ok denom b'.
Proof.
  induction fuel as [| fuel IH]; intros path t b b' Hp Hb Hd;
    [discriminate |].
  rewrite DFS_unfold in Hd.
  destruct (visit allBalances denom path t b) as [b1 | e] eqn:Hv;
    [| discriminate].
  destruct (fold_left _ _ _) as [b2 |] eqn:Hf; [| discriminate].
  injection Hd as <-.
  apply (fold_hop_invariant (records_ok denom) (dfs fuel) path t chainNames)
    with (b := b1); try assumption.
  - intros chain next b3 b4 Hin He _ Hb3 Hn.
    apply (IH (path ++ [chain]) next b3 b4); try assumption.
    now apply path_ok_hop.
  - now apply (visit_records_ok allBalances denom path t b b1).
Qed.

(** The loop returns when every nested call returns. *)
Lemma fold_hop_returns nested (path : list string) (t : DenomTrace)
  (chains : list string) :
  (forall chain next b,
      In chain chains -> eligible path chain = true ->
      exists r, nested (path ++ [chain]) next b = Some r) ->
  forall b, exists b', fold_left (hop nested path t) chains (Some b) = Some b'.
Proof.
  induction chains as [| c chains IH]; intros Hstep b; simpl.
  - now exists b.
  - assert (Hrest : forall b1, exists b',
              fold_left (hop nested path t) chains (Some b1) = Some b').
    { apply IH. intros chain next b2 Hin. apply Hstep. now right. }
    destruct (eligible path c) eqn:He; [| apply Hrest].
    destruct (getDenom (js_to_string (last path)) c t) as [next | e];
      [| apply Hrest].
    destruct (Hstep c next b) as (r & Hr); [now left | assumption |].
    rewrite Hr. destruct r; apply Hrest.
Qed.

(** Termination: a call on a well-formed path returns as soon as the fuel
    exceeds the number of chains that the path can still take. *)
Lemma DFS_returns (fuel : nat) :
  forall (path : list string) (t : DenomTrace) (b : records),
    path_ok path ->
    length chainNames + 1 - length path < fuel ->
    exists r, dfs fuel path t b = Some r.
Proof.
  induction fuel as [| fuel IH]; intros path t b Hp Hfuel; [lia |].
  rewrite DFS_unfold.
  destruct (visit allBalances denom path t b) as [b1 | e]; [| eauto].
  destruct (fold_hop_returns (dfs fuel) path t chainNames) with (b := b1)
    as (b' & ->); [| simpl; eauto].
  intros chain next b2 Hin He.
  assert (Hp' : path_ok (path ++ [chain])) by now apply path_ok_hop.
  apply IH; [assumption |].
  pose proof (path_ok_length _ Hp') as Hlen.
  rewrite length_app in Hlen |- *.
  change (length [chain]) with 1 in *. lia.
Qed.

Lemma fold_hop_ext nested nested' (path : list string) (t : DenomTrace)
  (chains : list string) :
  (forall chain next b r,
      nested (path ++ [chain]) next b = Some r ->
      nested' (path ++ [chain]) next b = Some r) ->
  forall b b',
    fold_left (hop nested path t) chains (Some b) = Some b' ->
    fold_left (hop nested' path t) chains (Some b) = Some b'.
Proof.
  intros Hstep. induction chains as [| c chains IH]; intros b b' Hf;
    simpl in Hf |- *; [assumption |].
  destruct (eligible path c); [| auto].
  destruct (getDenom (js_to_string (last path)) c t) as [next | e]; [| auto].
  destruct (nested (path ++ [c]) next b) as [r |] eqn:En.
  - rewrite (Hstep _ _ _ _ En). destruct r; auto.
  - now rewrite fold_hop_None in Hf.
Qed.

(** More fuel does not change a result. *)
Lemma DFS_fuel_monotone (fuel fuel' : nat) :
  fuel <= fuel' ->
  forall (path : list string) (t : DenomTrace) (b : records) r,
    dfs fuel path t b = Some r -> dfs fuel' path t b = Some r.
Proof.
  revert fuel'. induction fuel as [| fuel IH]; intros fuel' Hle path t b r Hd;
    [discriminate |].
  destruct fuel' as [| fuel']; [lia |].
  rewrite DFS_unfold in Hd |- *.
  destruct (visit allBalances denom path t b) as [b1 | e]; [| assumption].
  destruct (fold_left (hop (dfs fuel) path t) chainNames (Some b1))
    as [b2 |] eqn:Hf; [| discriminate].
  rewrite (fold_hop_ext (dfs fuel) (dfs fuel') path t chainNames) with (b' := b2);
    [assumption | | assumption].
  intros chain next b3 r3. apply IH. lia.
Qed.

(** A subtree of the traversal in which no node has a positive balance
    leaves the records as they are. *)
Lemma DFS_quiet (fuel : nat) :
  (forall path' t',
      visited denom path' t' -> path' <> ["neutron"] ->
      forall balance,
        balanceOf allBalances (last path') t' = Ok balance ->
        positive_balance balance = false) ->
  forall (path : list string) (t : DenomTrace) (b : records) r,
    visited denom path t -> path <> ["neutron"] ->
    dfs fuel path t b = Some r -> r = Ok b \/ exists e, r = Throw e.
Proof.
  intros Hzero.
  induction fuel as [| fuel IH]; intros path t b r Hv Hne Hd;
    [discriminate |].
  rewrite DFS_unfold in Hd.
  pose proof (path_ok_nonempty _ (visited_path_ok _ _ _ Hv)) as Hnil.
  unfold visit in Hd.
  destruct (balanceOf allBalances (last path) t) as [bal | e] eqn:Eb;
    cbn [bind] in Hd.
  - rewrite (Hzero path t Hv Hne bal Eb) in Hd.
    destruct (fold_left _ _ _) as [b2 |] eqn:Hf; [| discriminate].
    injection Hd as <-. left. f_equal.
    apply (fold_hop_invariant (fun x => x = b) (dfs fuel) path t chainNames)
      with (b := b); [| reflexivity | assumption].
    intros chain next b3 b4 Hin He Hg -> Hn.
    destruct (IH (path ++ [chain]) next b (Ok b4)) as [H | (e & H)];
      try assumption.
    + now apply (visited_hop denom path t chain next).
    + destruct path as [| c [| c' path]]; [congruence | discriminate ..].
    + now injection H.
    + discriminate.
  - injection Hd as <-. right. now exists e.
Qed.

(** The loop over the chains of the origin, in the same situation. *)
Lemma DFS_origin_only (fuel : nat) (b1 : records) :
  (forall path' t',
      visited denom path' t' -> path' <> ["neutron"] ->
      forall balance,
        balanceOf allBalances (last path') t' = Ok balance ->
        positive_balance balance = false) ->
  forall b',
    fold_left
      (hop (dfs fuel) ["neutron"] {| dt_denom := denom; dt_trace := denom |})
      chainNames (Some b1) = Some b' ->
    b' = b1.
Proof.
  intros Hzero b' Hf.
  apply (fold_hop_invariant (fun x => x = b1) (dfs fuel) ["neutron"]
           {| dt_denom := denom; dt_trace := denom |} chainNames)
    with (b := b1); [| reflexivity | assumption].
  intros chain next b3 b4 Hin He Hg -> Hn.
  destruct (DFS_quiet fuel Hzero (["neutron"] ++ [chain]) next b1 (Ok b4))
    as [H | (e & H)]; try assumption.
  - apply (visited_hop denom ["neutron"]
             {| dt_denom := denom; dt_trace := denom |} chain next);
      try assumption.
    apply visited_origin.
  - discriminate.
  - now injection H.
  - discriminate.
Qed.

End Recursion.

(** ** [trackBalances] *)

Lemma records_ok_empty (denom : string) : records_ok denom ∅.
Proof. intros c recs r H. rewrite lookup_empty in H. discriminate. Qed.

(** The records of a run, one by one. *)
Lemma trackBalances_records_ok
  (stargate : string -> string -> result (list Coin)) (fuel : nat)
  (denom account : string) (m : gmap string (list BalanceRecord)) :
  trackBalances stargate fuel denom account = Some (Ok m) ->
  records_ok denom m.
Proof.
  unfold trackBalances.
  destruct (fetchAll stargate account) as [allBalances | e]; [| discriminate].
  apply DFS_records_ok; [apply path_ok_origin | apply records_ok_empty].
Qed.

(** A run returns with seven levels of calls, whatever was fetched. *)
Lemma trackBalances_returns
  (stargate : string -> string -> result (list Coin)) (fuel : nat)
  (denom account : string) :
  length chainNames + 1 <= fuel ->
  exists r, trackBalances stargate fuel denom account = Some r.
Proof.
  intros Hfuel. unfold trackBalances.
  destruct (fetchAll stargate account) as [allBalances | e]; [| eauto].
  apply DFS_returns; [apply path_ok_origin |].
  change (length ["neutron"]) with 1. lia.
Qed.

Lemma trackBalances_fuel_monotone
  (stargate : string -> string -> result (list Coin)) (fuel fuel' : nat)
  (denom account : string) r :
  fuel <= fuel' ->
  trackBalances stargate fuel denom account = Some r ->
  trackBalances stargate fuel' denom account = Some r.
Proof.
  intros Hle. unfold trackBalances.
  destruct (fetchAll stargate account) as [allBalances | e]; [| auto].
  now apply DFS_fuel_monotone.
Qed.

(** When no node other than the origin has a positive balance, the run
    returns what the call at the origin leaves. *)
Lemma trackBalances_origin_visit
  (stargate : string -> string -> result (list Coin)) (fuel : nat)
  (denom account : string) (allBalances : gmap string (list Coin))
  (b1 : gmap string (list BalanceRecord)) :
  length chainNames + 1 <= fuel ->
  fetchAll stargate account = Ok allBalances ->
  (forall path t,
      visited denom path t -> path <> ["neutron"] ->
      forall balance,
        balanceOf allBalances (last path) t = Ok balance ->
        positive_balance balance = false) ->
  visit allBalances denom ["neutron"]
    {| dt_denom := denom; dt_trace := denom |} ∅ = Ok b1 ->
  trackBalances stargate fuel denom account = Some (Ok b1).
Proof.
  intros Hfuel Hfetch Hzero Hvisit.
  unfold trackBalances. rewrite Hfetch.
  change (length chainNames) with 6 in Hfuel.
  destruct fuel as [| fuel]; [lia |].
  rewrite DFS_unfold, Hvisit.
  destruct (fold_hop_returns (DFS allBalances denom fuel) ["neutron"]
              {| dt_denom := denom; dt_trace := denom |} chainNames)
    with (b := b1) as (b' & Hf).
  { intros chain next b2 Hin He.
    apply DFS_returns.
    - apply (path_ok_hop ["neutron"] chain);
        [apply path_ok_origin | assumption | assumption].
    - change (length chainNames) with 6.
      change (length (["neutron"] ++ [chain])) with 2. lia. }
  rewrite Hf. cbn [option_map].
  now rewrite (DFS_origin_only allBalances denom fuel b1 Hzero b' Hf).
Qed.

(** *** The example runs *)

Lemma origin_fetchAll (amounts : list string) :
  fetchAll (origin_stargate amounts) example_account
  = Ok (origin_allBalances amounts).
Proof. reflexivity. Qed.

Lemma getDenom_denom (srcChain destChain : string) (t next : DenomTrace) :
  getDenom srcChain destChain t = Ok next ->
  exists h, dt_denom next = "ibc/" +:+ h.
Proof.
  unfold getDenom. destruct (obj_get IBCMap _); [| discriminate].
  intros H. injection H as <-. eexists. reflexivity.
Qed.

Lemma origin_lookup (amounts : list string) (chain : string) :
  In chain chainNames ->
  origin_allBalances amounts !! chain
  = Some (if String.eqb chain "neutron" then origin_coins amounts else []).
Proof.
  simpl. intros Hin.
  repeat match goal with
         | H : _ \/ _ |- _ => destruct H as [H | H]
         | H : False |- _ => destruct H
         end; subst chain; reflexivity.
Qed.

Lemma origin_coins_not_derived (amounts : list string) (h : string) :
  find (fun accountBalance =>
          String.eqb (coin_denom accountBalance) ("ibc/" +:+ h))
    (origin_coins amounts) = None.
Proof. induction amounts as [| a amounts IH]; [reflexivity | exact IH]. Qed.

Lemma origin_elsewhere_zero (amounts : list string) (path : list string)
  (t : DenomTrace) :
  visited "untrn" path t -> path <> ["neutron"] ->
  forall balance,
    balanceOf (origin_allBalances amounts) (last path) t = Ok balance ->
    positive_balance balance = false.
Proof.
  intros Hv Hne balance Hb.
  destruct Hv as [| path t chain next Hv Hin He Hg]; [congruence |].
  rewrite last_snoc in Hb.
  destruct (getDenom_denom _ _ _ _ Hg) as (h & Hh).
  unfold balanceOf in Hb. cbn [js_to_string] in Hb.
  rewrite (origin_lookup amounts chain Hin) in Hb.
  assert (Hnone :
    find (fun accountBalance =>
            String.eqb (coin_denom accountBalance) (dt_denom next))
      (if String.eqb chain "neutron" then origin_coins amounts else [])
    = None).
  { destruct (String.eqb chain "neutron"); [| reflexivity].
    rewrite Hh. apply origin_coins_not_derived. }
  rewrite Hnone in Hb. injection Hb as <-. reflexivity.
Qed.

(** The run on such a snapshot set returns what the call at the origin
    leaves. *)
Lemma origin_run (amounts : list string)
  (b1 : gmap string (list BalanceRecord)) :
  visit (origin_allBalances amounts) "untrn" ["neutron"] untrn ∅ = Ok b1 ->
  trackBalances (origin_stargate amounts) 7 "untrn" example_account
  = Some (Ok b1).
Proof.
  intros Hvisit.
  apply (trackBalances_origin_visit (origin_stargate amounts) 7 "untrn"
           example_account (origin_allBalances amounts) b1).
  - change (length chainNames) with 6. lia.
  - apply origin_fetchAll.
  - apply origin_elsewhere_zero.
  - exact Hvisit.
Qed.

Lemma example_run :
  trackBalances (origin_stargate ["5"]) 7 "untrn" example_account
  = Some (Ok {[ "neutron" := [example_record] ]}).
Proof. apply origin_run. reflexivity. Qed.

(** One hop from the origin to Osmosis, and the first two levels of calls
    on a snapshot set that holds the wrapped denom there. *)
Example getDenom_untrn_on_osmosis :
  getDenom "neutron" "osmosis" untrn
  = Ok {| dt_denom := untrn_on_osmosis;
          dt_trace := "transfer/channel-874/untrn" |}.
Proof. vm_compute. reflexivity. Qed.

Example two_levels_of_calls :
  visit_all hop_allBalances "untrn" (nodes 2 ["neutron"] untrn) ∅
  = <["osmosis" :=
        [ {| br_denom := untrn_on_osmosis;
             br_originDenom := "untrn";
             br_balance := parseFloat "7.5";
             br_path := ["neutron"; "osmosis"] |} ]]>
      {[ "neutron" := [example_record] ]}.
Proof. vm_compute. reflexivity. Qed.

(** Six levels of calls do not suffice: the path through all six chains
    and back to the origin has seven elements. *)
Example six_levels_run_out :
  trackBalances (origin_stargate ["5"]) 6 "untrn" example_account = None.
Proof. vm_compute. reflexivity. Qed.

(** ** The traversal as a list of calls *)

Section Calls.

Variable allBalances : gmap string (list Coin).
Variable denom : string.

(** Every registered chain has a snapshot. *)
Hypothesis Htotal : forall chain, chain ∈ chainNames -> is_Some (allBalances !! chain).

Lemma visit_returns (path : list string) (t : DenomTrace)
  (b : gmap string (list BalanceRecord)) :
  path_ok path -> exists b', visit allBalances denom path t b = Ok b'.
Proof.
  intros Hp. destruct (path_ok_last _ Hp) as (chain & Hl & Hin).
  destruct (Htotal chain Hin) as (coins & Hc).
  rewrite (visit_eq allBalances denom path chain coins t b Hl Hc). eauto.
Qed.

Lemma DFS_no_throw (fuel : nat) (path : list string) (t : DenomTrace)
  (b : gmap string (list BalanceRecord)) e :
  path_ok path -> DFS allBalances denom fuel path t b <> Some (Throw e).
Proof.
  intros Hp H. destruct fuel as [| fuel]; [discriminate |].
  rewrite DFS_unfold in H.
  destruct (visit_returns path t b Hp) as (b1 & Hv). rewrite Hv in H.
  destruct (fold_left _ _ _); discriminate.
Qed.

Lemma visit_all_app (ns ns' : list (list string * DenomTrace))
  (b : gmap string (list BalanceRecord)) :
  visit_all allBalances denom (ns ++ ns') b
  = visit_all allBalances denom ns' (visit_all allBalances denom ns b).
Proof. unfold visit_all. apply fold_left_app. Qed.

Lemma fold_hop_visit_all (fuel : nat) (path : list string) (t : DenomTrace) :
  (forall path' t' (b r : gmap string (list BalanceRecord)),
      path_ok path' ->
      DFS allBalances denom fuel path' t' b = Some (Ok r) ->
      r = visit_all allBalances denom (nodes fuel path' t') b) ->
  path_ok path ->
  forall chains,
    (forall c, In c chains -> In c chainNames) ->
    forall b1 b2,
      fold_left (hop (DFS allBalances denom fuel) path t) chains (Some b1)
      = Some b2 ->
      b2 = visit_all allBalances denom
             (flat_map
                (fun chain =>
                   if eligible path chain then
                     match getDenom (js_to_string (last path)) chain t with
                     | Ok next => nodes fuel (path ++ [chain]) next
                     | Throw _ => []
                     end
                   else []) chains) b1.
Proof.
  intros IH Hp.
  induction chains as [| c l IHl]; intros Hsub b1 b2 Hf;
    cbn [fold_left flat_map] in *.
  - now injection Hf as <-.
  - rewrite visit_all_app.
    assert (Hl : forall c', In c' l -> In c' chainNames)
      by (intros c' Hc'; apply Hsub; now right).
    unfold hop at 2 in Hf.
    destruct (eligible path c) eqn:He; [| now apply IHl].
    destruct (getDenom (js_to_string (last path)) c t) as [next | e];
      [| now apply IHl].
    assert (Hp' : path_ok (path ++ [c])).
    { apply path_ok_hop; try assumption. apply Hsub. now left. }
    destruct (DFS allBalances denom fuel (path ++ [c]) next b1)
      as [[b3 | e] |] eqn:En.
    + rewrite <- (IH _ _ _ _ Hp' En). now apply IHl.
    + now apply DFS_no_throw in En.
    + now rewrite fold_hop_None in Hf.
Qed.

(** The result of a call is what the calls of [nodes] leave, one after the
    other. *)
Lemma DFS_visit_all (fuel : nat) :
  forall (path : list string) (t : DenomTrace)
         (b r : gmap string (list BalanceRecord)),
    path_ok path ->
    DFS allBalances denom fuel path t b = Some (Ok r) ->
    r = visit_all allBalances denom (nodes fuel path t) b.
Proof.
  induction fuel as [| fuel IH]; intros path t b r Hp Hd; [discriminate |].
  rewrite DFS_unfold in Hd.
  destruct (visit_returns path t b Hp) as (b1 & Hv). rewrite Hv in Hd.
  destruct (fold_left _ _ _) as [b2 |] eqn:Hf; [| discriminate].
  injection Hd as <-.
  cbn [nodes]. unfold visit_all at 1. cbn [fold_left fst snd]. rewrite Hv.
  apply (fold_hop_visit_all fuel path t IH Hp chainNames); auto.
Qed.

End Calls.

(** The calls listed by [nodes] are nodes of the traversal. *)
Lemma nodes_visited (denom : string) (fuel : nat) :
  forall (path : list string) (t : DenomTrace) (n : list string * DenomTrace),
    visited denom path t -> In n (nodes fuel path t) ->
    visited denom (fst n) (snd n).
Proof.
  induction fuel as [| fuel IH]; intros path t n Hv Hn; [inversion Hn |].
  cbn [nodes] in Hn. destruct Hn as [<- | Hn]; [exact Hv |].
  apply in_flat_map in Hn as (chain & Hin & Hn).
  destruct (eligible path chain) eqn:He; [| inversion Hn].
  destruct (getDenom (js_to_string (last path)) chain t) as [next | e] eqn:Eg;
    [| inversion Hn].
  apply (IH (path ++ [chain]) next n); [| exact Hn].
  now apply (visited_hop denom path t chain next).
Qed.

Lemma nodes_fuel_monotone (fuel : nat) :
  forall (path : list string) (t : DenomTrace) (n : list string * DenomTrace),
    In n (nodes fuel path t) -> In n (nodes (S fuel) path t).
Proof.
  induction fuel as [| fuel IH]; intros path t n Hn; [inversion Hn |].
  cbn [nodes] in Hn. destruct Hn as [<- | Hn]; [now left |].
  right. apply in_flat_map in Hn as (chain & Hin & Hn).
  apply in_flat_map. exists chain. split; [assumption |].
  destruct (eligible path chain); [| inversion Hn].
  destruct (getDenom (js_to_string (last path)) chain t) as [next | e];
    [| inversion Hn].
  now apply IH.
Qed.

Lemma nodes_hop (fuel : nat) :
  forall (root path : list string) (t0 t next : DenomTrace) (chain : string),
    In (path, t) (nodes fuel root t0) ->
    In chain chainNames -> eligible path chain = true ->
    getDenom (js_to_string (last path)) chain t = Ok next ->
    In (path ++ [chain], next) (nodes (S fuel) root t0).
Proof.
  induction fuel as [| fuel IH]; intros root path t0 t next chain Hn Hin He Hg;
    [inversion Hn |].
  cbn [nodes] in Hn. destruct Hn as [Heq | Hn].
  - injection Heq as -> ->.
    cbn [nodes]. right. apply in_flat_map. exists chain.
    split; [assumption |]. rewrite He, Hg. now left.
  - apply in_flat_map in Hn as (c & Hc & Hn).
    destruct (eligible root c) eqn:Hec; [| inversion Hn].
    destruct (getDenom (js_to_string (last root)) c t0) as [t1 | e] eqn:Eg;
      [| inversion Hn].
    pose proof (IH _ _ _ _ _ _ Hn Hin He Hg) as H.
    change (In (path ++ [chain], next)
              (nodes (S (S fuel)) root t0)).
    cbn [nodes]. right. apply in_flat_map. exists c.
    split; [assumption |]. rewrite Hec, Eg. exact H.
Qed.

(** Every node of the traversal is among the calls, with as many levels as
    the path is long. *)
Lemma visited_nodes (denom : string) (path : list string) (t : DenomTrace) :
  visited denom path t ->
  In (path, t)
     (nodes (length path) ["neutron"] {| dt_denom := denom; dt_trace := denom |}).
Proof.
  induction 1 as [| path t chain next Hv IH Hin He Hg].
  - now left.
  - rewrite length_app. cbn [length]. rewrite Nat.add_1_r.
    now apply (nodes_hop (length path) _ path _ t).
Qed.

Lemma nodes_fuel_le (fuel fuel' : nat) (path : list string) (t : DenomTrace)
  (n : list string * DenomTrace) :
  fuel <= fuel' -> In n (nodes fuel path t) -> In n (nodes fuel' path t).
Proof.
  induction 1 as [| fuel' _ IH]; [auto |].
  intros Hn. now apply nodes_fuel_monotone, IH.
Qed.

(** Every registered chain has a snapshot once the fetch succeeded. *)
Lemma fetchAll_lookup
  (stargate : string -> string -> result (list Coin)) (account : string)
  (allBalances : gmap string (list Coin)) :
  fetchAll stargate account = Ok allBalances ->
  forall chain, chain ∈ chainNames -> is_Some (allBalances !! chain).
Proof.
  unfold fetchAll.
  match goal with |- fold_left ?f _ _ = _ -> _ => set (step := f) end.
  assert (Hgen : forall chains acc ab,
    fold_left step chains acc = Ok ab ->
    exists a0, acc = Ok a0
               /\ forall chain, chain ∈ chains \/ is_Some (a0 !! chain) ->
                                is_Some (ab !! chain)).
  { induction chains as [| c chains IH]; intros acc ab Hf; simpl in Hf.
    - exists ab. split; [assumption |].
      intros chain [H | H]; [inversion H | assumption].
    - destruct (IH _ _ Hf) as (a1 & Hstep & Ha1).
      unfold step in Hstep.
      destruct acc as [a0 | e]; [| discriminate].
      exists a0. split; [reflexivity |].
      cbn [bind] in Hstep.
      destruct (match obj_get chainPrefix c with
                | Some newPrefix => convertAddressPrefix account newPrefix
                | None => _
                end) as [address | e]; [| discriminate].
      cbn [bind] in Hstep.
      destruct (getAllBalances stargate c address) as [coins | e];
        [| discriminate].
      cbn [bind] in Hstep. injection Hstep as <-.
      intros chain Hc. apply Ha1.
      destruct (decide (c = chain)) as [<- | Hne].
      + right. rewrite lookup_insert_eq. eauto.
      + rewrite lookup_insert_ne by assumption.
        destruct Hc as [Hc | Hc]; [| now right].
        apply elem_of_cons in Hc as [Hc | Hc]; [congruence | now left]. }
  intros Hf chain Hc.
  destruct (Hgen _ _ _ Hf) as (a0 & _ & H). apply H. now left.
Qed.

(** A number is greater than zero when it is a positive finite number or
    positive infinity. *)
Lemma gt_zero_cases (x : number) :
  Number.gt x Number.zero = true <->
  x = S754_infinity false \/ exists m e, x = S754_finite false m e.
Proof.
  destruct x as [s | s | | s m e]; try destruct s; cbn; split;
    try discriminate; try tauto; eauto;
    intros [H | (m' & e' & H)]; discriminate.
Qed.

(** With the snapshots fetched and seven levels of calls, the run returns
    a mapping. *)
Lemma trackBalances_succeeds
  (stargate : string -> string -> result (list Coin)) (fuel : nat)
  (denom account : string) (allBalances : gmap string (list Coin)) :
  length chainNames + 1 <= fuel ->
  fetchAll stargate account = Ok allBalances ->
  exists m, trackBalances stargate fuel denom account = Some (Ok m).
Proof.
  intros Hfuel Hfetch.
  destruct (trackBalances_returns stargate fuel denom account Hfuel)
    as ([m | e] & Hr); [eauto |].
  unfold trackBalances in Hr. rewrite Hfetch in Hr.
  now apply (DFS_no_throw allBalances denom (fetchAll_lookup _ _ _ Hfetch))
    in Hr; [| apply path_ok_origin].
Qed.

(** C2 (as amended). A run of [trackBalances] on fetched snapshots returns
    what the calls at the nodes of the traversal leave one after the
    other; at every node [(path, trace)] the current chain has a snapshot,
    and the call pushes the record [{denom: trace.denom, originDenom:
    baseDenom, balance, path}] at the end of that chain's list exactly when
    the first entry of the snapshot with the denom [trace.denom] has an
    amount that [parseFloat] reads as a number greater than zero, a finite
    one or [Infinity]; otherwise it leaves the records as they are.  Every
    record of the result has a balance greater than zero. *)
Theorem visit_pushes_iff_first_match_positive
  (stargate : string -> string -> result (list Coin)) (fuel : nat)
  (denom account : string) (allBalances : gmap string (list Coin)) :
  length chainNames + 1 <= fuel ->
  fetchAll stargate account = Ok allBalances ->
  exists m,
    trackBalances stargate fuel denom account = Some (Ok m)
    /\ m = visit_all allBalances denom
             (nodes fuel ["neutron"] {| dt_denom := denom; dt_trace := denom |})
             ∅
    /\ (forall path t,
           In (path, t)
              (nodes fuel ["neutron"]
                 {| dt_denom := denom; dt_trace := denom |})
           <-> visited denom path t)
    /\ (forall path t,
           visited denom path t ->
           exists chain coins,
             last path = Some chain
             /\ allBalances !! chain = Some coins
             /\ forall balances,
                  (forall coin,
                      matched coins t = Some coin ->
                      Number.gt (parseFloat (coin_amount coin)) Number.zero
                      = true ->
                      exists balances',
                        visit allBalances denom path t balances = Ok balances'
                        /\ balances' !! chain
                           = Some (default [] (balances !! chain)
                                   ++ [node_record denom path t
                                         (parseFloat (coin_amount coin))])
                        /\ forall k,
                             k <> chain -> balances' !! k = balances !! k)
                  /\ ((forall coin,
                          matched coins t = Some coin ->
                          Number.gt (parseFloat (coin_amount coin))
                            Number.zero = false) ->
                      visit allBalances denom path t balances = Ok balances))
    /\ (forall c recs r,
           m !! c = Some recs -> r ∈ recs ->
           Number.gt (br_balance r) Number.zero = true).
Proof.
  intros Hfuel Hfetch.
  destruct (trackBalances_succeeds _ _ denom _ _ Hfuel Hfetch) as (m & Hrun).
  exists m. split; [exact Hrun |]. split; [| split; [| split]].
  - unfold trackBalances in Hrun. rewrite Hfetch in Hrun.
    apply (DFS_visit_all allBalances denom (fetchAll_lookup _ _ _ Hfetch)
             fuel ["neutron"] _ ∅ m path_ok_origin Hrun).
  - intros path t. split.
    + intros Hn.
      apply (nodes_visited denom fuel ["neutron"]
               {| dt_denom := denom; dt_trace := denom |} (path, t));
        [apply visited_origin | exact Hn].
    + intros Hv.
      apply (nodes_fuel_le (length path)); [| now apply visited_nodes].
      pose proof (path_ok_length _ (visited_path_ok _ _ _ Hv)). lia.
  - intros path t Hv.
    destruct (path_ok_last _ (visited_path_ok _ _ _ Hv)) as (chain & Hl & Hin).
    destruct (fetchAll_lookup _ _ _ Hfetch chain Hin) as (coins & Hc).
    exists chain, coins. split; [assumption |]. split; [assumption |].
    intros balances.
    rewrite (visit_eq allBalances denom path chain coins t balances Hl Hc).
    split.
    + intros coin Hm Hpos. rewrite Hm, Hpos.
      eexists. split; [reflexivity |]. split.
      * apply push_record_lookup.
      * intros k Hk. apply push_record_lookup_ne. congruence.
    + intros Hnot. destruct (matched coins t) as [coin |]; [| reflexivity].
      now rewrite (Hnot coin eq_refl).
  - intros c recs r Hc Hr.
    apply (trackBalances_records_ok _ _ _ _ _ Hrun c recs r Hc Hr).
Qed.

Lemma visit_pushes_iff_first_match_positive_witness :
  exists m,
    trackBalances (origin_stargate ["5"]) 7 "untrn" example_account
    = Some (Ok m)
    /\ m = visit_all (origin_allBalances ["5"]) "untrn"
             (nodes 7 ["neutron"]
                {| dt_denom := "untrn"; dt_trace := "untrn" |}) ∅
    /\ (forall path t,
           In (path, t)
              (nodes 7 ["neutron"]
                 {| dt_denom := "untrn"; dt_trace := "untrn" |})
           <-> visited "untrn" path t)
    /\ (forall path t,
           visited "untrn" path t ->
           exists chain coins,
             last path = Some chain
             /\ origin_allBalances ["5"] !! chain = Some coins
             /\ forall balances,
                  (forall coin,
                      matched coins t = Some coin ->
                      Number.gt (parseFloat (coin_amount coin)) Number.zero
                      = true ->
                      exists balances',
                        visit (origin_allBalances ["5"]) "untrn" path t
                          balances = Ok balances'
                        /\ balances' !! chain
                           = Some (default [] (balances !! chain)
                                   ++ [node_record "untrn" path t
                                         (parseFloat (coin_amount coin))])
                        /\ forall k,
                             k <> chain -> balances' !! k = balances !! k)
                  /\ ((forall coin,
                          matched coins t = Some coin ->
                          Number.gt (parseFloat (coin_amount coin))
                            Number.zero = false) ->
                      visit (origin_allBalances ["5"]) "untrn" path t balances
                      = Ok balances))
    /\ (forall c recs r,
           m !! c = Some recs -> r ∈ recs ->
           Number.gt (br_balance r) Number.zero = true).
Proof.
  apply (visit_pushes_iff_first_match_positive (origin_stargate ["5"]) 7
           "untrn" example_account (origin_allBalances ["5"])).
  - change (length chainNames) with 6. lia.
  - apply origin_fetchAll.
Defined.

(** C2, counterexample.  (a) The origin snapshot holds the base denom
    twice, first with amount "0" and then with amount "5": it contains an
    entry with the denom whose amount is a finite positive number, and the
    run records nothing.  (b) The origin snapshot holds the base denom
    with amount "Infinity": no entry has a finite amount, and the run
    records a balance that is not finite. *)
Lemma first_match_and_infinity_counterexample :
  ((exists coin,
       coin ∈ origin_coins ["0"; "5"]
       /\ coin_denom coin = "untrn"
       /\ Number.isFinite (parseFloat (coin_amount coin)) = true
       /\ Number.gt (parseFloat (coin_amount coin)) Number.zero = true)
   /\ trackBalances (origin_stargate ["0"; "5"]) 7 "untrn" example_account
      = Some (Ok ∅))
  /\
  ((forall coin,
       coin ∈ origin_coins ["Infinity"] ->
       Number.isFinite (parseFloat (coin_amount coin)) = false)
   /\ trackBalances (origin_stargate ["Infinity"]) 7 "untrn" example_account
      = Some (Ok {[ "neutron" :=
                      [ node_record "untrn" ["neutron"] untrn
                          Number.infinity ] ]})
   /\ Number.isFinite Number.infinity = false).
Proof.
  split; [split | split; [| split]].
  - exists {| coin_denom := "untrn"; coin_amount := "5" |}.
    split; [| repeat split].
    apply list_elem_of_In. simpl. auto.
  - apply origin_run. reflexivity.
  - intros coin Hc. apply list_elem_of_In in Hc. simpl in Hc.
    destruct Hc as [<- | []]. reflexivity.
  - apply origin_run. reflexivity.
  - reflexivity.
Qed.

(** C4. A run returns, and in every record of its result the path without
    its first element has no duplicate: two positions of the path hold the
    same chain only when the first of them is position 0, the origin. *)
Theorem record_path_suffix_no_duplicates
  (stargate : string -> string -> result (list Coin)) (fuel : nat)
  (denom account : string) :
  length chainNames + 1 <= fuel ->
  exists r,
    trackBalances stargate fuel denom account = Some r
    /\ forall m c recs rcd,
         r = Ok m -> m !! c = Some recs -> rcd ∈ recs ->
         NoDup (tail (br_path rcd))
         /\ head (br_path rcd) = Some "neutron"
         /\ forall (i j : nat) (x : string),
              i < j ->
              br_path rcd !! i = Some x -> br_path rcd !! j = Some x ->
              i = 0 /\ x = "neutron".
Proof.
  intros Hfuel.
  destruct (trackBalances_returns stargate fuel denom account Hfuel)
    as (r & Hrun).
  exists r. split; [exact Hrun |].
  intros m c recs rcd -> Hc Hr.
  destruct (trackBalances_records_ok _ _ _ _ _ Hrun c recs rcd Hc Hr)
    as (_ & Hh & Hnd & _).
  split; [assumption |]. split; [assumption |].
  intros i j x Hij Hi Hj.
  destruct (br_path rcd) as [| y path]; [discriminate |].
  simpl in Hh, Hnd. injection Hh as ->.
  destruct i as [| i].
  - simpl in Hi. injection Hi as <-. auto.
  - destruct j as [| j]; [lia |]. simpl in Hi, Hj.
    pose proof (NoDup_lookup _ _ _ _ Hnd Hi Hj). lia.
Qed.

Lemma record_path_suffix_no_duplicates_witness :
  exists r,
    trackBalances (origin_stargate ["5"]) 7 "untrn" example_account = Some r
    /\ forall m c recs rcd,
         r = Ok m -> m !! c = Some recs -> rcd ∈ recs ->
         NoDup (tail (br_path rcd))
         /\ head (br_path rcd) = Some "neutron"
         /\ forall (i j : nat) (x : string),
              i < j ->
              br_path rcd !! i = Some x -> br_path rcd !! j = Some x ->
              i = 0 /\ x = "neutron".
Proof.
  apply (record_path_suffix_no_duplicates (origin_stargate ["5"]) 7 "untrn"
           example_account).
  change (length chainNames) with 6. lia.
Defined.

(** C5. A run returns, and every record stored under a chain [c] in its
    result has a path that ends at [c]. *)
Theorem record_path_ends_at_its_chain
  (stargate : string -> string -> result (list Coin)) (fuel : nat)
  (denom account : string) :
  length chainNames + 1 <= fuel ->
  exists r,
    trackBalances stargate fuel denom account = Some r
    /\ forall m c recs rcd,
         r = Ok m -> m !! c = Some recs -> rcd ∈ recs ->
         last (br_path rcd) = Some c.
Proof.
  intros Hfuel.
  destruct (trackBalances_returns stargate fuel denom account Hfuel)
    as (r & Hrun).
  exists r. split; [exact Hrun |].
  intros m c recs rcd -> Hc Hr.
  now destruct (trackBalances_records_ok _ _ _ _ _ Hrun c recs rcd Hc Hr).
Qed.

Lemma record_path_ends_at_its_chain_witness :
  exists r,
    trackBalances (origin_stargate ["5"]) 7 "untrn" example_account = Some r
    /\ forall m c recs rcd,
         r = Ok m -> m !! c = Some recs -> rcd ∈ recs ->
         last (br_path rcd) = Some c.
Proof.
  apply (record_path_ends_at_its_chain (origin_stargate ["5"]) 7 "untrn"
           example_account).
  change (length chainNames) with 6. lia.
Defined.

(** C6. The traversal terminates: with one level of calls more than there
    are registered chains the run returns, and it returns the same with
    any larger number of levels; every hop is to a chain that differs from
    the current one and is absent from [path.slice(1)], so no path of the
    traversal is longer than the number of registered chains plus one. *)
Theorem traversal_terminates
  (stargate : string -> string -> result (list Coin)) (fuel : nat)
  (denom account : string) :
  length chainNames + 1 <= fuel ->
  (exists r,
      trackBalances stargate (length chainNames + 1) denom account = Some r
      /\ trackBalances stargate fuel denom account = Some r)
  /\ (forall path t,
         visited denom path t -> length path <= length chainNames + 1)
  /\ (forall path t chain next,
         visited denom path t -> visited denom (path ++ [chain]) next ->
         (chain ∉ tail path) /\ last path <> Some chain).
Proof.
  intros Hfuel. split; [| split].
  - destruct (trackBalances_returns stargate (length chainNames + 1) denom
                account (le_n _)) as (r & Hr).
    exists r. split; [assumption |].
    now apply (trackBalances_fuel_monotone stargate (length chainNames + 1)).
  - intros path t Hv. apply path_ok_length. now apply (visited_path_ok denom _ t).
  - intros path t chain next Hv Hv'.
    remember (path ++ [chain]) as p eqn:Ep.
    destruct Hv' as [| path' t' chain' next' Hv'' Hin He Hg].
    + pose proof (path_ok_nonempty _ (visited_path_ok _ _ _ Hv)) as Hnil.
      destruct path as [| ? [| ? ?]]; [congruence | discriminate ..].
    + apply app_inj_tail in Ep as [-> ->]. now apply eligible_spec.
Qed.

Lemma traversal_terminates_witness :
  (exists r,
      trackBalances (origin_stargate ["5"]) (length chainNames + 1) "untrn"
        example_account = Some r
      /\ trackBalances (origin_stargate ["5"]) 9 "untrn" example_account
         = Some r)
  /\ (forall path t,
         visited "untrn" path t -> length path <= length chainNames + 1)
  /\ (forall path t chain next,
         visited "untrn" path t -> visited "untrn" (path ++ [chain]) next ->
         (chain ∉ tail path) /\ last path <> Some chain).
Proof.
  apply (traversal_terminates (origin_stargate ["5"]) 9 "untrn"
           example_account).
  change (length chainNames) with 6. lia.
Defined.

(** C7. When the base denom has a positive balance [B] on the origin and
    no other node of the traversal has a positive balance on its chain,
    the run returns the mapping with the single key "neutron" and the
    single record [{denom: baseDenom, originDenom: baseDenom, balance: B,
    path: ["neutron"]}]. *)
Theorem base_denom_on_origin_only
  (stargate : string -> string -> result (list Coin)) (fuel : nat)
  (denom account : string) (allBalances : gmap string (list Coin))
  (B : number) :
  length chainNames + 1 <= fuel ->
  fetchAll stargate account = Ok allBalances ->
  balanceOf allBalances (Some "neutron")
    {| dt_denom := denom; dt_trace := denom |} = Ok B ->
  Number.gt B Number.zero = true ->
  (forall path t,
      visited denom path t -> path <> ["neutron"] ->
      forall balance,
        balanceOf allBalances (last path) t = Ok balance ->
        Number.gt balance Number.zero = false) ->
  trackBalances stargate fuel denom account
  = Some (Ok {[ "neutron" :=
                  [ {| br_denom := denom;
                       br_originDenom := denom;
                       br_balance := B;
                       br_path := ["neutron"] |} ] ]}).
Proof.
  intros Hfuel Hfetch HB Hpos Hzero.
  apply (trackBalances_origin_visit stargate fuel denom account allBalances);
    try assumption.
  - intros path t Hv Hne balance Hb. rewrite positive_balance_gt.
    now apply (Hzero path t).
  - unfold visit. change (last ["neutron"]) with (Some "neutron").
    rewrite HB. cbn [bind]. rewrite positive_balance_gt, Hpos. reflexivity.
Qed.

Lemma base_denom_on_origin_only_witness :
  trackBalances (origin_stargate ["5"]) 7 "untrn" example_account
  = Some (Ok {[ "neutron" :=
                  [ {| br_denom := "untrn";
                       br_originDenom := "untrn";
                       br_balance := parseFloat "5";
                       br_path := ["neutron"] |} ] ]}).
Proof.
  apply (base_denom_on_origin_only (origin_stargate ["5"]) 7 "untrn"
           example_account (origin_allBalances ["5"]) (parseFloat "5")).
  - change (length chainNames) with 6. lia.
  - apply origin_fetchAll.
  - reflexivity.
  - reflexivity.
  - intros path t Hv Hne balance Hb. rewrite <- positive_balance_gt.
    now apply (origin_elsewhere_zero ["5"] path t).
Defined.

(** ** Addresses: regrouping bits *)

Module Bech32Facts.
Import Bech32.
Local Open Scope Z_scope.

Lemma land_mask (x o : Z) :
  0 <= o -> Z.land x (Z.shiftl 1 o - 1) = x mod 2 ^ o.
Proof.
  intros Ho. rewrite Z.shiftl_1_l, Z.sub_1_r, <- Z.ones_equiv.
  now apply Z.land_ones.
Qed.

Lemma lor_low (y d i : Z) :
  0 <= i -> 0 <= d < 2 ^ i -> Z.lor (y * 2 ^ i) d = y * 2 ^ i + d.
Proof.
  intros Hi Hd.
  rewrite <- (Z.add_lor_land (y * 2 ^ i) d).
  assert (Z.land (y * 2 ^ i) d = 0); [| lia].
  apply Z.bits_inj'. intros n Hn.
  rewrite Z.land_spec, Z.bits_0.
  destruct (Z.lt_ge_cases n i) as [Hlt | Hge].
  - rewrite Z.mul_pow2_bits_low by lia. reflexivity.
  - rewrite <- (Z.mod_small d (2 ^ i)) by lia.
    rewrite Z.mod_pow2_bits_high by lia. apply andb_false_r.
Qed.

Lemma mod_split (x a b : Z) :
  0 <= a -> 0 <= b ->
  x mod 2 ^ (a + b) = (x / 2 ^ a) mod 2 ^ b * 2 ^ a + x mod 2 ^ a.
Proof.
  intros Ha Hb. rewrite Z.pow_add_r by assumption.
  rewrite Z.rem_mul_r by (try apply Z.pow_nonzero; try apply Z.pow_pos_nonneg; lia).
  lia.
Qed.

Lemma num_snoc (w : Z) (l : list Z) (x : Z) :
  num w (l ++ [x]) = num w l * 2 ^ w + x.
Proof. unfold num. now rewrite fold_left_app. Qed.

Lemma num_inj (w : Z) (l l' : list Z) :
  0 <= w ->
  length l = length l' ->
  Forall (fun x => 0 <= x < 2 ^ w) l ->
  Forall (fun x => 0 <= x < 2 ^ w) l' ->
  num w l = num w l' -> l = l'.
Proof.
  intros Hw. revert l'.
  induction l as [| x l IH] using rev_ind; intros l' Hlen Hl Hl' Hn.
  - destruct l'; [reflexivity | discriminate].
  - destruct l' as [| x' l' _] using rev_ind.
    { rewrite length_app in Hlen. simpl in Hlen. lia. }
    rewrite !length_app in Hlen. simpl in Hlen.
    apply Forall_app in Hl as [Hl Hx]. apply Forall_app in Hl' as [Hl' Hx'].
    apply Forall_inv in Hx. apply Forall_inv in Hx'.
    rewrite !num_snoc in Hn.
    assert (Hp : 0 < 2 ^ w) by (apply Z.pow_pos_nonneg; lia).
    assert (Hq : num w l = num w l').
    { apply (f_equal (fun z => z / 2 ^ w)) in Hn.
      rewrite !Z.div_add_l, !(Z.div_small _ (2 ^ w)) in Hn by lia. lia. }
    rewrite Hq in Hn. assert (x = x') as -> by lia.
    f_equal. apply IH; try assumption. lia.
Qed.

Section Convert.

Variables inBits outBits : Z.
Hypothesis Hin : 0 < inBits.
Hypothesis Hout : 0 < outBits.
Hypothesis Hsum : inBits + outBits <= 32.

Lemma drain_inv (consumed : list Z) (value : Z) (fuel : nat) :
  forall (bits : Z) (res : list Z),
    conv_inv inBits outBits consumed value bits res ->
    bits <= Z.of_nat fuel ->
    conv_inv inBits outBits consumed value
      (fst (drain fuel outBits value bits res))
      (snd (drain fuel outBits value bits res))
    /\ fst (drain fuel outBits value bits res) < outBits.
Proof.
  induction fuel as [| fuel IH]; intros bits res Hinv Hfuel; simpl.
  - split; [assumption |]. destruct Hinv as (H0 & _). lia.
  - destruct (Z.leb_spec outBits bits) as [Hle | Hlt]; [| now split].
    apply IH; [| lia].
    destruct Hinv as (H0 & Hnum & Hlen & Hres).
    remember (bits - outBits) as b' eqn:Eb.
    assert (Hb : bits = b' + outBits) by lia. clear Eb. subst bits.
    repeat split.
    + lia.
    + rewrite num_snoc, land_mask, Z.shiftr_div_pow2 by lia.
      rewrite <- Hnum.
      rewrite (mod_split value b' outBits) by lia.
      rewrite (Z.pow_add_r 2 b' outBits) by lia.
      ring.
    + rewrite length_app. simpl length. lia.
    + apply Forall_app. split; [assumption |]. constructor; [| constructor].
      rewrite land_mask by lia. apply Z.mod_pos_bound.
      apply Z.pow_pos_nonneg; lia.
Qed.

Lemma pow2_divide (a b : Z) : 0 <= a <= b -> (2 ^ a | 2 ^ b).
Proof.
  intros H. exists (2 ^ (b - a)).
  rewrite <- Z.pow_add_r by lia. f_equal. lia.
Qed.

Lemma wrap32_shift_mod (value n k : Z) :
  0 <= n -> 0 <= k -> n + k <= 32 ->
  wrap32 (Z.shiftl value n) mod 2 ^ (n + k) = value mod 2 ^ k * 2 ^ n.
Proof.
  intros Hn Hk Hle. unfold wrap32.
  rewrite Z.shiftl_mul_pow2 by assumption.
  rewrite Z.mod_mod_divide by (apply pow2_divide; lia).
  rewrite (Z.add_comm n k), (Z.pow_add_r 2 k n) by lia.
  apply Z.mul_mod_distr_r; apply Z.pow_nonzero; lia.
Qed.

Lemma wrap32_shift_multiple (value n : Z) :
  0 <= n <= 32 ->
  exists y, wrap32 (Z.shiftl value n) = y * 2 ^ n.
Proof.
  intros Hn. unfold wrap32.
  rewrite Z.shiftl_mul_pow2 by lia.
  replace 32 with ((32 - n) + n) by lia.
  rewrite (Z.pow_add_r 2 (32 - n) n) by lia.
  rewrite Z.mul_mod_distr_r by (apply Z.pow_nonzero; lia).
  eexists. reflexivity.
Qed.

Lemma input_inv (consumed : list Z) (value bits d : Z) (res : list Z) :
  conv_inv inBits outBits consumed value bits res ->
  bits < outBits ->
  0 <= d < 2 ^ inBits ->
  conv_inv inBits outBits (consumed ++ [d])
    (Z.lor (wrap32 (Z.shiftl value inBits)) d) (bits + inBits) res.
Proof.
  intros (H0 & Hnum & Hlen & Hres) Hlt Hd.
  repeat split; try assumption.
  - lia.
  - destruct (wrap32_shift_multiple value inBits) as (y & Hy); [lia |].
    assert (Hp : 0 < 2 ^ inBits) by (apply Z.pow_pos_nonneg; lia).
    assert (Hpb : 0 < 2 ^ bits) by (apply Z.pow_pos_nonneg; lia).
    assert (Hy0 : 0 <= y).
    { assert (0 <= y * 2 ^ inBits); [| nia].
      rewrite <- Hy. unfold wrap32. apply Z.mod_pos_bound. lia. }
    assert (E : (y * 2 ^ inBits + d) mod 2 ^ (bits + inBits)
                = value mod 2 ^ bits * 2 ^ inBits + d).
    { rewrite (Z.pow_add_r 2 bits inBits) by lia.
      rewrite Z.add_mul_mod_distr_r by lia. f_equal.
      rewrite <- (Z.mul_mod_distr_r y (2 ^ bits) (2 ^ inBits)) by lia.
      rewrite <- Hy, <- (Z.pow_add_r 2 bits inBits) by lia.
      rewrite (Z.add_comm bits inBits). apply wrap32_shift_mod; lia. }
    rewrite num_snoc, Hy, lor_low, E by lia.
    rewrite (Z.pow_add_r 2 bits inBits) by lia.
    rewrite <- Hnum. ring.
  - rewrite length_app. simpl length. lia.
Qed.

Lemma convert_loop_inv (data : list Z) :
  forall (consumed : list Z) (value bits : Z) (res : list Z),
    conv_inv inBits outBits consumed value bits res ->
    bits < outBits ->
    Forall (fun d => 0 <= d < 2 ^ inBits) data ->
    let r := convert_loop data inBits outBits value bits res in
    conv_inv inBits outBits (consumed ++ data) (fst (fst r)) (snd (fst r))
      (snd r)
    /\ snd (fst r) < outBits.
Proof.
  induction data as [| d data IH]; intros consumed value bits res Hinv Hlt Hd;
    simpl.
  - rewrite app_nil_r. now split.
  - apply Forall_cons_iff in Hd as [Hd Hdata].
    pose proof (input_inv consumed value bits d res Hinv Hlt Hd) as Hinv'.
    pose proof (drain_inv (consumed ++ [d])
                  (Z.lor (wrap32 (Z.shiftl value inBits)) d)
                  (Z.to_nat (bits + inBits)) (bits + inBits) res Hinv') as Hdr.
    destruct (drain _ _ _ _ _) as [bits' res'] eqn:Edr.
    simpl in Hdr. destruct Hdr as [Hinv'' Hlt'].
    { destruct Hinv as (H0 & _). lia. }
    specialize (IH (consumed ++ [d]) _ bits' res' Hinv'' Hlt' Hdata).
    rewrite <- app_assoc in IH. exact IH.
Qed.

Lemma conv_inv_start : conv_inv inBits outBits [] 0 0 [].
Proof.
  unfold conv_inv. simpl. split; [lia |]. split; [reflexivity |].
  split; [lia | constructor].
Qed.

End Convert.

Lemma byte_to_of_Z (z : Z) :
  0 <= z < 256 -> Sha256.byte_to_Z (Sha256.byte_of_Z z) = z.
Proof.
  intros Hz. unfold Sha256.byte_to_Z, Sha256.byte_of_Z.
  destruct (Byte.of_N (Z.to_N z)) as [b |] eqn:E.
  - apply Byte.to_of_N in E. rewrite E. lia.
  - apply Byte.of_N_None_iff in E. lia.
Qed.

Lemma map_byte_to_of_Z (l : list Z) :
  Forall (fun x => 0 <= x < 2 ^ 8) l ->
  map Sha256.byte_to_Z (map Sha256.byte_of_Z l) = l.
Proof.
  induction 1 as [| x l Hx _ IH]; simpl; [reflexivity |].
  rewrite IH, byte_to_of_Z; [reflexivity |].
  change (2 ^ 8) with 256 in Hx. exact Hx.
Qed.

(** Words that regroup into bytes without excess or non-zero padding are
    what the bytes regroup into. *)
Lemma toWords_fromWords (words : list Z) (bytes : list byte) :
  Forall (fun w => 0 <= w < 2 ^ 5) words ->
  fromWords words = Ok bytes ->
  toWords bytes = words.
Proof.
  intros Hw Hfrom. unfold fromWords, convert in Hfrom.
  pose proof (convert_loop_inv 5 8 ltac:(lia) ltac:(lia) ltac:(lia)
                words [] 0 0 [] (conv_inv_start 5 8) ltac:(lia) Hw) as H1.
  destruct (convert_loop words 5 8 0 0 []) as [[v b] res].
  simpl in H1. destruct H1 as ((Hb0 & Hn1 & Hl1 & Hr1) & Hb8).
  destruct (Z.leb_spec 5 b) as [| Hb5]; [discriminate |].
  destruct (Z.eqb_spec (Z.land (wrap32 (Z.shiftl v (8 - b))) (Z.shiftl 1 8 - 1)) 0)
    as [Hpad |]; [| discriminate].
  cbn [negb bind] in Hfrom. injection Hfrom as <-.
  rewrite land_mask in Hpad by lia.
  replace 8 with ((8 - b) + b) in Hpad at 2 by lia.
  rewrite wrap32_shift_mod in Hpad by lia.
  assert (Hv : v mod 2 ^ b = 0).
  { assert (0 < 2 ^ (8 - b)) by (apply Z.pow_pos_nonneg; lia). nia. }
  rewrite Hv, Z.add_0_r in Hn1.
  unfold toWords, convert. rewrite (map_byte_to_of_Z res Hr1).
  pose proof (convert_loop_inv 8 5 ltac:(lia) ltac:(lia) ltac:(lia)
                res [] 0 0 [] (conv_inv_start 8 5) ltac:(lia) Hr1) as H2.
  destruct (convert_loop res 8 5 0 0 []) as [[v2 b2] res2].
  simpl in H2. destruct H2 as ((Hb20 & Hn2 & Hl2 & Hr2) & Hb25).
  destruct (Z.ltb_spec 0 b2) as [Hpos | Hzero].
  - assert (Hb : b = 5 - b2) by lia.
    assert (Hlast :
      Z.land (wrap32 (Z.shiftl v2 (5 - b2))) (Z.shiftl 1 5 - 1)
      = v2 mod 2 ^ b2 * 2 ^ (5 - b2)).
    { rewrite land_mask by lia.
      replace 5 with ((5 - b2) + b2) at 2 by lia.
      apply wrap32_shift_mod; lia. }
    rewrite Hlast. symmetry. apply (num_inj 5); try lia.
    + rewrite length_app. simpl length. lia.
    + assumption.
    + apply Forall_app. split; [assumption |]. constructor; [| constructor].
      rewrite <- Hlast, land_mask by lia. apply Z.mod_pos_bound. lia.
    + rewrite num_snoc, <- Hn1, <- Hn2, Hb.
      replace (2 ^ 5) with (2 ^ b2 * 2 ^ (5 - b2)).
      * ring.
      * rewrite <- Z.pow_add_r by lia. f_equal. lia.
  - assert (b2 = 0) by lia. subst b2.
    assert (b = 0) by lia. subst b.
    symmetry. apply (num_inj 5); try lia; try assumption.
    rewrite <- Hn1, <- Hn2.
    change (2 ^ 0) with 1. rewrite Z.mod_1_r. ring.
Qed.

End Bech32Facts.

(** ** Addresses: the checksum *)

Module ChecksumFacts.
Import Bech32 Bech32Facts.
Local Open Scope Z_scope.

Lemma shift_lxor_add (d v : Z) :
  0 <= v < 2 ^ 5 -> Z.lxor (Z.shiftl d 5) v = d * 2 ^ 5 + v.
Proof.
  intros Hv. rewrite Z.shiftl_mul_pow2 by lia.
  rewrite <- (lor_low d v 5) by lia.
  apply Z.lxor_lor.
  pose proof (lor_low d v 5 ltac:(lia) Hv) as H.
  pose proof (Z.add_lor_land (d * 2 ^ 5) v). lia.
Qed.

Lemma lxor_below (a b n : Z) :
  0 <= n -> 0 <= a < 2 ^ n -> 0 <= b < 2 ^ n -> 0 <= Z.lxor a b < 2 ^ n.
Proof.
  intros Hn Ha Hb.
  assert (H0 : 0 <= Z.lxor a b) by (apply Z.lxor_nonneg; lia).
  split; [assumption |].
  destruct (Z.eq_dec (Z.lxor a b) 0) as [-> | Hne].
  - apply Z.pow_pos_nonneg; lia.
  - assert (Hpos : 0 < n).
    { destruct (Z.eq_dec n 0) as [-> | ?]; [| lia].
      change (2 ^ 0) with 1 in *.
      assert (a = 0) as -> by lia. assert (b = 0) as -> by lia.
      now contradiction Hne. }
    apply Z.log2_lt_pow2; [lia |].
    pose proof (Z.log2_lxor a b ltac:(lia) ltac:(lia)) as Hl.
    assert (Z.log2 a < n).
    { destruct (Z.eq_dec a 0) as [-> | ?]; [simpl; lia |].
      apply Z.log2_lt_pow2; lia. }
    assert (Z.log2 b < n).
    { destruct (Z.eq_dec b 0) as [-> | ?]; [simpl; lia |].
      apply Z.log2_lt_pow2; lia. }
    lia.
Qed.

Lemma feedback_cases (b k g : Z) :
  Z.land (- Z.land (Z.shiftr b k) 1) g = 0
  \/ Z.land (- Z.land (Z.shiftr b k) 1) g = g.
Proof.
  assert (H : Z.land (Z.shiftr b k) 1 = 0 \/ Z.land (Z.shiftr b k) 1 = 1).
  { pose proof (Z.land_ones (Z.shiftr b k) 1 ltac:(lia)) as E.
    change (Z.ones 1) with 1 in E. change (2 ^ 1) with 2 in E. rewrite E.
    pose proof (Z.mod_pos_bound (Z.shiftr b k) 2). lia. }
  destruct H as [-> | ->].
  - left. reflexivity.
  - right. apply Z.land_m1_l.
Qed.

(** The state of the checksum stays below [2 ^ 30]: on these values the
    32-bit operations of the package and the operations on [Z] agree. *)
Lemma polymodStep_range (pre : Z) :
  0 <= pre < 2 ^ 30 -> 0 <= polymodStep pre < 2 ^ 30.
Proof.
  intros Hpre. unfold polymodStep.
  assert (H1 : 0 <= Z.shiftl (Z.land pre 33554431) 5 < 2 ^ 30).
  { change 33554431 with (Z.ones 25).
    rewrite Z.land_ones, Z.shiftl_mul_pow2 by lia.
    pose proof (Z.mod_pos_bound pre (2 ^ 25) ltac:(lia)).
    change (2 ^ 30) with (2 ^ 25 * 2 ^ 5). nia. }
  repeat apply lxor_below; try lia;
    match goal with
    | |- context [Z.land (- Z.land (Z.shiftr ?b ?k) 1) ?g] =>
        destruct (feedback_cases b k g) as [-> | ->]; lia
    end.
Qed.

Lemma land_lxor_distr (a b m : Z) :
  Z.land (Z.lxor a b) m = Z.lxor (Z.land a m) (Z.land b m).
Proof.
  apply Z.bits_inj'. intros n Hn.
  rewrite !Z.lxor_spec, !Z.land_spec, Z.lxor_spec.
  destruct (Z.testbit a n), (Z.testbit b n), (Z.testbit m n); reflexivity.
Qed.

(** Bits injected below bit 25 do not reach the feedback of the step. *)
Lemma polymodStep_lxor_low (c d : Z) :
  0 <= d < 2 ^ 25 ->
  polymodStep (Z.lxor c d) = Z.lxor (polymodStep c) (Z.shiftl d 5).
Proof.
  intros Hd. unfold polymodStep.
  rewrite Z.shiftr_lxor.
  replace (Z.shiftr d 25) with 0
    by (rewrite Z.shiftr_div_pow2, Z.div_small; lia).
  rewrite Z.lxor_0_r.
  rewrite land_lxor_distr.
  replace (Z.land d 33554431) with d.
  2:{ change 33554431 with (Z.ones 25).
      rewrite Z.land_ones, Z.mod_small; lia. }
  rewrite Z.shiftl_lxor.
  apply Z.bits_inj'. intros n Hn. rewrite !Z.lxor_spec.
  repeat match goal with
         | |- context [Z.testbit ?a n] =>
             let b := fresh "b" in
             generalize (Z.testbit a n); intros b
         end.
  repeat match goal with b : bool |- _ => destruct b end; reflexivity.
Qed.

Lemma fold_step_lxor (vs : list Z) :
  forall (c d : Z) (k : nat),
    0 <= d < 2 ^ (5 * Z.of_nat k) ->
    (k + length vs <= 6)%nat ->
    Forall (fun v => 0 <= v < 2 ^ 5) vs ->
    fold_left step vs (Z.lxor c d)
    = Z.lxor (Nat.iter (length vs) polymodStep c) (pack d vs).
Proof.
  induction vs as [| v vs IH]; intros c d k Hd Hk Hvs.
  - reflexivity.
  - apply Forall_cons_iff in Hvs as [Hv Hvs].
    cbn [length] in Hk. cbn [fold_left length]. unfold pack. cbn [fold_left].
    fold (pack (Z.lxor (Z.shiftl d 5) v) vs).
    assert (Hd25 : 0 <= d < 2 ^ 25).
    { split; [lia |]. apply Z.lt_le_trans with (2 ^ (5 * Z.of_nat k)); [lia |].
      apply Z.pow_le_mono_r; lia. }
    change (step (Z.lxor c d) v) with (Z.lxor (polymodStep (Z.lxor c d)) v).
    rewrite polymodStep_lxor_low by assumption.
    rewrite Z.lxor_assoc.
    rewrite (IH (polymodStep c) (Z.lxor (Z.shiftl d 5) v) (S k)).
    + rewrite <- Nat.iter_succ_r. reflexivity.
    + rewrite shift_lxor_add by assumption.
      replace (5 * Z.of_nat (S k)) with (5 * Z.of_nat k + 5) by lia.
      rewrite Z.pow_add_r by lia. lia.
    + lia.
    + assumption.
Qed.

Lemma lxor_swap (a p : Z) : Z.lxor a p = 1 -> Z.lxor a 1 = p.
Proof.
  intros H. rewrite <- H, <- Z.lxor_assoc, Z.lxor_nilpotent. apply Z.lxor_0_l.
Qed.

(** A state that six more values bring to 1 determines these values. *)
Lemma checksum_determined (c : Z) (vs : list Z) :
  length vs = 6%nat ->
  Forall (fun v => 0 <= v < 2 ^ 5) vs ->
  fold_left step vs c = 1 ->
  Z.lxor (Nat.iter 6 polymodStep c) 1 = pack 0 vs.
Proof.
  intros Hlen Hvs H. apply lxor_swap.
  rewrite <- (Z.lxor_0_r c) in H.
  rewrite (fold_step_lxor vs c 0 0%nat) in H; try assumption.
  - rewrite Hlen in H. exact H.
  - simpl. lia.
  - lia.
Qed.

Lemma pack_six (v0 v1 v2 v3 v4 v5 : Z) :
  Forall (fun v => 0 <= v < 2 ^ 5) [v0; v1; v2; v3; v4; v5] ->
  pack 0 [v0; v1; v2; v3; v4; v5]
  = ((((v0 * 32 + v1) * 32 + v2) * 32 + v3) * 32 + v4) * 32 + v5.
Proof.
  intros H.
  repeat match goal with
         | H : Forall _ (_ :: _) |- _ => apply Forall_cons_iff in H as [? H]
         end.
  unfold pack. simpl fold_left.
  rewrite !shift_lxor_add by assumption. change (2 ^ 5) with 32. lia.
Qed.

Lemma field (P k v : Z) :
  0 <= k -> 0 <= v < 32 ->
  (exists hi lo, 0 <= lo < 2 ^ k /\ P = (hi * 32 + v) * 2 ^ k + lo) ->
  Z.land (Z.shiftr P k) 31 = v.
Proof.
  intros Hk Hv (hi & lo & Hlo & ->).
  rewrite Z.shiftr_div_pow2 by assumption.
  change 31 with (Z.ones 5). rewrite Z.land_ones by lia.
  rewrite Z.div_add_l by (apply Z.pow_nonzero; lia).
  rewrite (Z.div_small lo) by assumption.
  rewrite Z.add_0_r, Z.add_comm, Z.mod_add by lia.
  apply Z.mod_small. exact Hv.
Qed.

End ChecksumFacts.

(** ** Addresses: decoding and encoding *)

Module CodecFacts.
Import Bech32 Bech32Facts ChecksumFacts.

Lemma append_cons (x : ascii) (a b : string) :
  String x a +:+ b = String x (a +:+ b).
Proof. reflexivity. Qed.

Lemma append_assoc (a b c : string) : (a +:+ b) +:+ c = a +:+ (b +:+ c).
Proof.
  induction a as [| x a IH]; [reflexivity |].
  now rewrite !append_cons, IH.
Qed.

Lemma append_nil_r (a : string) : a +:+ EmptyString = a.
Proof.
  induction a as [| x a IH]; [reflexivity |].
  now rewrite append_cons, IH.
Qed.

(** A string is what precedes a position, the character there, and what
    follows. *)
Lemma split_at (s : string) :
  forall (k : nat) (c : ascii),
    String.get k s = Some c ->
    s = String.substring 0 k s
        +:+ String c (String.substring (S k) (String.length s - S k) s).
Proof.
  induction s as [| x s IH]; intros k c Hget; [discriminate |].
  destruct k as [| k]; cbn [String.get] in Hget.
  - injection Hget as ->.
    cbn [String.substring String.length Nat.sub].
    change (EmptyString +:+ ?s) with s. f_equal.
    rewrite Nat.sub_0_r. clear IH.
    induction s as [| y s IH];
      cbn [String.substring String.length]; [reflexivity | now rewrite <- IH].
  - cbn [String.substring String.length Nat.sub].
    rewrite append_cons. f_equal. apply (IH k c Hget).
Qed.

Lemma lastIndexOf1_get (s : string) :
  forall (i j : nat),
    lastIndexOf1 s i = Some j ->
    exists k, j = (i + k)%nat /\ String.get k s = Some "1"%char.
Proof.
  induction s as [| x s IH]; intros i j H; simpl in H; [discriminate |].
  destruct (lastIndexOf1 s (S i)) as [j' |] eqn:E.
  - injection H as <-. destruct (IH _ _ E) as (k & -> & Hk).
    exists (S k). split; [lia | exact Hk].
  - destruct (Ascii.eqb_spec x "1"%char) as [-> |]; [| discriminate].
    injection H as <-. exists 0%nat. split; [lia | reflexivity].
Qed.

Lemma toLowerCase_substring (s : string) :
  forall n m,
    toLowerCase (String.substring n m s)
    = String.substring n m (toLowerCase s).
Proof.
  induction s as [| x s IH]; intros n m.
  - destruct n, m; reflexivity.
  - destruct n as [| n]; [destruct m as [| m] |]; simpl;
      [reflexivity | f_equal; apply IH | apply IH].
Qed.

Lemma substring_length (s : string) :
  forall n m, (n + m <= String.length s)%nat ->
              String.length (String.substring n m s) = m.
Proof.
  induction s as [| x s IH]; intros n m H.
  - simpl in H. assert (n = 0 /\ m = 0)%nat as [-> ->] by lia. reflexivity.
  - destruct n as [| n]; [destruct m as [| m] |]; simpl in *;
      [reflexivity | f_equal; apply IH; lia | apply IH; lia].
Qed.

(** The alphabet: a character with a value is the character of that
    value, and values have five bits. *)
Lemma ALPHABET_MAP_charAt (c : ascii) (v : Z) :
  ALPHABET_MAP c = Some v ->
  (0 <= v < 2 ^ 5)%Z /\ charAt v = String c EmptyString.
Proof.
  intros H. change (2 ^ 5)%Z with 32%Z.
  destruct c as [[] [] [] [] [] [] [] []]; vm_compute in H;
    try discriminate; injection H as <-; (split; [lia | reflexivity]).
Qed.

Lemma chars_app (a b : list Z) : chars (a ++ b) = chars a +:+ chars b.
Proof.
  induction a as [| v a IH]; cbn [chars app]; [reflexivity |].
  now rewrite IH, append_assoc.
Qed.

Lemma chars_of_values (cs : list ascii) (vs : list Z) :
  Forall2 (fun c v => ALPHABET_MAP c = Some v) cs vs ->
  chars vs = string_of_list_ascii cs
  /\ Forall (fun v => 0 <= v < 2 ^ 5)%Z vs.
Proof.
  induction 1 as [| c v cs vs Hcv _ [IH1 IH2]]; simpl.
  - split; [reflexivity | constructor].
  - destruct (ALPHABET_MAP_charAt c v Hcv) as [Hv Hc].
    rewrite Hc, IH1. split; [reflexivity | now constructor].
Qed.

(** The loop of [decode]: every character has a value, all of them enter
    the checksum, and all but the last six are kept. *)
Lemma decode_words_spec (cs : list ascii) :
  forall (chk : Z) (acc : list Z) (chk' : Z) (words : list Z),
    decode_words cs chk acc = Ok (chk', words) ->
    exists vs,
      Forall2 (fun c v => ALPHABET_MAP c = Some v) cs vs
      /\ chk' = fold_left step vs chk
      /\ words = acc ++ firstn (length cs - 6) vs.
Proof.
  induction cs as [| c cs IH]; intros chk acc chk' words H;
    cbn [decode_words] in H.
  - injection H as <- <-. exists []. repeat split.
    + constructor.
    + now rewrite app_nil_r.
  - destruct (ALPHABET_MAP c) as [v |] eqn:Ev; [| discriminate].
    destruct (Nat.leb_spec 6 (length (c :: cs))) as [Hle | Hlt];
      [destruct (Nat.eqb_spec 6 (length (c :: cs))) as [Heq | Hne] |];
      cbn [andb negb] in H; cbn [length] in *;
      destruct (IH _ _ _ _ H) as (vs & Hvs & Hchk & Hw);
      exists (v :: vs); (split; [now constructor |]); (split; [exact Hchk |]).
    + rewrite Hw. rewrite <- Heq.
      replace (length cs - 6)%nat with 0%nat by lia. reflexivity.
    + rewrite Hw, <- app_assoc.
      replace (S (length cs) - 6)%nat with (S (length cs - 6)) by lia.
      reflexivity.
    + rewrite Hw.
      replace (S (length cs) - 6)%nat with 0%nat by lia.
      replace (length cs - 6)%nat with 0%nat by lia. reflexivity.
Qed.

Lemma encode_words_spec (words : list Z) :
  forall (chk : Z) (res : string),
    Forall (fun v => 0 <= v < 2 ^ 5)%Z words ->
    encode_words words chk res
    = Ok (fold_left step words chk, res +:+ chars words).
Proof.
  induction words as [| x words IH]; intros chk res Hw; simpl.
  - now rewrite append_nil_r.
  - apply Forall_cons_iff in Hw as [Hx Hw].
    rewrite Z.shiftr_div_pow2, Z.div_small by lia. cbn [Z.eqb negb].
    rewrite IH by assumption. now rewrite append_assoc.
Qed.

(** The six characters that [encode] appends are those of the packed
    values. *)
Lemma checksum_chars_spec (vs : list Z) :
  length vs = 6%nat ->
  Forall (fun v => 0 <= v < 2 ^ 5)%Z vs ->
  checksum_chars (pack 0 vs) = chars vs.
Proof.
  intros Hlen Hvs.
  do 7 (destruct vs as [| ? vs]; try discriminate).
  rewrite (pack_six _ _ _ _ _ _ Hvs).
  repeat match goal with
         | H : Forall _ (_ :: _) |- _ => apply Forall_cons_iff in H as [? H]
         end.
  change (2 ^ 5)%Z with 32%Z in *.
  unfold checksum_chars. cbn [fold_left chars].
  change ((5 - 0) * 5)%Z with 25%Z. change ((5 - 1) * 5)%Z with 20%Z.
  change ((5 - 2) * 5)%Z with 15%Z. change ((5 - 3) * 5)%Z with 10%Z.
  change ((5 - 4) * 5)%Z with 5%Z. change ((5 - 5) * 5)%Z with 0%Z.
  rewrite (field _ 25 z), (field _ 20 z0), (field _ 15 z1), (field _ 10 z2),
    (field _ 5 z3), (field _ 0 z4); try lia.
  - rewrite append_nil_r. cbn [append]. rewrite !append_assoc. reflexivity.
  - exists ((((z * 32 + z0) * 32 + z1) * 32 + z2) * 32 + z3)%Z, 0%Z.
    change (2 ^ 0)%Z with 1%Z. lia.
  - exists (((z * 32 + z0) * 32 + z1) * 32 + z2)%Z, z4.
    change (2 ^ 5)%Z with 32%Z. lia.
  - exists ((z * 32 + z0) * 32 + z1)%Z, (z3 * 32 + z4)%Z.
    change (2 ^ 10)%Z with 1024%Z. lia.
  - exists (z * 32 + z0)%Z, ((z2 * 32 + z3) * 32 + z4)%Z.
    change (2 ^ 15)%Z with 32768%Z. lia.
  - exists z, (((z1 * 32 + z2) * 32 + z3) * 32 + z4)%Z.
    change (2 ^ 20)%Z with 1048576%Z. lia.
  - exists 0%Z, ((((z0 * 32 + z1) * 32 + z2) * 32 + z3) * 32 + z4)%Z.
    change (2 ^ 25)%Z with 33554432%Z. lia.
Qed.

Lemma list_ascii_length (s : string) :
  length (list_ascii_of_string s) = String.length s.
Proof. induction s as [| c s IH]; simpl; [reflexivity | now rewrite IH]. Qed.

Lemma chars_length (vs : list Z) :
  Forall (fun v => 0 <= v < 2 ^ 5)%Z vs ->
  String.length (chars vs) = length vs.
Proof.
  induction 1 as [| v vs Hv _ IH]; cbn [chars length]; [reflexivity |].
  rewrite string_length_app, IH.
  replace (String.length (charAt v)) with 1%nat; [reflexivity |].
  change (2 ^ 5)%Z with 32%Z in Hv.
  assert (Hcases : (v = 0 \/ v = 1 \/ v = 2 \/ v = 3 \/ v = 4 \/ v = 5 \/ v = 6
           \/ v = 7 \/ v = 8 \/ v = 9 \/ v = 10 \/ v = 11 \/ v = 12 \/ v = 13
           \/ v = 14 \/ v = 15 \/ v = 16 \/ v = 17 \/ v = 18 \/ v = 19
           \/ v = 20 \/ v = 21 \/ v = 22 \/ v = 23 \/ v = 24 \/ v = 25
           \/ v = 26 \/ v = 27 \/ v = 28 \/ v = 29 \/ v = 30 \/ v = 31)%Z)
    by lia.
  repeat (destruct Hcases as [-> | Hcases]; [reflexivity |]).
  subst v. reflexivity.
Qed.

(** What a successful decoding of a lowercase string says of the string:
    it is the prefix, the separator and the characters of the words and
    of six more values that bring the checksum to 1. *)
Lemma decode_lower (a p : string) (words : list Z) :
  toLowerCase a = a ->
  decode a None = Ok (p, words) ->
  exists c0 cs6,
    a = p +:+ "1" +:+ chars (words ++ cs6)
    /\ toLowerCase p = p
    /\ prefixChk p = Ok c0
    /\ length cs6 = 6
    /\ Forall (fun v => 0 <= v < 2 ^ 5)%Z (words ++ cs6)
    /\ fold_left step (words ++ cs6) c0 = 1%Z.
Proof.
  intros Hlower H. unfold decode in H.
  destruct (String.length a <? 8)%nat; [discriminate |].
  rewrite Hlower, String.eqb_refl in H. cbn [negb andb] in H.
  destruct (lastIndexOf1 a 0) as [[| n] |] eqn:Esplit; try discriminate.
  destruct (String.length _ <? 6)%nat eqn:Elen; [discriminate |].
  apply Nat.ltb_ge in Elen.
  destruct (prefixChk (String.substring 0 (S n) a)) as [c0 |] eqn:Ep;
    [| discriminate].
  cbn [bind] in H.
  destruct (decode_words _ c0 []) as [[chk' ws] |] eqn:Ed; [| discriminate].
  cbn [bind fst snd] in H.
  destruct (Z.eqb_spec chk' 1) as [-> |]; [| discriminate].
  cbn [negb] in H. injection H as <- <-.
  apply decode_words_spec in Ed as (vs & Hvs & Hchk & Hw).
  cbn [app] in Hw.
  destruct (lastIndexOf1_get _ _ _ Esplit) as (k & Hk & Hget).
  cbn [Nat.add] in Hk. subst k.
  pose proof (split_at a (S n) _ Hget) as Ha.
  set (wordChars := String.substring (S (S n)) (String.length a - S (S n)) a)
    in *.
  destruct (chars_of_values _ _ Hvs) as [Hchars Hrange].
  rewrite string_of_list_ascii_of_string in Hchars.
  pose proof (Forall2_length _ _ _ Hvs) as Hlen.
  rewrite list_ascii_length in Hlen.
  exists c0, (skipn (String.length wordChars - 6) vs).
  rewrite list_ascii_length in Hw. rewrite Hw, firstn_skipn.
  repeat split.
  - rewrite Hchars. exact Ha.
  - rewrite toLowerCase_substring, Hlower. reflexivity.
  - exact Ep.
  - rewrite length_skipn. lia.
  - exact Hrange.
  - symmetry. exact Hchk.
Qed.

End CodecFacts.

(** C8 (as amended). A well-formed address written in lowercase, of at
    most 90 characters, whose prefix [p] is not "terra", is reproduced
    exactly when it is converted to its own prefix. *)
Theorem convertAddressPrefix_same_prefix (a p : string) (data : list byte) :
  fromBech32 a = Ok (p, data) ->
  Bech32.toLowerCase a = a ->
  String.length a <= 90 ->
  p <> "terra" ->
  convertAddressPrefix a p = Ok a.
Proof.
  intros Hfrom Hlower Hlen Hp.
  unfold convertAddressPrefix.
  apply String.eqb_neq in Hp. rewrite Hp, Hfrom. cbn [bind snd].
  unfold fromBech32 in Hfrom.
  destruct (Bech32.decode a None) as [[p' words] |] eqn:Ed; [| discriminate].
  cbn [bind fst snd] in Hfrom.
  destruct (Bech32.fromWords words) as [bytes |] eqn:Ew; [| discriminate].
  cbn [bind] in Hfrom. injection Hfrom as -> ->.
  destruct (CodecFacts.decode_lower a p words Hlower Ed)
    as (c0 & cs6 & Ha & Hpl & Hchk & Hsix & Hrange & Hone).
  apply Forall_app in Hrange as [Hwords Hcs6].
  unfold toBech32.
  rewrite (Bech32Facts.toWords_fromWords words data Hwords Ew).
  assert (Hsize : String.length a
                  = String.length p + 1 + length words + 6).
  { rewrite Ha at 1. rewrite !string_length_app, CodecFacts.chars_app.
    rewrite string_length_app, !CodecFacts.chars_length by assumption.
    simpl String.length. lia. }
  unfold Bech32.encode.
  destruct (Nat.ltb_spec 90 (String.length p + 7 + length words)); [lia |].
  rewrite Hpl, Hchk. cbn [bind].
  rewrite CodecFacts.encode_words_spec by assumption. cbn [bind fst snd].
  rewrite fold_left_app in Hone.
  rewrite (ChecksumFacts.checksum_determined _ cs6 Hsix Hcs6 Hone).
  rewrite (CodecFacts.checksum_chars_spec cs6 Hsix Hcs6).
  f_equal. etransitivity; [| symmetry; exact Ha].
  rewrite CodecFacts.chars_app, !CodecFacts.append_assoc. reflexivity.
Qed.

Lemma convertAddressPrefix_same_prefix_witness :
  convertAddressPrefix example_account "neutron" = Ok example_account.
Proof.
  apply (convertAddressPrefix_same_prefix example_account "neutron"
           [ xf8; xb3; x80; xe7; xaf; x01; x9d; x43; x77; x25;
             x51; xad; xb8; xb3; xad; x6e; x60; x21; xab; xc7 ]).
  - vm_compute. reflexivity.
  - reflexivity.
  - vm_compute. lia.
  - discriminate.
Defined.

(** C8, counterexample.  (a) The address of the entry point written in
    uppercase is a well-formed address with the prefix "neutron"; converted
    to that prefix, or to "NEUTRON", it comes back in lowercase, not as it
    was.  (b) A well-formed address of 94 characters decodes, and
    converting it to its own prefix fails on the length limit of the
    encoder. *)
Lemma convertAddressPrefix_uppercase_and_long :
  (exists data, fromBech32 uppercase_account = Ok ("neutron", data))
  /\ convertAddressPrefix uppercase_account "neutron" = Ok example_account
  /\ convertAddressPrefix uppercase_account "NEUTRON" = Ok example_account
  /\ Ok example_account <> Ok uppercase_account
  /\ (exists data, fromBech32 long_address = Ok ("neutron", data))
  /\ convertAddressPrefix long_address "neutron" = Throw TypeError.
Proof.
  split; [eexists; vm_compute; reflexivity |].
  split; [vm_compute; reflexivity |].
  split; [vm_compute; reflexivity |].
  split; [discriminate |].
  split; [eexists; vm_compute; reflexivity |].
  vm_compute; reflexivity.
Qed.

(** * Further properties of the traversal *)

Section Results.

Variable allBalances : gmap string (list Coin).
Variable denom : string.

Abbreviation stored balances c r :=
  (exists recs : list BalanceRecord, balances !! c = Some recs /\ r ∈ recs).

(** What holds before a list of nodes is visited and is kept by the visit
    of each of them holds afterwards. *)
Lemma visit_all_invariant (I : gmap string (list BalanceRecord) -> Prop)
  (ns : list (list string * DenomTrace)) :
  (forall n b b',
      In n ns -> I b -> visit allBalances denom (fst n) (snd n) b = Ok b' ->
      I b') ->
  forall b, I b -> I (visit_all allBalances denom ns b).
Proof.
  unfold visit_all.
  induction ns as [| n ns IH]; intros Hstep b Hb; simpl; [exact Hb |].
  apply IH.
  - intros n' b1 b2 Hin. apply Hstep. now right.
  - destruct (visit allBalances denom (fst n) (snd n) b) as [b' | e] eqn:E.
    + eapply Hstep; eauto. now left.
    + exact Hb.
Qed.

Lemma push_record_stored (k : string) (r0 : BalanceRecord)
  (b : gmap string (list BalanceRecord)) (c : string) (r : BalanceRecord) :
  stored (push_record (Some k) r0 b) c r
  <-> stored b c r \/ (c = k /\ r = r0).
Proof.
  destruct (decide (k = c)) as [<- | Hne].
  - rewrite push_record_lookup. split.
    + intros (recs & [= <-] & Hin).
      apply elem_of_app in Hin as [Hin | Hin].
      * left. destruct (b !! k) as [l |]; simpl in Hin.
        -- exists l. now split.
        -- inversion Hin.
      * right. apply list_elem_of_singleton in Hin. now split.
    + intros [(recs & Hb & Hin) | [_ ->]]; eexists; split; try reflexivity.
      * rewrite Hb. simpl. apply elem_of_app. now left.
      * apply elem_of_app. right. now apply list_elem_of_singleton.
  - rewrite push_record_lookup_ne by assumption. split.
    + intros H. now left.
    + intros [H | [-> _]]; [exact H | congruence].
Qed.

(** The records after a call has run its own node: those from before, and
    the record of the node when its balance is greater than zero. *)
Lemma visit_stored (path : list string) (chain : string) (t : DenomTrace)
  (b b' : gmap string (list BalanceRecord)) :
  last path = Some chain ->
  visit allBalances denom path t b = Ok b' ->
  forall c r,
    stored b' c r
    <-> stored b c r
        \/ (c = chain
            /\ exists balance,
                 balanceOf allBalances (Some chain) t = Ok balance
                 /\ Number.gt balance Number.zero = true
                 /\ r = node_record denom path t balance).
Proof.
  intros Hlast Hv c r. unfold visit in Hv. rewrite Hlast in Hv.
  destruct (balanceOf allBalances (Some chain) t) as [balance | e] eqn:Eb;
    [| discriminate].
  cbn [bind] in Hv. rewrite positive_balance_gt in Hv.
  destruct (Number.gt balance Number.zero) eqn:Eg.
  - injection Hv as <-. rewrite push_record_stored.
    fold (node_record denom path t balance).
    split; (intros [H | [-> H]]; [now left | right; split; [reflexivity |]]).
    + exists balance. now repeat split.
    + destruct H as (balance' & [= <-] & _ & ->). reflexivity.
  - injection Hv as <-. split; [now left |].
    intros [H | [-> (balance' & [= <-] & Hgt & _)]]; [exact H | congruence].
Qed.

Lemma visit_throws_balanceOf (path : list string) (t : DenomTrace)
  (b : gmap string (list BalanceRecord)) e :
  visit allBalances denom path t b = Throw e ->
  balanceOf allBalances (last path) t = Throw e.
Proof.
  unfold visit.
  destruct (balanceOf allBalances (last path) t) as [balance | e'];
    cbn [bind]; [| congruence].
  destruct (positive_balance balance); discriminate.
Qed.

(** The records after the nodes of a list have been visited in turn. *)
Lemma visit_all_stored (ns : list (list string * DenomTrace)) :
  (forall n, In n ns -> exists chain, last (fst n) = Some chain) ->
  forall b c r,
    stored (visit_all allBalances denom ns b) c r
    <-> stored b c r
        \/ exists path t balance,
             In (path, t) ns
             /\ last path = Some c
             /\ balanceOf allBalances (Some c) t = Ok balance
             /\ Number.gt balance Number.zero = true
             /\ r = node_record denom path t balance.
Proof.
  unfold visit_all.
  induction ns as [| [path t] ns IH]; intros Hne b c r; simpl.
  - split; [now left |]. intros [H | (? & ? & ? & [] & _)]. exact H.
  - destruct (Hne (path, t) (or_introl eq_refl)) as (chain & Hlast).
    simpl in Hlast.
    rewrite IH by (intros n Hn; apply Hne; now right).
    destruct (visit allBalances denom path t b) as [b' | e] eqn:Ev.
    + rewrite (visit_stored _ _ _ _ _ Hlast Ev). split.
      * intros [[H | [-> (balance & Hb & Hg & ->)]] | H].
        -- now left.
        -- right. exists path, t, balance. repeat split; auto.
        -- right. destruct H as (p & t' & bal & Hin & H).
           exists p, t', bal. split; [now right | exact H].
      * intros [H | (p & t' & bal & [[= <- <-] | Hin] & Hl & Hb & Hg & ->)].
        -- left. now left.
        -- left. right. rewrite Hlast in Hl. injection Hl as <-.
           split; [reflexivity |]. exists bal. now repeat split.
        -- right. exists p, t', bal. now repeat split.
    + apply visit_throws_balanceOf in Ev. rewrite Hlast in Ev. split.
      * intros [H | (p & t' & bal & Hin & H)]; [now left |].
        right. exists p, t', bal. split; [now right | exact H].
      * intros [H | (p & t' & bal & [[= <- <-] | Hin] & Hl & Hb & Hg & ->)].
        -- now left.
        -- rewrite Hlast in Hl. injection Hl as <-. congruence.
        -- right. exists p, t', bal. now repeat split.
Qed.

(** A call of [DFS] keeps what the visit of each node keeps. *)
Lemma DFS_invariant (I : gmap string (list BalanceRecord) -> Prop) :
  (forall path t b b',
      I b -> visit allBalances denom path t b = Ok b' -> I b') ->
  forall fuel path t b b',
    I b -> DFS allBalances denom fuel path t b = Some (Ok b') -> I b'.
Proof.
  intros Hstep. induction fuel as [| fuel IH]; intros path t b b' Hb Hd;
    [discriminate |].
  rewrite DFS_unfold in Hd.
  destruct (visit allBalances denom path t b) as [b1 | e] eqn:Ev;
    [| discriminate].
  destruct (fold_left _ chainNames (Some b1)) as [b2 |] eqn:Ef;
    [| discriminate].
  injection Hd as <-.
  eapply (fold_hop_invariant I); [| | exact Ef].
  - intros chain next b0 b0' _ _ _ H0 Hn. eapply IH; eauto.
  - eapply Hstep; eauto.
Qed.

End Results.

(** A run that returns a mapping has read the six snapshots, and the
    mapping is what the visits of the nodes leave, in the order of the
    calls. *)
Lemma trackBalances_visit_all
  (stargate : string -> string -> result (list Coin)) (fuel : nat)
  (denom account : string) (m : gmap string (list BalanceRecord)) :
  trackBalances stargate fuel denom account = Some (Ok m) ->
  exists allBalances,
    fetchAll stargate account = Ok allBalances
    /\ m = visit_all allBalances denom
             (nodes fuel ["neutron"] {| dt_denom := denom; dt_trace := denom |})
             ∅.
Proof.
  unfold trackBalances.
  destruct (fetchAll stargate account) as [allBalances | e] eqn:Ef;
    [| discriminate].
  intros H. exists allBalances. split; [reflexivity |].
  eapply DFS_visit_all; eauto using fetchAll_lookup, path_ok_origin.
Qed.

(** With enough levels of calls the list of calls is the set of nodes. *)
Lemma nodes_iff_visited (denom : string) (fuel : nat) (path : list string)
  (t : DenomTrace) :
  length chainNames + 1 <= fuel ->
  In (path, t)
     (nodes fuel ["neutron"] {| dt_denom := denom; dt_trace := denom |})
  <-> visited denom path t.
Proof.
  intros Hfuel. split.
  - intros Hin.
    apply (nodes_visited denom fuel _ _ (path, t) (visited_origin denom) Hin).
  - intros Hv. apply (nodes_fuel_le (length path) fuel).
    + pose proof (path_ok_length path (visited_path_ok _ _ _ Hv)). lia.
    + now apply visited_nodes.
Qed.

(** X1. With seven levels of calls or more and the six snapshots read, the
    run returns a mapping that holds exactly the records of the nodes of
    the traversal whose balance is greater than zero: a record is stored
    under a chain if and only if it is the record of a node whose path
    ends at that chain and whose denom has a balance greater than zero in
    the snapshot of that chain. *)
Theorem trackBalances_records_exactly
  (stargate : string -> string -> result (list Coin)) (fuel : nat)
  (denom account : string) (allBalances : gmap string (list Coin)) :
  length chainNames + 1 <= fuel ->
  fetchAll stargate account = Ok allBalances ->
  exists m,
    trackBalances stargate fuel denom account = Some (Ok m)
    /\ forall c r,
         (exists recs, m !! c = Some recs /\ r ∈ recs)
         <-> exists path t balance,
               visited denom path t
               /\ last path = Some c
               /\ balanceOf allBalances (Some c) t = Ok balance
               /\ Number.gt balance Number.zero = true
               /\ r = node_record denom path t balance.
Proof.
  intros Hfuel Hfetch.
  destruct (trackBalances_succeeds stargate fuel denom account allBalances
              Hfuel Hfetch) as (m & Hm).
  exists m. split; [exact Hm |].
  destruct (trackBalances_visit_all _ _ _ _ _ Hm) as (ab & Hab & ->).
  rewrite Hfetch in Hab. injection Hab as <-.
  intros c r. rewrite visit_all_stored.
  - split.
    + intros [(recs & Hl & _) | (path & t & balance & Hin & H)].
      * rewrite lookup_empty in Hl. discriminate.
      * exists path, t, balance. split; [| exact H].
        now apply (nodes_iff_visited denom fuel).
    + intros (path & t & balance & Hv & H). right.
      exists path, t, balance. split; [| exact H].
      now apply (nodes_iff_visited denom fuel).
  - intros [path t] Hin. simpl.
    apply (nodes_visited denom fuel _ _ _ (visited_origin denom)) in Hin.
    destruct (path_ok_last path (visited_path_ok _ _ _ Hin)) as (chain & H & _).
    eauto.
Qed.

Lemma trackBalances_records_exactly_witness :
  exists m,
    trackBalances (origin_stargate ["5"]) 7 "untrn" example_account
    = Some (Ok m)
    /\ forall c r,
         (exists recs, m !! c = Some recs /\ r ∈ recs)
         <-> exists path t balance,
               visited "untrn" path t
               /\ last path = Some c
               /\ balanceOf (origin_allBalances ["5"]) (Some c) t = Ok balance
               /\ Number.gt balance Number.zero = true
               /\ r = node_record "untrn" path t balance.
Proof.
  apply (trackBalances_records_exactly (origin_stargate ["5"]) 7 "untrn"
           example_account (origin_allBalances ["5"])).
  - simpl. lia.
  - apply origin_fetchAll.
Defined.

(** X2. In a mapping that a run returns every key is a registered chain
    name and every list is non-empty: a chain without a balance greater
    than zero has no entry. *)
Theorem trackBalances_keys_registered
  (stargate : string -> string -> result (list Coin)) (fuel : nat)
  (denom account : string) (m : gmap string (list BalanceRecord))
  (c : string) (recs : list BalanceRecord) :
  trackBalances stargate fuel denom account = Some (Ok m) ->
  m !! c = Some recs ->
  c ∈ chainNames /\ recs <> [].
Proof.
  intros Hm.
  destruct (trackBalances_visit_all _ _ _ _ _ Hm) as (ab & Hab & ->).
  revert c recs.
  apply (visit_all_invariant ab denom
           (fun b => forall c recs,
                b !! c = Some recs -> c ∈ chainNames /\ recs <> [])).
  - intros [path t] b b' Hin Hb Hv. simpl in Hv.
    apply (nodes_visited denom fuel _ _ _ (visited_origin denom)) in Hin.
    simpl in Hin.
    destruct (path_ok_last path (visited_path_ok _ _ _ Hin))
      as (chain & Hlast & Hchain).
    destruct (visit_cases ab denom path t b)
      as [(e & He) | [Hsame | (balance & _ & Hpush)]].
    + congruence.
    + rewrite Hsame in Hv. injection Hv as <-. exact Hb.
    + rewrite Hpush in Hv. injection Hv as <-. rewrite Hlast.
      intros c recs. destruct (decide (chain = c)) as [<- | Hne].
      * rewrite push_record_lookup. intros [= <-]. split; [exact Hchain |].
        intros H. apply app_eq_nil in H as [_ H]. discriminate.
      * rewrite push_record_lookup_ne by assumption. apply Hb.
  - intros c recs H. rewrite lookup_empty in H. discriminate.
Qed.

Lemma trackBalances_keys_registered_witness :
  "neutron" ∈ chainNames /\ [example_record] <> [].
Proof.
  apply (trackBalances_keys_registered (origin_stargate ["5"]) 7 "untrn"
           example_account {[ "neutron" := [example_record] ]}).
  - apply example_run.
  - reflexivity.
Defined.

(** X3. A call of [DFS] only appends: every list that the mapping holds
    when the call starts is still there when it returns, under the same
    key and with the same records in the same places at its front. *)
Theorem DFS_only_appends (allBalances : gmap string (list Coin))
  (denom : string) (fuel : nat) (path : list string) (t : DenomTrace)
  (b b' : gmap string (list BalanceRecord)) :
  DFS allBalances denom fuel path t b = Some (Ok b') ->
  forall c recs,
    b !! c = Some recs -> exists more, b' !! c = Some (recs ++ more).
Proof.
  intros Hd.
  refine (DFS_invariant allBalances denom
            (fun b1 => forall c recs,
                 b !! c = Some recs ->
                 exists more, b1 !! c = Some (recs ++ more))
            _ fuel path t b b' _ Hd).
  - intros path1 t1 b1 b1' Hb1 Hv c recs Hc.
    destruct (Hb1 c recs Hc) as (more & Hmore).
    destruct (visit_cases allBalances denom path1 t1 b1)
      as [(e & He) | [Hsame | (balance & _ & Hpush)]].
    + congruence.
    + rewrite Hsame in Hv. injection Hv as <-. eauto.
    + rewrite Hpush in Hv. injection Hv as <-.
      set (k := js_to_string (last path1)).
      assert (Hk : push_record (last path1)
                     (node_record denom path1 t1 balance) b1
                   = push_record (Some k)
                       (node_record denom path1 t1 balance) b1)
        by reflexivity.
      rewrite Hk. destruct (decide (k = c)) as [<- | Hne].
      * rewrite push_record_lookup, Hmore. simpl.
        exists (more ++ [node_record denom path1 t1 balance]).
        now rewrite app_assoc.
      * rewrite push_record_lookup_ne by assumption. eauto.
  - intros c recs Hc. exists []. now rewrite app_nil_r.
Qed.

Lemma DFS_only_appends_witness :
  exists more,
    push_record (Some "stride")
      (node_record "untrn"
         ["neutron"; "osmosis"; "neutron"; "terra"; "stargaze"; "cosmoshub";
          "stride"] untrn (parseFloat "2"))
      {[ "neutron" := [example_record] ]} !! "neutron"
    = Some ([example_record] ++ more).
Proof.
  apply (DFS_only_appends
           (<["stride" := [ {| coin_denom := "untrn"; coin_amount := "2" |} ]]>
              (origin_allBalances ["5"]))
           "untrn" 1
           ["neutron"; "osmosis"; "neutron"; "terra"; "stargaze"; "cosmoshub";
            "stride"] untrn
           {[ "neutron" := [example_record] ]}).
  - vm_compute. reflexivity.
  - reflexivity.
Defined.

(** Between two different registered chains a channel is registered in
    each direction. *)
Lemma registered_edge (src dest : string) :
  In src chainNames -> In dest chainNames -> src <> dest ->
  exists srcId destId row channelId,
    obj_get chainNameToIdMap src = Some srcId
    /\ obj_get chainNameToIdMap dest = Some destId
    /\ obj_get IBCMap destId = Some row
    /\ obj_get row srcId = Some channelId.
Proof.
  intros Hs Hd Hne. simpl in Hs, Hd.
  repeat (destruct Hs as [<- | Hs]; [| try contradiction]);
    repeat (destruct Hd as [<- | Hd]; [| try contradiction]);
    try congruence;
    do 4 eexists; repeat split; reflexivity.
Qed.

Lemma getDenom_on_edge (src dest srcId destId channelId : string)
  (row : list (string * string)) (t : DenomTrace) :
  obj_get chainNameToIdMap src = Some srcId ->
  obj_get chainNameToIdMap dest = Some destId ->
  obj_get IBCMap destId = Some row ->
  obj_get row srcId = Some channelId ->
  getDenom src dest t
  = Ok {| dt_denom :=
            "ibc/" +:+
            uppercaseHex
              (sha256
                 (toUtf8 ("transfer/" +:+ channelId +:+ "/" +:+ dt_trace t)));
          dt_trace := "transfer/" +:+ channelId +:+ "/" +:+ dt_trace t |}.
Proof.
  intros Hs Hd Hrow Hch. unfold getDenom. rewrite Hs, Hd.
  cbn [js_to_string]. rewrite Hrow, Hch. cbn [js_to_string].
  unfold hash. rewrite toUpperCase_toHex. reflexivity.
Qed.

(** What [getDenom] returns, whichever way the lookups go. *)
Lemma getDenom_returns (src dest : string) (t next : DenomTrace) :
  getDenom src dest t = Ok next ->
  dt_trace next
  = "transfer/" +:+
    js_to_string
      (channelTable (js_to_string (obj_get chainNameToIdMap dest))
         (js_to_string (obj_get chainNameToIdMap src)))
    +:+ "/" +:+ dt_trace t
  /\ dt_denom next
     = "ibc/" +:+ uppercaseHex (sha256 (toUtf8 (dt_trace next))).
Proof.
  unfold getDenom, channelTable.
  destruct (obj_get IBCMap (js_to_string (obj_get chainNameToIdMap dest)))
    as [row |]; [| discriminate].
  intros [= <-]. cbn [dt_trace dt_denom]. unfold hash.
  rewrite toUpperCase_toHex. split; reflexivity.
Qed.

(** X4. Inside the traversal [getDenom] is only called on registered
    edges: from a node, every registered chain that passes the test of
    source line 220 differs from the chain at the end of the path, a
    channel is registered for the hop, the call returns the hashed denom
    of the extended trace (it neither throws nor interpolates
    "undefined"), and the hop leads to a node. *)
Theorem traversal_hops_registered (denom : string) (path : list string)
  (t : DenomTrace) (chain : string) :
  visited denom path t ->
  In chain chainNames ->
  eligible path chain = true ->
  exists src channelId,
    last path = Some src
    /\ In src chainNames
    /\ src <> chain
    /\ channelTable (js_to_string (obj_get chainNameToIdMap chain))
         (js_to_string (obj_get chainNameToIdMap src)) = Some channelId
    /\ getDenom (js_to_string (last path)) chain t
       = Ok {| dt_denom :=
                 "ibc/" +:+
                 uppercaseHex
                   (sha256
                      (toUtf8
                         ("transfer/" +:+ channelId +:+ "/" +:+ dt_trace t)));
               dt_trace := "transfer/" +:+ channelId +:+ "/" +:+ dt_trace t |}
    /\ visited denom (path ++ [chain])
         {| dt_denom :=
              "ibc/" +:+
              uppercaseHex
                (sha256
                   (toUtf8 ("transfer/" +:+ channelId +:+ "/" +:+ dt_trace t)));
            dt_trace := "transfer/" +:+ channelId +:+ "/" +:+ dt_trace t |}.
Proof.
  intros Hv Hchain Hel.
  destruct (path_ok_last path (visited_path_ok _ _ _ Hv)) as (src & Hlast & Hsrc).
  apply list_elem_of_In in Hsrc.
  assert (Hne : src <> chain).
  { apply eligible_spec in Hel as [_ H]. congruence. }
  destruct (registered_edge src chain Hsrc Hchain Hne)
    as (srcId & destId & row & channelId & Hs & Hd & Hrow & Hch).
  pose proof (getDenom_on_edge _ _ _ _ _ _ t Hs Hd Hrow Hch) as Hg.
  exists src, channelId. rewrite Hlast. cbn [js_to_string].
  repeat split; try assumption.
  - rewrite Hs, Hd. cbn [js_to_string]. unfold channelTable.
    now rewrite Hrow.
  - apply visited_hop with (denomTrace := t); try assumption.
    rewrite Hlast. exact Hg.
Qed.

Lemma traversal_hops_registered_witness :
  exists src channelId,
    last ["neutron"] = Some src
    /\ In src chainNames
    /\ src <> "osmosis"
    /\ channelTable (js_to_string (obj_get chainNameToIdMap "osmosis"))
         (js_to_string (obj_get chainNameToIdMap src)) = Some channelId
    /\ getDenom (js_to_string (last ["neutron"])) "osmosis" untrn
       = Ok {| dt_denom :=
                 "ibc/" +:+
                 uppercaseHex
                   (sha256
                      (toUtf8
                         ("transfer/" +:+ channelId +:+ "/" +:+ dt_trace untrn)));
               dt_trace :=
                 "transfer/" +:+ channelId +:+ "/" +:+ dt_trace untrn |}
    /\ visited "untrn" (["neutron"] ++ ["osmosis"])
         {| dt_denom :=
              "ibc/" +:+
              uppercaseHex
                (sha256
                   (toUtf8
                      ("transfer/" +:+ channelId +:+ "/" +:+ dt_trace untrn)));
            dt_trace := "transfer/" +:+ channelId +:+ "/" +:+ dt_trace untrn |}.
Proof.
  apply (traversal_hops_registered "untrn" ["neutron"] untrn "osmosis").
  - apply visited_origin.
  - simpl. tauto.
  - reflexivity.
Defined.

Lemma walk_snoc (rest : list string) :
  forall (current chain : string) (t0 : DenomTrace),
    walk current (rest ++ [chain]) t0
    = try! t := walk current rest t0 in
      getDenom (js_to_string (last (current :: rest))) chain t.
Proof.
  induction rest as [| next rest IH]; intros current chain t0.
  - simpl. destruct (getDenom current chain t0); reflexivity.
  - cbn [app walk]. destruct (getDenom current next t0) as [t1 | e];
      cbn [bind]; [| reflexivity].
    rewrite IH. reflexivity.
Qed.

Lemma route_snoc (rest : list string) :
  forall (current chain acc : string),
    route current (rest ++ [chain]) acc
    = "transfer/" +:+
      js_to_string
        (channelTable (js_to_string (obj_get chainNameToIdMap chain))
           (js_to_string
              (obj_get chainNameToIdMap
                 (js_to_string (last (current :: rest))))))
      +:+ "/" +:+ route current rest acc.
Proof.
  induction rest as [| next rest IH]; intros current chain acc.
  - reflexivity.
  - cbn [app route]. rewrite IH. reflexivity.
Qed.

(** The trace at a node is the one that [getDenom] gives hop by hop along
    the path of the node. *)
Lemma visited_trace (denom : string) (path : list string) (t : DenomTrace) :
  visited denom path t ->
  trace_of_path denom path = Ok t
  /\ dt_trace t = route "neutron" (tail path) denom
  /\ (path = ["neutron"] -> dt_denom t = denom)
  /\ (path <> ["neutron"] ->
      dt_denom t = "ibc/" +:+ uppercaseHex (sha256 (toUtf8 (dt_trace t)))).
Proof.
  induction 1 as [| path t chain next Hv (IHw & IHr & _) Hchain Hel Hg].
  - repeat split; try reflexivity. congruence.
  - pose proof (visited_path_ok _ _ _ Hv) as Hok.
    destruct path as [| origin rest]; [now apply path_ok_nonempty in Hok |].
    assert (origin = "neutron") as -> by (destruct Hok as ([= ->] & _); reflexivity).
    destruct (getDenom_returns _ _ _ _ Hg) as (Htr & Hden).
    repeat split.
    + cbn [app trace_of_path] in *. rewrite walk_snoc, IHw. exact Hg.
    + cbn [app tail] in *. rewrite route_snoc, Htr, IHr. reflexivity.
    + destruct rest; discriminate.
    + intros _. exact Hden.
Qed.

(** X5. Every record of a run is accounted for by its path: its origin
    denom is the base denom of the run, and its denom is the one that
    [getDenom] gives when it is applied hop by hop along the path, from
    the base denom at the origin.  The trace behind it is one segment
    "transfer/<channel>/" per hop, the last hop first, in front of the
    base denom; the denom is the base denom itself for the path that
    stays at the origin, and "ibc/" followed by the uppercase hexadecimal
    SHA-256 digest of the trace otherwise. *)
Theorem record_denom_from_path
  (stargate : string -> string -> result (list Coin)) (fuel : nat)
  (denom account : string) (m : gmap string (list BalanceRecord))
  (c : string) (recs : list BalanceRecord) (r : BalanceRecord) :
  trackBalances stargate fuel denom account = Some (Ok m) ->
  m !! c = Some recs ->
  r ∈ recs ->
  br_originDenom r = denom
  /\ exists t,
       trace_of_path denom (br_path r) = Ok t
       /\ br_denom r = dt_denom t
       /\ dt_trace t = route "neutron" (tail (br_path r)) denom
       /\ (br_path r = ["neutron"] -> br_denom r = denom)
       /\ (br_path r <> ["neutron"] ->
           br_denom r
           = "ibc/" +:+ uppercaseHex (sha256 (toUtf8 (dt_trace t)))).
Proof.
  intros Hm Hc Hr.
  destruct (trackBalances_visit_all _ _ _ _ _ Hm) as (ab & Hab & ->).
  assert (Hnodes : forall n,
    In n (nodes fuel ["neutron"] {| dt_denom := denom; dt_trace := denom |}) ->
    visited denom (fst n) (snd n)).
  { intros n. apply nodes_visited. apply visited_origin. }
  assert (Hs : exists recs0 : list BalanceRecord,
             visit_all ab denom
               (nodes fuel ["neutron"]
                  {| dt_denom := denom; dt_trace := denom |}) ∅ !! c
             = Some recs0 /\ r ∈ recs0) by eauto.
  apply visit_all_stored in Hs.
  - destruct Hs as [(recs0 & Hl & _) | (path & t & balance & Hin & _ & _ & _ & ->)].
    + rewrite lookup_empty in Hl. discriminate.
    + apply Hnodes in Hin. simpl in Hin.
      destruct (visited_trace _ _ _ Hin) as (Hw & Hroute & Horigin & Hhop).
      split; [reflexivity |]. exists t. cbn [node_record br_path br_denom].
      repeat split; assumption.
  - intros n Hin. apply Hnodes in Hin.
    destruct (path_ok_last _ (visited_path_ok _ _ _ Hin)) as (chain & Hl & _).
    eauto.
Qed.

Lemma record_denom_from_path_witness :
  br_originDenom example_record = "untrn"
  /\ exists t,
       trace_of_path "untrn" (br_path example_record) = Ok t
       /\ br_denom example_record = dt_denom t
       /\ dt_trace t = route "neutron" (tail (br_path example_record)) "untrn"
       /\ (br_path example_record = ["neutron"] ->
           br_denom example_record = "untrn")
       /\ (br_path example_record <> ["neutron"] ->
           br_denom example_record
           = "ibc/" +:+ uppercaseHex (sha256 (toUtf8 (dt_trace t)))).
Proof.
  apply (record_denom_from_path (origin_stargate ["5"]) 7 "untrn"
           example_account {[ "neutron" := [example_record] ]} "neutron"
           [example_record]).
  - apply example_run.
  - reflexivity.
  - apply list_elem_of_singleton. reflexivity.
Defined.

Lemma string_forallb_app (f : ascii -> bool) (s s' : string) :
  string_forallb f (s +:+ s') = string_forallb f s && string_forallb f s'.
Proof.
  induction s as [| c s IH]; [reflexivity |].
  change (String c s +:+ s') with (String c (s +:+ s')).
  cbn [string_forallb]. rewrite IH. now rewrite andb_assoc.
Qed.

Lemma uppercaseHex_digits (data : list byte) :
  string_forallb is_upper_hex (uppercaseHex data) = true.
Proof.
  induction data as [| b data IH]; [reflexivity |].
  cbn [uppercaseHex]. rewrite string_forallb_app, IH, andb_true_r.
  destruct b; reflexivity.
Qed.

Lemma toHex_digits (data : list byte) :
  string_forallb is_lower_hex (toHex data) = true.
Proof.
  induction data as [| b data IH]; [reflexivity |].
  cbn [toHex]. rewrite string_forallb_app, IH, andb_true_r.
  destruct b; reflexivity.
Qed.

Lemma toHex_length (data : list byte) :
  String.length (toHex data) = 2 * length data.
Proof.
  induction data as [| b data IH]; [reflexivity |].
  cbn [toHex length]. rewrite string_length_app, IH.
  replace (String.length (hex_byte "0123456789abcdef" b)) with 2
    by (destruct b; reflexivity).
  lia.
Qed.

(** X6. [hash] returns 64 characters, each a digit or a letter from a to
    f, whatever the text; its uppercase form is the hexadecimal text in
    uppercase of the same digest. *)
Theorem hash_shape (s : string) :
  String.length (hash s) = 64
  /\ string_forallb is_lower_hex (hash s) = true
  /\ toUpperCase (hash s) = uppercaseHex (sha256 (toUtf8 s)).
Proof.
  unfold hash. repeat split.
  - rewrite toHex_length, sha256_length. reflexivity.
  - apply toHex_digits.
  - apply toUpperCase_toHex.
Qed.

(** X7. Whenever [getDenom] returns, the denom is "ibc/" followed by 64
    characters, each a digit or a letter from A to F: the digest of the
    returned trace, which is the given trace behind one more segment
    "transfer/<channel>/". *)
Theorem getDenom_denom_shape (srcChain destChain : string)
  (t next : DenomTrace) :
  getDenom srcChain destChain t = Ok next ->
  exists h channel,
    dt_denom next = "ibc/" +:+ h
    /\ String.length h = 64
    /\ string_forallb is_upper_hex h = true
    /\ h = uppercaseHex (sha256 (toUtf8 (dt_trace next)))
    /\ dt_trace next = "transfer/" +:+ channel +:+ "/" +:+ dt_trace t.
Proof.
  intros Hg. destruct (getDenom_returns _ _ _ _ Hg) as (Htr & Hden).
  eexists. eexists. split; [exact Hden |]. repeat split.
  - rewrite uppercaseHex_length, sha256_length. reflexivity.
  - apply uppercaseHex_digits.
  - exact Htr.
Qed.

Lemma getDenom_denom_shape_witness :
  exists h channel,
    dt_denom {| dt_denom := untrn_on_osmosis;
                dt_trace := "transfer/channel-874/untrn" |}
    = "ibc/" +:+ h
    /\ String.length h = 64
    /\ string_forallb is_upper_hex h = true
    /\ h = uppercaseHex
             (sha256
                (toUtf8
                   (dt_trace {| dt_denom := untrn_on_osmosis;
                                dt_trace := "transfer/channel-874/untrn" |})))
    /\ dt_trace {| dt_denom := untrn_on_osmosis;
                   dt_trace := "transfer/channel-874/untrn" |}
       = "transfer/" +:+ channel +:+ "/" +:+ dt_trace untrn.
Proof.
  apply (getDenom_denom_shape "neutron" "osmosis" untrn).
  apply getDenom_untrn_on_osmosis.
Defined.

(** * The number of calls *)






(** * Reading the snapshots *)

Lemma fetchAll_fold (stargate : string -> string -> result (list Coin))
  (account : string) :
  fetchAll stargate account
  = fold_left (fetch_step stargate account) chainNames (Ok ∅).
Proof. reflexivity. Qed.

Lemma fetch_fold_throw (stargate : string -> string -> result (list Coin))
  (account : string) (chains : list string) e :
  fold_left (fetch_step stargate account) chains (Throw e) = Throw e.
Proof. induction chains as [| c chains IH]; [reflexivity | exact IH]. Qed.

(** What one turn that succeeds has done. *)
Lemma fetch_step_ok (stargate : string -> string -> result (list Coin))
  (account : string) (acc : result (gmap string (list Coin))) (chain : string)
  (allBalances : gmap string (list Coin)) :
  fetch_step stargate account acc chain = Ok allBalances ->
  exists before newPrefix rpc address coins,
    acc = Ok before
    /\ obj_get chainPrefix chain = Some newPrefix
    /\ obj_get RpcUrls chain = Some rpc
    /\ convertAddressPrefix account newPrefix = Ok address
    /\ stargate rpc address = Ok coins
    /\ allBalances = <[chain := coins]> before.
Proof.
  unfold fetch_step, getAllBalances.
  destruct acc as [before | e]; [| discriminate]. cbn [bind].
  destruct (obj_get chainPrefix chain) as [newPrefix |].
  - destruct (convertAddressPrefix account newPrefix) as [address | e] eqn:Ea;
      [| discriminate].
    cbn [bind]. destruct (obj_get RpcUrls chain) as [rpc |]; [| discriminate].
    destruct (stargate rpc address) as [coins | e] eqn:Es; [| discriminate].
    cbn [bind]. intros [= <-].
    exists before, newPrefix, rpc, address, coins. now repeat split.
  - destruct (fromBech32 account); discriminate.
Qed.

Lemma fetch_fold_ok (stargate : string -> string -> result (list Coin))
  (account : string) (chains : list string) :
  NoDup chains ->
  forall (before allBalances : gmap string (list Coin)),
    fold_left (fetch_step stargate account) chains (Ok before)
    = Ok allBalances ->
    forall chain,
      (In chain chains ->
       exists newPrefix rpc address coins,
         obj_get chainPrefix chain = Some newPrefix
         /\ obj_get RpcUrls chain = Some rpc
         /\ convertAddressPrefix account newPrefix = Ok address
         /\ stargate rpc address = Ok coins
         /\ allBalances !! chain = Some coins)
      /\ (~ In chain chains -> allBalances !! chain = before !! chain).
Proof.
  induction 1 as [| c chains Hc Hnd IH]; intros before allBalances Hf chain.
  - injection Hf as <-. split; [intros [] | reflexivity].
  - cbn [fold_left] in Hf.
    destruct (fetch_step stargate account (Ok before) c) as [next | e] eqn:Es.
    + destruct (fetch_step_ok _ _ _ _ _ Es)
        as (b0 & newPrefix & rpc & address & coins & [= <-] & Hp & Hr & Ha
            & Hq & ->).
      destruct (IH _ _ Hf chain) as (Hin & Hout).
      destruct (IH _ _ Hf c) as (_ & Hc').
      split.
      * intros [<- | Hchain]; [| now apply Hin].
        exists newPrefix, rpc, address, coins. repeat split; try assumption.
        rewrite Hc' by (now rewrite <- list_elem_of_In).
        apply lookup_insert_eq.
      * intros Hn. rewrite Hout by (intros H; apply Hn; now right).
        apply lookup_insert_ne. intros ->. apply Hn. now left.
    + rewrite fetch_fold_throw in Hf. discriminate.
Qed.

Lemma chainNames_NoDup : NoDup chainNames.
Proof.
  repeat (apply NoDup_cons; split;
          [rewrite list_elem_of_In; simpl; intuition discriminate |]).
  apply NoDup_nil. exact I.
Qed.

(** The snapshot of one registered chain after a fetch that succeeds. *)
Lemma fetchAll_chain (stargate : string -> string -> result (list Coin))
  (account : string) (allBalances : gmap string (list Coin)) (chain : string) :
  fetchAll stargate account = Ok allBalances ->
  In chain chainNames ->
  exists newPrefix rpc address coins,
    obj_get chainPrefix chain = Some newPrefix
    /\ obj_get RpcUrls chain = Some rpc
    /\ convertAddressPrefix account newPrefix = Ok address
    /\ stargate rpc address = Ok coins
    /\ allBalances !! chain = Some coins.
Proof.
  rewrite fetchAll_fold. intros Hf.
  apply (fetch_fold_ok stargate account chainNames chainNames_NoDup ∅
           allBalances Hf chain).
Qed.

(** X9. An account that the address decoder rejects fails the fetch with
    the decoder's exception, and the run with it before any call of
    [DFS]: the outcome is the same with no level of calls at all. *)
Theorem fetchAll_invalid_account
  (stargate : string -> string -> result (list Coin)) (account : string) e :
  fromBech32 account = Throw e ->
  fetchAll stargate account = Throw e
  /\ forall fuel denom,
       trackBalances stargate fuel denom account = Some (Throw e).
Proof.
  intros Hbad.
  assert (Hf : fetchAll stargate account = Throw e).
  { rewrite fetchAll_fold.
    change chainNames with ("neutron" :: tl chainNames). cbn [fold_left].
    assert (Hs : fetch_step stargate account (Ok ∅) "neutron" = Throw e).
    { unfold fetch_step. cbn [bind].
      change (obj_get chainPrefix "neutron") with (Some "neutron").
      unfold convertAddressPrefix.
      change ("neutron" =? "terra")%string with false.
      cbv iota. rewrite Hbad. reflexivity. }
    rewrite Hs. apply fetch_fold_throw. }
  split; [exact Hf |]. intros fuel denom. unfold trackBalances.
  now rewrite Hf.
Qed.

Lemma fetchAll_invalid_account_witness :
  fetchAll (origin_stargate ["5"]) "not an address" = Throw Error
  /\ forall fuel denom,
       trackBalances (origin_stargate ["5"]) fuel denom "not an address"
       = Some (Throw Error).
Proof.
  apply (fetchAll_invalid_account (origin_stargate ["5"]) "not an address").
  vm_compute. reflexivity.
Defined.

(** X10. The fetch is all or nothing: when the endpoint of one registered
    chain fails every query, the fetch fails and the run returns no
    mapping, whatever the other five endpoints answer. *)
Theorem fetchAll_fails_with_one_endpoint
  (stargate : string -> string -> result (list Coin)) (account : string)
  (chain rpc : string) :
  In chain chainNames ->
  obj_get RpcUrls chain = Some rpc ->
  (forall address, exists e, stargate rpc address = Throw e) ->
  exists e,
    fetchAll stargate account = Throw e
    /\ forall fuel denom,
         trackBalances stargate fuel denom account = Some (Throw e).
Proof.
  intros Hchain Hrpc Hdown.
  assert (Hf : exists e, fetchAll stargate account = Throw e).
  { destruct (fetchAll stargate account) as [allBalances |e] eqn:Hf; [| eauto].
    destruct (fetchAll_chain _ _ _ chain Hf Hchain)
      as (newPrefix & rpc' & address & coins & _ & Hr & _ & Hq & _).
    rewrite Hrpc in Hr. injection Hr as <-.
    destruct (Hdown address) as (e & He). congruence. }
  destruct Hf as (e & Hf). exists e. split; [exact Hf |].
  intros fuel denom. unfold trackBalances. now rewrite Hf.
Qed.

Lemma fetchAll_fails_with_one_endpoint_witness :
  exists e,
    fetchAll
      (fun rpc account =>
         if String.eqb rpc "https://rpc.osmosis.zone"
         then Throw Error else Ok [])
      example_account = Throw e
    /\ forall fuel denom,
         trackBalances
           (fun rpc account =>
              if String.eqb rpc "https://rpc.osmosis.zone"
              then Throw Error else Ok [])
           fuel denom example_account = Some (Throw e).
Proof.
  apply (fetchAll_fails_with_one_endpoint
           (fun rpc account =>
              if String.eqb rpc "https://rpc.osmosis.zone"
              then Throw Error else Ok [])
           example_account "osmosis" "https://rpc.osmosis.zone").
  - simpl. tauto.
  - reflexivity.
  - intros address. exists Error. reflexivity.
Defined.

(** X11. A fetch that succeeds holds one snapshot for each registered
    chain and nothing else: the snapshot of a chain is the answer of the
    endpoint of that chain to the query for the account re-encoded under
    the address prefix of that chain. *)
Theorem fetchAll_snapshots
  (stargate : string -> string -> result (list Coin)) (account : string)
  (allBalances : gmap string (list Coin)) (chain : string) :
  fetchAll stargate account = Ok allBalances ->
  (In chain chainNames ->
   exists newPrefix rpc address coins,
     obj_get chainPrefix chain = Some newPrefix
     /\ obj_get RpcUrls chain = Some rpc
     /\ convertAddressPrefix account newPrefix = Ok address
     /\ stargate rpc address = Ok coins
     /\ allBalances !! chain = Some coins)
  /\ (~ In chain chainNames -> allBalances !! chain = None).
Proof.
  rewrite fetchAll_fold. intros Hf.
  destruct (fetch_fold_ok stargate account chainNames chainNames_NoDup ∅
              allBalances Hf chain) as (Hin & Hout).
  split; [exact Hin |]. intros Hn. rewrite Hout by assumption.
  apply lookup_empty.
Qed.

Lemma fetchAll_snapshots_witness :
  (In "osmosis" chainNames ->
   exists newPrefix rpc address coins,
     obj_get chainPrefix "osmosis" = Some newPrefix
     /\ obj_get RpcUrls "osmosis" = Some rpc
     /\ convertAddressPrefix example_account newPrefix = Ok address
     /\ origin_stargate ["5"] rpc address = Ok coins
     /\ origin_allBalances ["5"] !! "osmosis" = Some coins)
  /\ (~ In "osmosis" chainNames -> origin_allBalances ["5"] !! "osmosis" = None).
Proof.
  apply (fetchAll_snapshots (origin_stargate ["5"]) example_account).
  apply origin_fetchAll.
Defined.

(** X12. The snapshot of Terra does not depend on the account: two
    fetches that succeed against the same endpoints hold the same Terra
    balances, those of the fixed address of source line 119, whatever the
    two accounts are. *)
Theorem fetchAll_terra_same_for_all_accounts
  (stargate : string -> string -> result (list Coin))
  (account account' : string) (allBalances allBalances' : gmap string (list Coin)) :
  fetchAll stargate account = Ok allBalances ->
  fetchAll stargate account' = Ok allBalances' ->
  exists rpc coins,
    obj_get RpcUrls "terra" = Some rpc
    /\ stargate rpc "terra1w7mtx2g478kkhs6pgynpcjpt6aw4930q34j36v" = Ok coins
    /\ allBalances !! "terra" = Some coins
    /\ allBalances' !! "terra" = Some coins.
Proof.
  intros Hf Hf'.
  assert (Hterra : In "terra" chainNames) by (simpl; tauto).
  destruct (fetchAll_chain _ _ _ "terra" Hf Hterra)
    as (p & rpc & address & coins & Hp & Hr & Ha & Hq & Hl).
  destruct (fetchAll_chain _ _ _ "terra" Hf' Hterra)
    as (p' & rpc' & address' & coins' & Hp' & Hr' & Ha' & Hq' & Hl').
  injection Hp as <-. injection Hp' as <-.
  rewrite Hr in Hr'. injection Hr' as <-.
  injection Ha as <-. injection Ha' as <-.
  exists rpc, coins. repeat split; congruence.
Qed.

Lemma fetchAll_terra_same_for_all_accounts_witness :
  exists rpc coins,
    obj_get RpcUrls "terra" = Some rpc
    /\ origin_stargate ["5"] rpc "terra1w7mtx2g478kkhs6pgynpcjpt6aw4930q34j36v"
       = Ok coins
    /\ origin_allBalances ["5"] !! "terra" = Some coins
    /\ origin_allBalances ["5"] !! "terra" = Some coins.
Proof.
  apply (fetchAll_terra_same_for_all_accounts (origin_stargate ["5"])
           example_account uppercase_account);
    [apply origin_fetchAll | vm_compute; reflexivity].
Defined.

(** * The address codec, from bytes to text and back *)

Module RoundTripFacts.
Import Bech32 Bech32Facts ChecksumFacts CodecFacts.

Lemma byte_of_to_Z (b : byte) : Sha256.byte_of_Z (Sha256.byte_to_Z b) = b.
Proof.
  unfold Sha256.byte_of_Z, Sha256.byte_to_Z.
  rewrite N2Z.id, Byte.of_to_N. reflexivity.
Qed.

Lemma byte_to_Z_range (b : byte) : (0 <= Sha256.byte_to_Z b < 2 ^ 8)%Z.
Proof.
  unfold Sha256.byte_to_Z. pose proof (Byte.to_N_bounded b).
  change (2 ^ 8)%Z with 256%Z. lia.
Qed.

Lemma bytes_range (bytes : list byte) :
  Forall (fun d => 0 <= d < 2 ^ 8)%Z (map Sha256.byte_to_Z bytes).
Proof.
  induction bytes as [| b bytes IH]; constructor;
    [apply byte_to_Z_range | exact IH].
Qed.

(** The words of [toWords]: five-bit values that write the number of the
    bytes, shifted left by the padding. *)
Lemma toWords_spec (bytes : list byte) :
  exists p : Z,
    (0 <= p < 5)%Z
    /\ Forall (fun w => 0 <= w < 2 ^ 5)%Z (toWords bytes)
    /\ (5 * Z.of_nat (length (toWords bytes))
        = 8 * Z.of_nat (length bytes) + p)%Z
    /\ (num 5 (toWords bytes)
        = num 8 (map Sha256.byte_to_Z bytes) * 2 ^ p)%Z.
Proof.
  unfold toWords, convert.
  pose proof (convert_loop_inv 8 5 ltac:(lia) ltac:(lia) ltac:(lia)
                (map Sha256.byte_to_Z bytes) [] 0%Z 0%Z []
                (conv_inv_start 8 5) ltac:(lia) (bytes_range bytes)) as H.
  destruct (convert_loop (map Sha256.byte_to_Z bytes) 8 5 0 0 [])
    as [[v b] res].
  simpl in H. destruct H as ((Hb0 & Hn & Hl & Hr) & Hb5).
  rewrite length_map in Hl.
  destruct (Z.ltb_spec 0 b) as [Hpos | Hzero].
  - assert (Hlast :
      (Z.land (wrap32 (Z.shiftl v (5 - b))) (Z.shiftl 1 5 - 1)
       = v mod 2 ^ b * 2 ^ (5 - b))%Z).
    { rewrite land_mask by lia.
      replace 5%Z with ((5 - b) + b)%Z at 2 by lia.
      apply wrap32_shift_mod; lia. }
    exists (5 - b)%Z. split; [lia |]. split; [| split].
    + apply Forall_app. split; [assumption |]. constructor; [| constructor].
      rewrite land_mask by lia. apply Z.mod_pos_bound. lia.
    + rewrite length_app. simpl length. lia.
    + rewrite Hlast, num_snoc, <- Hn.
      replace (2 ^ 5)%Z with (2 ^ b * 2 ^ (5 - b))%Z.
      * ring.
      * rewrite <- Z.pow_add_r by lia. f_equal. lia.
  - assert (b = 0)%Z by lia. subst b.
    exists 0%Z. split; [lia |]. split; [assumption |]. split; [lia |].
    rewrite <- Hn. change (2 ^ 0)%Z with 1%Z. rewrite Z.mod_1_r. ring.
Qed.

(** Regrouping the words of [toWords] gives the bytes back. *)
Lemma fromWords_toWords (bytes : list byte) :
  fromWords (toWords bytes) = Ok bytes.
Proof.
  destruct (toWords_spec bytes) as (p & Hp & Hw & Hlen & Hnum).
  unfold fromWords, convert.
  pose proof (convert_loop_inv 5 8 ltac:(lia) ltac:(lia) ltac:(lia)
                (toWords bytes) [] 0%Z 0%Z [] (conv_inv_start 5 8)
                ltac:(lia) Hw) as H.
  destruct (convert_loop (toWords bytes) 5 8 0 0 []) as [[v b] res].
  simpl in H. destruct H as ((Hb0 & Hn & Hl & Hr) & Hb8).
  assert (Hb : b = p) by lia.
  assert (Hres : length res = length bytes) by lia.
  subst b.
  assert (Hpow : (0 < 2 ^ p)%Z) by (apply Z.pow_pos_nonneg; lia).
  assert (Hv : (v mod 2 ^ p = 0)%Z).
  { pose proof (Z.mod_pos_bound v (2 ^ p)%Z Hpow) as Hbound.
    rewrite Hnum in Hn.
    set (k := (num 8 (map Sha256.byte_to_Z bytes) - num 8 res)%Z).
    assert (Hdiv : (v mod 2 ^ p = k * 2 ^ p)%Z) by (unfold k; lia).
    assert (Hk : (k <= -1 \/ k = 0 \/ 1 <= k)%Z) by lia.
    destruct Hk as [Hk | [Hk | Hk]]; [nia | | nia].
    rewrite Hdiv, Hk. reflexivity. }
  destruct (Z.leb_spec 5 p) as [| _]; [lia |].
  assert (Hpad :
    (Z.land (wrap32 (Z.shiftl v (8 - p))) (Z.shiftl 1 8 - 1) = 0)%Z).
  { rewrite land_mask by lia.
    replace 8%Z with ((8 - p) + p)%Z at 2 by lia.
    rewrite wrap32_shift_mod by lia. rewrite Hv. reflexivity. }
  rewrite Hpad. cbn [Z.eqb negb bind]. f_equal.
  assert (E : res = map Sha256.byte_to_Z bytes).
  { apply (num_inj 8); try lia.
    - now rewrite length_map.
    - assumption.
    - apply bytes_range.
    - rewrite Hv, Z.add_0_r, Hnum in Hn.
      apply Z.mul_cancel_r in Hn; [exact Hn | lia]. }
  rewrite E, map_map. rewrite <- (map_id bytes) at 2.
  apply map_ext. intros a. apply byte_of_to_Z.
Qed.


(** The state of the checksum is below [2 ^ 30] after every step. *)
Lemma polymodStep_bound (pre : Z) : (0 <= polymodStep pre < 2 ^ 30)%Z.
Proof.
  unfold polymodStep.
  assert (H1 : (0 <= Z.shiftl (Z.land pre 33554431) 5 < 2 ^ 30)%Z).
  { change 33554431%Z with (Z.ones 25).
    rewrite Z.land_ones, Z.shiftl_mul_pow2 by lia.
    pose proof (Z.mod_pos_bound pre (2 ^ 25)%Z ltac:(lia)).
    change (2 ^ 30)%Z with (2 ^ 25 * 2 ^ 5)%Z. nia. }
  repeat apply lxor_below; try lia;
    match goal with
    | |- context [Z.land (- Z.land (Z.shiftr ?b ?k) 1) ?g] =>
        destruct (feedback_cases b k g) as [-> | ->]; lia
    end.
Qed.

Lemma iter_polymodStep_bound (n : nat) (c : Z) :
  (0 <= Nat.iter (S n) polymodStep c < 2 ^ 30)%Z.
Proof. rewrite Nat.iter_succ. apply polymodStep_bound. Qed.

(** Thirty bits are six five-bit values. *)
Lemma six_fields (chk : Z) :
  (0 <= chk < 2 ^ 30)%Z ->
  exists vs,
    length vs = 6
    /\ Forall (fun v => 0 <= v < 2 ^ 5)%Z vs
    /\ pack 0 vs = chk.
Proof.
  intros Hchk. change (2 ^ 30)%Z with 1073741824%Z in Hchk.
  pose (q1 := (chk / 32)%Z). pose (q2 := (q1 / 32)%Z).
  pose (q3 := (q2 / 32)%Z). pose (q4 := (q3 / 32)%Z).
  pose (q5 := (q4 / 32)%Z).
  pose proof (Z.div_mod chk 32 ltac:(lia)) as E1.
  pose proof (Z.div_mod q1 32 ltac:(lia)) as E2.
  pose proof (Z.div_mod q2 32 ltac:(lia)) as E3.
  pose proof (Z.div_mod q3 32 ltac:(lia)) as E4.
  pose proof (Z.div_mod q4 32 ltac:(lia)) as E5.
  pose proof (Z.mod_pos_bound chk 32 ltac:(lia)) as B1.
  pose proof (Z.mod_pos_bound q1 32 ltac:(lia)) as B2.
  pose proof (Z.mod_pos_bound q2 32 ltac:(lia)) as B3.
  pose proof (Z.mod_pos_bound q3 32 ltac:(lia)) as B4.
  pose proof (Z.mod_pos_bound q4 32 ltac:(lia)) as B5.
  fold q1 in E1. fold q2 in E2. fold q3 in E3. fold q4 in E4. fold q5 in E5.
  assert (Hq5 : (0 <= q5 < 32)%Z) by lia.
  assert (Hvs : Forall (fun v => 0 <= v < 2 ^ 5)%Z
                  [q5; (q4 mod 32)%Z; (q3 mod 32)%Z; (q2 mod 32)%Z;
                   (q1 mod 32)%Z; (chk mod 32)%Z]).
  { change (2 ^ 5)%Z with 32%Z. repeat constructor; lia. }
  eexists. split; [| split; [exact Hvs |]]; [reflexivity |].
  rewrite (pack_six _ _ _ _ _ _ Hvs). lia.
Qed.

Lemma lower_ascii_idem (c : ascii) :
  lower_ascii (lower_ascii c) = lower_ascii c.
Proof. destruct c as [[] [] [] [] [] [] [] []]; reflexivity. Qed.

Lemma toLowerCase_idem (s : string) :
  toLowerCase (toLowerCase s) = toLowerCase s.
Proof.
  induction s as [| c s IH]; [reflexivity |].
  cbn [toLowerCase]. now rewrite lower_ascii_idem, IH.
Qed.

Lemma toLowerCase_app (s t : string) :
  toLowerCase (s +:+ t) = toLowerCase s +:+ toLowerCase t.
Proof.
  induction s as [| c s IH]; [reflexivity |].
  rewrite append_cons. cbn [toLowerCase]. now rewrite IH, append_cons.
Qed.

Lemma toLowerCase_length (s : string) :
  String.length (toLowerCase s) = String.length s.
Proof. induction s as [| c s IH]; [reflexivity |]. cbn. now rewrite IH. Qed.

(** Every value below 32 has a character: a lowercase letter or a digit
    other than 1, which the alphabet maps back to the value. *)
Lemma charAt_value (v : Z) :
  (0 <= v < 2 ^ 5)%Z ->
  exists c,
    charAt v = String c EmptyString
    /\ ALPHABET_MAP c = Some v
    /\ lower_ascii c = c
    /\ Ascii.eqb c "1" = false.
Proof.
  intros Hv. change (2 ^ 5)%Z with 32%Z in Hv.
  assert (Hall :
    forallb
      (fun n =>
         match charAt (Z.of_nat n) with
         | String c EmptyString =>
             match ALPHABET_MAP c with
             | Some v' =>
                 (v' =? Z.of_nat n)%Z && Ascii.eqb (lower_ascii c) c
                 && negb (Ascii.eqb c "1")
             | None => false
             end
         | _ => false
         end) (seq 0 32) = true) by (vm_compute; reflexivity).
  rewrite forallb_forall in Hall.
  specialize (Hall (Z.to_nat v)). rewrite Z2Nat.id in Hall by lia.
  assert (Hin : In (Z.to_nat v) (seq 0 32)) by (apply in_seq; lia).
  specialize (Hall Hin).
  destruct (charAt v) as [| c [| ? ?]]; try discriminate.
  destruct (ALPHABET_MAP c) as [v' |] eqn:Hm; [| discriminate].
  apply andb_true_iff in Hall as [Hall H1].
  apply andb_true_iff in Hall as [Hv' Hlow].
  apply Z.eqb_eq in Hv'. apply Ascii.eqb_eq in Hlow.
  apply negb_true_iff in H1. subst v'. exists c. now repeat split.
Qed.

Lemma single_append (c : ascii) (s : string) :
  String c EmptyString +:+ s = String c s.
Proof. reflexivity. Qed.

Lemma chars_lower (vs : list Z) :
  Forall (fun v => 0 <= v < 2 ^ 5)%Z vs ->
  toLowerCase (chars vs) = chars vs.
Proof.
  induction 1 as [| v vs Hv _ IH]; [reflexivity |].
  destruct (charAt_value v Hv) as (c & Hc & _ & Hlow & _).
  cbn [chars]. rewrite Hc, single_append. cbn [toLowerCase].
  now rewrite Hlow, IH.
Qed.

Lemma chars_no_separator (vs : list Z) :
  Forall (fun v => 0 <= v < 2 ^ 5)%Z vs ->
  forall i, lastIndexOf1 (chars vs) i = None.
Proof.
  induction 1 as [| v vs Hv _ IH]; intros i; [reflexivity |].
  destruct (charAt_value v Hv) as (c & Hc & _ & _ & Hsep).
  cbn [chars]. rewrite Hc, single_append. cbn [lastIndexOf1].
  now rewrite IH, Hsep.
Qed.


(** The loop of [decode] reads back the values behind the characters. *)
Lemma decode_words_chars (vs : list Z) :
  Forall (fun v => 0 <= v < 2 ^ 5)%Z vs ->
  forall (chk : Z) (acc : list Z),
    decode_words (list_ascii_of_string (chars vs)) chk acc
    = Ok (fold_left step vs chk, acc ++ firstn (length vs - 6) vs).
Proof.
  induction 1 as [| v vs Hv Hvs IH]; intros chk acc.
  - simpl. now rewrite app_nil_r.
  - destruct (charAt_value v Hv) as (c & Hc & Hmap & _ & _).
    cbn [chars]. rewrite Hc, single_append.
    change (list_ascii_of_string (String c (chars vs)))
      with (c :: list_ascii_of_string (chars vs)).
    cbn [decode_words]. rewrite Hmap.
    assert (Hlen : length (c :: list_ascii_of_string (chars vs))
                   = S (length vs)).
    { cbn [length]. now rewrite list_ascii_length, chars_length. }
    rewrite Hlen. cbn [fold_left length]. fold (step chk v).
    destruct (Nat.leb_spec 6 (S (length vs))) as [Hge | Hlt].
    + destruct (Nat.eqb_spec 6 (S (length vs))) as [Heq | Hne];
        cbn [negb andb]; rewrite IH.
      * replace (S (length vs) - 6) with 0 by lia.
        replace (length vs - 6) with 0 by lia. reflexivity.
      * replace (S (length vs) - 6) with (S (length vs - 6)) by lia.
        cbn [firstn]. now rewrite <- app_assoc.
    + cbn [andb]. rewrite IH. replace (S (length vs) - 6) with 0 by lia.
      replace (length vs - 6) with 0 by lia. reflexivity.
Qed.

Lemma lastIndexOf1_separator (a b : string) :
  (forall i, lastIndexOf1 b i = None) ->
  forall i,
    lastIndexOf1 (a +:+ String "1" b) i = Some (i + String.length a).
Proof.
  intros Hb. induction a as [| c a IH]; intros i.
  - change (EmptyString +:+ String "1" b) with (String "1" b).
    cbn [lastIndexOf1 String.length]. rewrite Hb.
    change (Ascii.eqb "1" "1") with true. cbv iota. f_equal. lia.
  - rewrite append_cons. cbn [lastIndexOf1 String.length]. rewrite IH.
    f_equal. lia.
Qed.

Lemma substring_prefix (a b : string) :
  String.substring 0 (String.length a) (a +:+ b) = a.
Proof.
  induction a as [| c a IH].
  - change (EmptyString +:+ b) with b. destruct b; reflexivity.
  - rewrite append_cons. cbn [String.length String.substring]. now rewrite IH.
Qed.

Lemma substring_whole (b : string) :
  String.substring 0 (String.length b) b = b.
Proof.
  induction b as [| c b IH]; [reflexivity |].
  cbn [String.length String.substring]. now rewrite IH.
Qed.

Lemma substring_suffix (a b : string) (c : ascii) (n : nat) :
  String.substring (S (String.length a)) n (a +:+ String c b)
  = String.substring 0 n b.
Proof.
  induction a as [| x a IH]; [reflexivity |].
  rewrite append_cons. cbn [String.length String.substring]. exact IH.
Qed.

(** What an encoding that succeeds says of its words. *)
Lemma encode_words_range (words : list Z) :
  forall (chk : Z) (res : string) r,
    encode_words words chk res = Ok r ->
    Forall (fun v => 0 <= v < 2 ^ 5)%Z words.
Proof.
  induction words as [| x words IH]; intros chk res r H; [constructor |].
  cbn [encode_words] in H.
  destruct (Z.eqb_spec (Z.shiftr x 5) 0) as [Hx | Hx]; [| discriminate].
  cbn [negb] in H. constructor; [| eapply IH; exact H].
  rewrite Z.shiftr_div_pow2 in Hx by lia.
  apply Z.div_small_iff in Hx; lia.
Qed.

(** The shape of an encoding: the prefix in lowercase, the separator, the
    characters of the words and of six checksum values. *)
Lemma encode_shape (prefix : string) (words : list Z) (s : string) :
  encode prefix words = Ok s ->
  exists c0 cs6,
    s = toLowerCase prefix +:+ String "1" (chars (words ++ cs6))
    /\ prefixChk (toLowerCase prefix) = Ok c0
    /\ length cs6 = 6
    /\ Forall (fun v => 0 <= v < 2 ^ 5)%Z (words ++ cs6)
    /\ fold_left step (words ++ cs6) c0 = 1%Z
    /\ String.length prefix + 7 + length words <= 90.
Proof.
  unfold encode.
  destruct (Nat.ltb_spec 90 (String.length prefix + 7 + length words))
    as [| Hlen]; [discriminate |].
  destruct (prefixChk (toLowerCase prefix)) as [c0 | e] eqn:Hc0;
    [| discriminate].
  cbn [bind].
  destruct (encode_words words c0 (toLowerCase prefix +:+ "1"))
    as [r | e] eqn:Hr; [| discriminate].
  pose proof (encode_words_range _ _ _ _ Hr) as Hw.
  rewrite (encode_words_spec words c0 _ Hw) in Hr. injection Hr as <-.
  cbn [bind fst snd].
  set (c1 := fold_left step words c0).
  set (P := Z.lxor (Nat.iter 6 polymodStep c1) 1).
  remember (((toLowerCase prefix +:+ "1") +:+ chars words)
            +:+ checksum_chars P) as out eqn:Eout.
  intros Hs. injection Hs as <-. subst out.
  assert (HP : (0 <= P < 2 ^ 30)%Z).
  { apply lxor_below; [lia | | lia]. exact (iter_polymodStep_bound 5 c1). }
  destruct (six_fields P HP) as (cs6 & Hlen6 & Hcs6 & Hpack).
  exists c0, cs6. repeat split; try assumption.
  - rewrite <- Hpack, (checksum_chars_spec cs6 Hlen6 Hcs6).
    rewrite chars_app, !append_assoc. reflexivity.
  - apply Forall_app. now split.
  - rewrite fold_left_app. fold c1.
    rewrite <- (Z.lxor_0_r c1) at 1.
    rewrite (fold_step_lxor cs6 c1 0 0); try (simpl; lia); try assumption.
    rewrite Hlen6, Hpack. unfold P.
    rewrite <- Z.lxor_assoc, Z.lxor_nilpotent. reflexivity.
Qed.

(** Decoding an encoding gives the prefix in lowercase and the words. *)
Lemma decode_encode (prefix : string) (words : list Z) (s : string) :
  prefix <> EmptyString ->
  encode prefix words = Ok s ->
  decode s None = Ok (toLowerCase prefix, words).
Proof.
  intros Hne He.
  destruct (encode_shape _ _ _ He)
    as (c0 & cs6 & -> & Hc0 & Hlen6 & Hvs & Hchk & _).
  pose proof (chars_length _ Hvs) as Hbody.
  rewrite length_app, Hlen6 in Hbody.
  set (lp := toLowerCase prefix) in *.
  set (body := chars (words ++ cs6)) in *.
  assert (Hlp : exists n, String.length lp = S n).
  { unfold lp. rewrite toLowerCase_length.
    destruct prefix; [congruence | simpl; eauto]. }
  destruct Hlp as (n & Hn).
  assert (Hlower : toLowerCase (lp +:+ String "1" body) = lp +:+ String "1" body).
  { rewrite toLowerCase_app. unfold lp at 1. rewrite toLowerCase_idem.
    fold lp. cbn [toLowerCase]. unfold body at 1.
    rewrite (chars_lower _ Hvs). reflexivity. }
  assert (Hsplit : lastIndexOf1 (lp +:+ String "1" body) 0 = Some (S n)).
  { rewrite lastIndexOf1_separator
      by (intros i; apply chars_no_separator; exact Hvs).
    now rewrite Hn. }
  assert (Hlength : String.length (lp +:+ String "1" body)
                    = S n + 1 + (length words + 6)).
  { rewrite string_length_app. cbn [String.length]. lia. }
  unfold decode. rewrite Hlower, String.eqb_refl. cbn [negb andb].
  rewrite Hsplit, Hlength.
  destruct (Nat.ltb_spec (S n + 1 + (length words + 6)) 8) as [| _]; [lia |].
  rewrite <- Hn, substring_prefix, substring_suffix.
  replace (String.length lp + 1 + (length words + 6) - S (String.length lp))
    with (String.length body) by lia.
  rewrite substring_whole, Hbody.
  destruct (Nat.ltb_spec (length words + 6) 6) as [| _]; [lia |].
  rewrite Hc0. cbn [bind]. unfold body.
  rewrite (decode_words_chars _ Hvs). cbn [bind fst snd app].
  rewrite Hchk. cbn [Z.eqb negb].
  rewrite length_app, Hlen6.
  replace (length words + 6 - 6) with (length words + 0) by lia.
  rewrite firstn_app_2. cbn [firstn]. now rewrite app_nil_r.
Qed.

(** The address that [toBech32] writes reads back as the prefix in
    lowercase and the same bytes. *)
Lemma fromBech32_toBech32 (prefix : string) (data : list byte) (s : string) :
  prefix <> EmptyString ->
  toBech32 prefix data = Ok s ->
  fromBech32 s = Ok (toLowerCase prefix, data).
Proof.
  intros Hne He. unfold toBech32 in He. unfold fromBech32.
  rewrite (decode_encode _ _ _ Hne He). cbn [bind fst snd].
  rewrite fromWords_toWords. reflexivity.
Qed.

Lemma convert_steps (address newPrefix result : string) :
  newPrefix <> "terra" ->
  convertAddressPrefix address newPrefix = Ok result ->
  exists prefix data,
    fromBech32 address = Ok (prefix, data)
    /\ toBech32 newPrefix data = Ok result.
Proof.
  intros Hterra. unfold convertAddressPrefix.
  destruct (String.eqb_spec newPrefix "terra") as [| _]; [contradiction |].
  destruct (fromBech32 address) as [[prefix data] | e]; [| discriminate].
  cbn [bind snd]. eauto.
Qed.

End RoundTripFacts.



(** X14. Re-encoding composes: an address obtained for one prefix (other
    than "terra" and the empty one) re-encodes under any second prefix to
    what the original address re-encodes to under that second prefix,
    exception for exception. *)
Theorem convertAddressPrefix_composes
  (address prefix1 prefix2 address1 : string) :
  convertAddressPrefix address prefix1 = Ok address1 ->
  prefix1 <> "terra" ->
  prefix1 <> EmptyString ->
  convertAddressPrefix address1 prefix2
  = convertAddressPrefix address prefix2.
Proof.
  intros Hconv Hterra Hne.
  destruct (RoundTripFacts.convert_steps _ _ _ Hterra Hconv)
    as (prefix & data & Hfrom & Hto).
  pose proof (RoundTripFacts.fromBech32_toBech32 _ _ _ Hne Hto) as Hfrom1.
  unfold convertAddressPrefix. rewrite Hfrom, Hfrom1. reflexivity.
Qed.

Lemma convertAddressPrefix_composes_witness :
  convertAddressPrefix "osmo1lzecpea0qxw5xae92xkm3vaddeszr278665crd" "cosmos"
  = convertAddressPrefix example_account "cosmos".
Proof.
  apply (convertAddressPrefix_composes example_account "osmo" "cosmos").
  - vm_compute. reflexivity.
  - discriminate.
  - discriminate.
Defined.



(** * [capitalize] and the report *)




Lemma capitalize_registered (chain : string) :
  In chain chainNames -> exists header, capitalize chain = Ok header.
Proof.
  intros H. simpl in H.
  repeat (destruct H as [<- | H]; [eexists; reflexivity |]). contradiction.
Qed.

Section ReportFacts.

Variable numberToString : number -> string.
Variables dAssetBalances lAssetBalances : gmap string (list BalanceRecord).

Abbreviation line := (record_line numberToString).
Abbreviation section_of :=
  (chain_section numberToString dAssetBalances lAssetBalances).
Abbreviation turn :=
  (report_chain numberToString dAssetBalances lAssetBalances).

Lemma fold_lines (records : list BalanceRecord) :
  forall file : string,
    fold_left (fun file record => file +:+ line record) records file
    = file +:+ fold_right append EmptyString (map line records).
Proof.
  induction records as [| r records IH]; intros file; cbn [fold_left map fold_right].
  - now rewrite CodecFacts.append_nil_r.
  - now rewrite IH, CodecFacts.append_assoc.
Qed.

(** One turn of the loop on a chain that has no entry yet in the merged
    mapping. *)
Lemma report_chain_turn (st : report_state) (chain header : string) :
  capitalize chain = Ok header ->
  rs_balances st !! chain = None ->
  exists balances,
    turn (st, Ok tt) chain
    = (mkReport
         (number_add (rs_dAssetTotal st) (chain_total dAssetBalances chain))
         (number_add (rs_lAssetTotal st) (chain_total lAssetBalances chain))
         balances
         (rs_file st +:+ section_of chain),
       Ok tt)
    /\ forall c, c <> chain -> balances !! c = rs_balances st !! c.
Proof.
  intros Hcap Hfresh.
  unfold report_chain, chain_section, merge_chain. cbn [fst snd].
  rewrite Hcap.
  destruct (dAssetBalances !! chain) as [d |],
           (lAssetBalances !! chain) as [l |]; cbn [default].
  - rewrite lookup_insert_eq, fold_lines.
    eexists. split.
    + now rewrite !CodecFacts.append_assoc.
    + intros c Hc. now apply lookup_insert_ne.
  - rewrite lookup_insert_eq, fold_lines, app_nil_r.
    eexists. split.
    + now rewrite !CodecFacts.append_assoc.
    + intros c Hc. now apply lookup_insert_ne.
  - rewrite lookup_insert_eq, fold_lines. cbn [app].
    eexists. split.
    + now rewrite !CodecFacts.append_assoc.
    + intros c Hc. now apply lookup_insert_ne.
  - rewrite Hfresh, CodecFacts.append_nil_r. eexists. split; reflexivity.
Qed.

(** The loop over a list of chains without repetition. *)
Lemma report_loop (chains : list string) :
  NoDup chains ->
  (forall c, In c chains -> exists header, capitalize c = Ok header) ->
  forall st : report_state,
    (forall c, In c chains -> rs_balances st !! c = None) ->
    exists balances,
      fold_left turn chains (st, Ok tt)
      = (mkReport
           (fold_left
              (fun total chain =>
                 number_add total (chain_total dAssetBalances chain))
              chains (rs_dAssetTotal st))
           (fold_left
              (fun total chain =>
                 number_add total (chain_total lAssetBalances chain))
              chains (rs_lAssetTotal st))
           balances
           (rs_file st
            +:+ fold_right append EmptyString (map section_of chains)),
         Ok tt).
Proof.
  induction 1 as [| chain chains Hnew Hnd IH]; intros Hcap st Hfresh.
  - exists (rs_balances st). cbn [fold_left map fold_right].
    rewrite CodecFacts.append_nil_r. now destruct st.
  - destruct (Hcap chain (or_introl eq_refl)) as (header & Hheader).
    destruct (report_chain_turn st chain header Hheader
                (Hfresh chain (or_introl eq_refl))) as (b1 & Hturn & Hb1).
    cbn [fold_left]. rewrite Hturn.
    edestruct (IH (fun c Hc => Hcap c (or_intror Hc))) as (b2 & Hloop).
    2: { exists b2. rewrite Hloop. cbn [rs_dAssetTotal rs_lAssetTotal rs_file].
         cbn [map fold_right]. now rewrite CodecFacts.append_assoc. }
    cbn [rs_balances]. intros c Hc. rewrite Hb1.
    + apply Hfresh. now right.
    + intros ->. apply Hnew. now apply list_elem_of_In.
Qed.

(** The file that [report] leaves. *)
Lemma report_file :
  let r := report numberToString dAssetBalances lAssetBalances in
  snd r = Ok tt
  /\ rs_dAssetTotal (fst r) = total_of dAssetBalances
  /\ rs_lAssetTotal (fst r) = total_of lAssetBalances
  /\ rs_file (fst r)
     = fold_right append EmptyString (map section_of chainNames)
       +:+ newline +:+ "TOTAL AMOUNTS:" +:+ newline
       +:+ dAssetDenom +:+ ", " +:+ numberToString (total_of dAssetBalances)
       +:+ newline
       +:+ lAssetDenom +:+ ", " +:+ numberToString (total_of lAssetBalances)
       +:+ newline.
Proof.
  destruct (report_loop chainNames chainNames_NoDup capitalize_registered
              (mkReport Number.zero Number.zero ∅ EmptyString)
              (fun c _ => lookup_empty c)) as (balances & Hloop).
  unfold report. rewrite Hloop. cbn [fst snd rs_dAssetTotal rs_lAssetTotal rs_file].
  repeat split.
Qed.

End ReportFacts.

(** X17. With seven levels of calls or more and the snapshots read in
    both runs, [main] settles without an exception and leaves this file:
    for each registered chain, in the order of the registry, nothing when
    neither run has an entry for the chain, and otherwise the capitalized
    chain name and a colon on a line, then one line per record, those of
    the first run before those of the second; then an empty line, the
    line "TOTAL AMOUNTS:", and one line per base denom with its total,
    the sum over the chains in the order of the registry. *)
Theorem main_writes_report (numberToString : number -> string)
  (stargate_d stargate_l : string -> string -> result (list Coin))
  (fuel : nat) (account : string) :
  length chainNames + 1 <= fuel ->
  (exists snapshots, fetchAll stargate_d account = Ok snapshots) ->
  (exists snapshots, fetchAll stargate_l account = Ok snapshots) ->
  exists dAssetBalances lAssetBalances,
    trackBalances stargate_d fuel dAssetDenom account
    = Some (Ok dAssetBalances)
    /\ trackBalances stargate_l fuel lAssetDenom account
       = Some (Ok lAssetBalances)
    /\ main numberToString stargate_d stargate_l fuel account
       = Some
           (fold_right append EmptyString
              (map (chain_section numberToString dAssetBalances lAssetBalances)
                 chainNames)
            +:+ newline +:+ "TOTAL AMOUNTS:" +:+ newline
            +:+ dAssetDenom +:+ ", "
            +:+ numberToString (total_of dAssetBalances) +:+ newline
            +:+ lAssetDenom +:+ ", "
            +:+ numberToString (total_of lAssetBalances) +:+ newline,
            Ok tt).
Proof.
  intros Hfuel (sd & Hsd) (sl & Hsl).
  destruct (trackBalances_succeeds stargate_d fuel dAssetDenom account sd
              Hfuel Hsd) as (d & Hd).
  destruct (trackBalances_succeeds stargate_l fuel lAssetDenom account sl
              Hfuel Hsl) as (l & Hl).
  exists d, l. split; [exact Hd |]. split; [exact Hl |].
  unfold main. rewrite Hd, Hl.
  destruct (report_file numberToString d l) as (Hok & _ & _ & Hfile).
  cbv zeta in Hok, Hfile. now rewrite Hok, Hfile.
Qed.


Lemma main_writes_report_witness :
  exists dAssetBalances lAssetBalances,
    trackBalances (origin_stargate ["5"]) 7 dAssetDenom example_account
    = Some (Ok dAssetBalances)
    /\ trackBalances (origin_stargate ["5"]) 7 lAssetDenom example_account
       = Some (Ok lAssetBalances)
    /\ main (fun _ => "5") (origin_stargate ["5"]) (origin_stargate ["5"]) 7
         example_account
       = Some
           (fold_right append EmptyString
              (map (chain_section (fun _ => "5") dAssetBalances lAssetBalances)
                 chainNames)
            +:+ newline +:+ "TOTAL AMOUNTS:" +:+ newline
            +:+ dAssetDenom +:+ ", " +:+ "5" +:+ newline
            +:+ lAssetDenom +:+ ", " +:+ "5" +:+ newline,
            Ok tt).
Proof.
  apply (main_writes_report (fun _ => "5") (origin_stargate ["5"])
           (origin_stargate ["5"]) 7 example_account).
  - simpl. lia.
  - exists (origin_allBalances ["5"]). apply origin_fetchAll.
  - exists (origin_allBalances ["5"]). apply origin_fetchAll.
Defined.


(** * The totals *)

Lemma shr_1_nonneg (mrs : shr_record) :
  (0 <= shr_m mrs)%Z -> (0 <= shr_m (shr_1 mrs))%Z.
Proof.
  destruct mrs as [m r s]. cbn [shr_m]. intros Hm.
  destruct m as [| [p | p |] | p]; cbn; lia.
Qed.

Lemma iter_pos_shr_1_nonneg (p : positive) :
  forall mrs : shr_record,
    (0 <= shr_m mrs)%Z -> (0 <= shr_m (SpecFloat.iter_pos shr_1 p mrs))%Z.
Proof.
  induction p as [p IH | p IH |]; intros mrs Hm; cbn [SpecFloat.iter_pos].
  - apply IH, IH, shr_1_nonneg, Hm.
  - apply IH, IH, Hm.
  - apply shr_1_nonneg, Hm.
Qed.

Lemma shr_fexp_nonneg (m e : Z) (l : location) :
  (0 <= m)%Z ->
  (0 <= shr_m (fst (shr_fexp Number.prec Number.emax m e l)))%Z.
Proof.
  intros Hm. unfold shr_fexp, shr.
  assert (H0 : (0 <= shr_m (shr_record_of_loc m l))%Z)
    by (destruct l as [| []]; exact Hm).
  destruct (fexp Number.prec Number.emax (Zdigits2 m + e) - e)%Z;
    cbn [fst]; [exact H0 | | exact H0].
  now apply iter_pos_shr_1_nonneg.
Qed.

Lemma round_nearest_even_nonneg (m : Z) (l : location) :
  (0 <= m)%Z -> (0 <= round_nearest_even m l)%Z.
Proof.
  intros Hm. unfold round_nearest_even.
  destruct l as [| []]; try destruct (Z.even m); lia.
Qed.

Lemma binary_round_aux_nonneg (mx ex : Z) (lx : location) :
  (0 <= mx)%Z ->
  nonnegative (binary_round_aux Number.prec Number.emax false mx ex lx).
Proof.
  intros Hm. unfold binary_round_aux.
  pose proof (shr_fexp_nonneg mx ex lx Hm) as H1.
  destruct (shr_fexp Number.prec Number.emax mx ex lx) as [mrs1 e1].
  cbn [fst] in H1.
  pose proof (shr_fexp_nonneg _ e1 loc_Exact
                (round_nearest_even_nonneg _ (loc_of_shr_record mrs1) H1))
    as H2.
  destruct (shr_fexp Number.prec Number.emax
              (round_nearest_even (shr_m mrs1) (loc_of_shr_record mrs1))
              e1 loc_Exact) as [mrs2 e2].
  cbn [fst] in H2.
  destruct (shr_m mrs2) as [| p | p]; [exact I | | lia].
  destruct (e2 <=? Number.emax - Number.prec)%Z; exact I.
Qed.

(** The sum of two numbers that are not negative and not [NaN] is not
    negative and not [NaN]. *)
Lemma number_add_nonnegative (x y : number) :
  nonnegative x -> nonnegative y -> nonnegative (number_add x y).
Proof.
  destruct x as [[] | [] | | [] mx ex], y as [[] | [] | | [] my ey];
    try contradiction; intros _ _; try exact I.
  unfold number_add, SFadd. cbn [cond_Zopp].
  unfold binary_normalize, binary_round.
  match goal with
  | |- context [(Z.pos ?a + Z.pos ?b)%Z] =>
      change (Z.pos a + Z.pos b)%Z with (Z.pos (a + b))
  end.
  cbv iota.
  match goal with
  | |- context [shl_align ?m ?e ?e'] =>
      destruct (shl_align m e e') as [mz ez]
  end.
  apply binary_round_aux_nonneg. lia.
Qed.

Lemma positive_nonnegative (x : number) :
  Number.gt x Number.zero = true -> nonnegative x.
Proof.
  intros H. apply gt_zero_cases in H as [-> | (m & e & ->)]; exact I.
Qed.

Lemma sum_balances_nonnegative (records : list BalanceRecord) :
  (forall r, r ∈ records -> Number.gt (br_balance r) Number.zero = true) ->
  nonnegative (sum_balances records).
Proof.
  unfold sum_balances.
  assert (H : forall init,
    nonnegative init ->
    (forall r, r ∈ records -> Number.gt (br_balance r) Number.zero = true) ->
    nonnegative
      (fold_left (fun prev cur => number_add prev (br_balance cur)) records
         init)).
  { induction records as [| r records IH]; intros init Hinit Hpos;
      [exact Hinit |].
    cbn [fold_left]. apply IH.
    - apply number_add_nonnegative; [exact Hinit |].
      apply positive_nonnegative, Hpos. now left.
    - intros r' Hr'. apply Hpos. now right. }
  apply H. exact I.
Qed.

(** X19. The totals of a run are never negative and never [NaN]: the sum
    of the balances of any chain and the total over the chains, added up
    in the order of the source, are [+0], a positive finite number or
    [Infinity]. *)
Theorem totals_nonnegative
  (stargate : string -> string -> result (list Coin)) (fuel : nat)
  (denom account : string) (m : gmap string (list BalanceRecord)) :
  trackBalances stargate fuel denom account = Some (Ok m) ->
  nonnegative (total_of m)
  /\ forall chain, nonnegative (chain_total m chain).
Proof.
  intros Hm. pose proof (trackBalances_records_ok _ _ _ _ _ Hm) as Hok.
  assert (Hchain : forall chain, nonnegative (chain_total m chain)).
  { intros chain. unfold chain_total.
    destruct (m !! chain) as [records |] eqn:Hl; [| exact I].
    apply sum_balances_nonnegative. intros r Hr.
    destruct (Hok chain records r Hl Hr) as (_ & _ & _ & Hgt & _).
    exact Hgt. }
  split; [| exact Hchain].
  unfold total_of.
  assert (H : forall chains init,
    nonnegative init ->
    nonnegative
      (fold_left (fun total chain => number_add total (chain_total m chain))
         chains init)).
  { induction chains as [| c chains IH]; intros init Hinit; [exact Hinit |].
    cbn [fold_left]. apply IH, number_add_nonnegative; [exact Hinit |].
    apply Hchain. }
  apply H. exact I.
Qed.

Lemma totals_nonnegative_witness :
  nonnegative (total_of {[ "neutron" := [example_record] ]})
  /\ forall chain,
       nonnegative (chain_total {[ "neutron" := [example_record] ]} chain).
Proof.
  apply (totals_nonnegative (origin_stargate ["5"]) 7 "untrn" example_account).
  apply example_run.
Defined.

(** * Amounts written in decimal digits *)

Module AmountFacts.
Import Number.
Local Open Scope Z_scope.

Lemma digits2_pos_bound (p : positive) :
  2 ^ (Z.pos (digits2_pos p) - 1) <= Z.pos p.
Proof.
  induction p as [p IH | p IH |]; cbn [digits2_pos].
  - rewrite Pos2Z.inj_succ.
    replace (Z.succ (Z.pos (digits2_pos p)) - 1)
      with (Z.succ (Z.pos (digits2_pos p) - 1)) by lia.
    rewrite Z.pow_succ_r by lia. lia.
  - rewrite Pos2Z.inj_succ.
    replace (Z.succ (Z.pos (digits2_pos p)) - 1)
      with (Z.succ (Z.pos (digits2_pos p) - 1)) by lia.
    rewrite Z.pow_succ_r by lia. lia.
  - simpl. lia.
Qed.

Lemma shr_1_div2 (mrs : shr_record) :
  0 <= shr_m mrs -> shr_m (shr_1 mrs) = shr_m mrs / 2.
Proof.
  destruct mrs as [m r s]. cbn [shr_m]. intros Hm.
  rewrite <- Z.div2_div.
  destruct m as [| [p | p |] | p]; try reflexivity. lia.
Qed.

Lemma iter_pos_shr_1_div (k : positive) :
  forall mrs : shr_record,
    0 <= shr_m mrs ->
    shr_m (SpecFloat.iter_pos shr_1 k mrs) = shr_m mrs / 2 ^ Z.pos k.
Proof.
  induction k as [k IH | k IH |]; intros mrs Hm; cbn [SpecFloat.iter_pos].
  - rewrite IH by (apply iter_pos_shr_1_nonneg, shr_1_nonneg, Hm).
    rewrite IH by (apply shr_1_nonneg, Hm).
    rewrite shr_1_div2 by exact Hm.
    rewrite !Z.div_div
      by first [lia | apply Z.pow_nonzero; lia | apply Z.pow_pos_nonneg; lia
               | apply Z.pow_nonneg; lia].
    f_equal. rewrite <- Z.pow_add_r by lia.
    rewrite <- (Z.pow_1_r 2) at 1. rewrite <- Z.pow_add_r by lia.
    f_equal. lia.
  - rewrite IH by (apply iter_pos_shr_1_nonneg, Hm).
    rewrite IH by exact Hm.
    rewrite Z.div_div
      by first [lia | apply Z.pow_nonzero; lia | apply Z.pow_pos_nonneg; lia
               | apply Z.pow_nonneg; lia].
    f_equal. rewrite <- Z.pow_add_r by lia. f_equal. lia.
  - rewrite shr_1_div2 by exact Hm. reflexivity.
Qed.

(** Shifting to the canonical exponent keeps a positive mantissa
    positive, and the exponent at or above the least one. *)
Lemma shr_fexp_positive (m e : Z) (l : location) :
  0 < m -> -1074 <= e ->
  0 < shr_m (fst (shr_fexp prec emax m e l))
  /\ -1074 <= snd (shr_fexp prec emax m e l).
Proof.
  intros Hm He. unfold shr_fexp, shr.
  assert (H0 : shr_m (shr_record_of_loc m l) = m)
    by (destruct l as [| []]; reflexivity).
  destruct m as [| p | p]; try lia.
  pose proof (digits2_pos_bound p) as Hd.
  cbn [Zdigits2]. unfold fexp, emin, prec, emax.
  set (d := Z.pos (digits2_pos p)) in *.
  destruct (Z.max (d + e - 53) (3 - 1024 - 53) - e) as [| k | k] eqn:Hn;
    cbn [fst snd]; try (rewrite H0; lia).
  rewrite iter_pos_shr_1_div by (rewrite H0; lia).
  rewrite H0. split; [| lia].
  assert (Hk : Z.pos k <= d - 1) by lia.
  assert (Hpow : 2 ^ Z.pos k <= 2 ^ (d - 1))
    by (apply Z.pow_le_mono_r; lia).
  assert (H2 : 0 < 2 ^ Z.pos k) by (apply Z.pow_pos_nonneg; lia).
  apply Z.div_str_pos. lia.
Qed.

Lemma round_nearest_even_ge (m : Z) (l : location) :
  m <= round_nearest_even m l.
Proof.
  unfold round_nearest_even.
  destruct l as [| []]; try destruct (Z.even m); lia.
Qed.

(** A positive integer rounds to a positive number or to [Infinity]. *)
Lemma binary_round_positive (p : positive) :
  gt (binary_round prec emax false p 0) zero = true.
Proof.
  apply gt_zero_cases. unfold binary_round.
  assert (Hal : let r := shl_align p 0
                           (fexp prec emax (Z.pos (digits2_pos p) + 0)) in
                -1074 <= snd r).
  { unfold shl_align, fexp, emin, prec, emax. cbv zeta.
    destruct (Z.max (Z.pos (digits2_pos p) + 0 - 53) (3 - 1024 - 53) - 0)
      eqn:E; cbn [snd]; lia. }
  cbv zeta in Hal.
  destruct (shl_align p 0 (fexp prec emax (Z.pos (digits2_pos p) + 0)))
    as [mz ez].
  cbn [snd] in Hal. unfold binary_round_aux.
  destruct (shr_fexp_positive (Z.pos mz) ez loc_Exact ltac:(lia) Hal)
    as (H1 & He1).
  destruct (shr_fexp prec emax (Z.pos mz) ez loc_Exact) as [mrs1 e1].
  cbn [fst snd] in H1, He1.
  pose proof (round_nearest_even_ge (shr_m mrs1) (loc_of_shr_record mrs1))
    as Hr.
  destruct (shr_fexp_positive
              (round_nearest_even (shr_m mrs1) (loc_of_shr_record mrs1))
              e1 loc_Exact ltac:(lia) He1) as (H2 & _).
  destruct (shr_fexp prec emax
              (round_nearest_even (shr_m mrs1) (loc_of_shr_record mrs1))
              e1 loc_Exact) as [mrs2 e2].
  cbn [fst] in H2.
  destruct (shr_m mrs2) as [| q | q]; try lia.
  destruct (e2 <=? emax - prec); eauto.
Qed.

Lemma digit_cases (c : ascii) :
  is_digit c = true ->
  In c ["0"; "1"; "2"; "3"; "4"; "5"; "6"; "7"; "8"; "9"]%char.
Proof.
  destruct c as [[] [] [] [] [] [] [] []]; intros H;
    try discriminate H; simpl; tauto.
Qed.

Lemma span_all_digits (l : list ascii) :
  forallb is_digit l = true -> span_digits l = (l, []).
Proof.
  induction l as [| c l IH]; [reflexivity |].
  cbn [forallb span_digits]. intros H.
  apply andb_true_iff in H as [-> H]. now rewrite IH.
Qed.

Lemma digits_value_fold (l : list ascii) :
  forallb is_digit l = true ->
  forall acc,
    0 <= acc ->
    0 <= fold_left (fun acc c => acc * 10 + (Z.of_nat (nat_of_ascii c) - 48))
           l acc
    /\ (fold_left (fun acc c => acc * 10 + (Z.of_nat (nat_of_ascii c) - 48))
          l acc = 0
        <-> acc = 0 /\ forallb (fun c => Ascii.eqb c "0") l = true).
Proof.
  induction l as [| c l IH]; intros Hl acc Hacc; cbn [fold_left forallb].
  - split; [exact Hacc | tauto].
  - cbn [forallb] in Hl. apply andb_true_iff in Hl as [Hc Hl].
    assert (Hv : 0 <= Z.of_nat (nat_of_ascii c) - 48 <= 9
                 /\ (Z.of_nat (nat_of_ascii c) - 48 = 0
                     <-> Ascii.eqb c "0" = true)).
    { apply digit_cases in Hc. simpl in Hc.
      repeat (destruct Hc as [<- | Hc];
              [match goal with
               | |- context [Z.of_nat (nat_of_ascii ?x) - 48] =>
                   let v := eval vm_compute in (Z.of_nat (nat_of_ascii x) - 48)
                   in change (Z.of_nat (nat_of_ascii x) - 48) with v
               end;
               match goal with
               | |- context [Ascii.eqb ?a ?b] =>
                   let v := eval vm_compute in (Ascii.eqb a b)
                   in change (Ascii.eqb a b) with v
               end;
               split; [lia | split; intros H';
                             first [reflexivity | discriminate H'] ] |]).
      contradiction. }
    destruct Hv as (Hrange & Hzero).
    destruct (IH Hl (acc * 10 + (Z.of_nat (nat_of_ascii c) - 48))
                ltac:(lia)) as (Hnn & Hiff).
    split; [exact Hnn |]. rewrite Hiff, andb_true_iff, <- Hzero.
    intuition lia.
Qed.

Lemma string_forallb_list (f : ascii -> bool) (s : string) :
  string_forallb f s = forallb f (list_ascii_of_string s).
Proof. induction s as [| c s IH]; [reflexivity |]. cbn. now rewrite IH. Qed.

(** [parseFloat] on a text of decimal digits. *)
Lemma parseFloat_digits (s : string) :
  s <> EmptyString ->
  string_forallb is_digit s = true ->
  parseFloat s = of_decimal false (digits_value (list_ascii_of_string s)) 0.
Proof.
  intros Hs Hd. rewrite string_forallb_list in Hd.
  unfold parseFloat.
  destruct s as [| c s]; [congruence |].
  change (list_ascii_of_string (String c s))
    with (c :: list_ascii_of_string s) in *.
  set (t := list_ascii_of_string s) in *.
  pose proof Hd as Hall. cbn [forallb] in Hd.
  apply andb_true_iff in Hd as [Hc _].
  apply digit_cases in Hc. cbn [length trim_start].
  assert (Hw : white_space_width (c :: t) = 0%nat).
  { simpl in Hc.
    repeat (destruct Hc as [<- | Hc]; [reflexivity |]). contradiction. }
  rewrite Hw.
  assert (Hlit : unsigned_literal false (c :: t)
                 = of_decimal false (digits_value (c :: t)) 0).
  { unfold unsigned_literal.
    assert (Hinf : starts_with (list_ascii_of_string "Infinity") (c :: t)
                   = false).
    { simpl in Hc.
      repeat (destruct Hc as [<- | Hc]; [reflexivity |]). contradiction. }
    rewrite Hinf, (span_all_digits _ Hall). reflexivity. }
  simpl in Hc.
  repeat (destruct Hc as [<- | Hc]; [exact Hlit |]). contradiction.
Qed.

End AmountFacts.

(** X20. An amount written in decimal digits only, as the chains report
    them, never parses to [NaN] or to a negative number: it parses to
    [+0] when every digit is 0, and to a number greater than zero (a
    positive finite number or [Infinity]) as soon as one digit is not. *)
Theorem parseFloat_integer_amount (amount : string) :
  amount <> EmptyString ->
  string_forallb Number.is_digit amount = true ->
  nonnegative (parseFloat amount)
  /\ Number.gt (parseFloat amount) Number.zero
     = negb (string_forallb (fun c => Ascii.eqb c "0") amount)
  /\ (string_forallb (fun c => Ascii.eqb c "0") amount = true ->
      parseFloat amount = Number.zero).
Proof.
  intros Hs Hd. rewrite (AmountFacts.parseFloat_digits amount Hs Hd).
  rewrite !AmountFacts.string_forallb_list in *.
  destruct (AmountFacts.digits_value_fold _ Hd 0%Z ltac:(lia))
    as (Hnn & Hzero).
  fold (Number.digits_value (list_ascii_of_string amount)) in Hnn, Hzero.
  destruct (Number.digits_value (list_ascii_of_string amount))
    as [| p | p] eqn:Hv; [| | lia].
  - destruct Hzero as [Hz _]. destruct (Hz eq_refl) as (_ & ->).
    repeat split.
  - assert (Hnz : forallb (fun c => Ascii.eqb c "0")
                    (list_ascii_of_string amount) = false).
    { destruct (forallb (fun c => Ascii.eqb c "0")
                  (list_ascii_of_string amount)) eqn:E; [| reflexivity].
      destruct Hzero as [_ Hz]. discriminate Hz. now split. }
    rewrite Hnz. unfold Number.of_decimal. cbn [Z.leb Z.compare].
    change (10 ^ 0)%Z with 1%Z. rewrite Z.mul_1_r.
    cbn [binary_normalize].
    pose proof (AmountFacts.binary_round_positive p) as Hpos.
    split; [now apply positive_nonnegative |].
    split; [exact Hpos | discriminate].
Qed.

Lemma parseFloat_integer_amount_witness :
  nonnegative (parseFloat "1000000")
  /\ Number.gt (parseFloat "1000000") Number.zero
     = negb (string_forallb (fun c => Ascii.eqb c "0") "1000000")
  /\ (string_forallb (fun c => Ascii.eqb c "0") "1000000" = true ->
      parseFloat "1000000" = Number.zero).
Proof.
  apply (parseFloat_integer_amount "1000000"); [discriminate | reflexivity].
Defined.




Lemma toUpperCase_length (s : string) :
  String.length (toUpperCase s) = String.length s.
Proof. induction s as [| c s IH]; [reflexivity |]. cbn. now rewrite IH. Qed.


